(** * Themes utilities of wp-calypso: query keys, matching and normalizers

    A shallow embedding of [client/state/themes/utils.js] and of the
    JavaScript and lodash primitives it calls, followed by the properties
    of the module that the specification states and by further properties
    read off the code.

    Modelling conventions.
    - A JavaScript string is the list of its UTF-16 code units.
    - A JavaScript number is an IEEE-754 binary64 value.  A finite number is
      stored as the integer [u] such that the number is [u * 2^-1074]
      (every finite binary64 value is a multiple of the smallest subnormal).
      The sign of zero is not represented: none of [===], [String],
      [JSON.stringify] and truthiness distinguishes [-0] from [+0].
    - An object is the list of its own enumerable string-keyed properties
      in property order; prototypes, accessors, symbols and functions are
      outside the model, as are sparse arrays.
    - A thrown exception is an explicit [Throw] result. *)

From Stdlib Require Import ZArith NArith List Bool Lia String Ascii Arith.
Import ListNotations.

Local Open Scope string_scope.
Local Open Scope list_scope.

(* ================================================================== *)
(** * Strings *)
(* ================================================================== *)

Definition jsstring : Type := list N.

(** A literal of the source, as code units. *)
Definition str (s : string) : jsstring :=
  map N_of_ascii (list_ascii_of_string s).

Fixpoint str_eqb (a b : jsstring) : bool :=
  match a, b with
  | [], [] => true
  | x :: a', y :: b' => N.eqb x y && str_eqb a' b'
  | _, _ => false
  end.

Fixpoint is_prefix (p s : jsstring) : bool :=
  match p, s with
  | [], _ => true
  | x :: p', y :: s' => N.eqb x y && is_prefix p' s'
  | _ :: _, [] => false
  end.

(** [String.prototype.indexOf(search) > -1]. *)
Fixpoint is_substring (p s : jsstring) : bool :=
  is_prefix p s ||
  match s with
  | [] => false
  | _ :: s' => is_substring p s'
  end.

(** [Array.prototype.join] on strings. *)
Fixpoint join (sep : jsstring) (l : list jsstring) : jsstring :=
  match l with
  | [] => []
  | [x] => x
  | x :: l' => x ++ sep ++ join sep l'
  end.

(** [String.prototype.split(sep)] for a one-unit separator: the pieces
    between the occurrences of [sep], empty pieces included. *)
Fixpoint split_on (sep : N) (s : jsstring) : list jsstring :=
  match s with
  | [] => [[]]
  | c :: s' =>
      if N.eqb c sep then [] :: split_on sep s'
      else match split_on sep s' with
           | [] => [[c]]
           | p :: ps => (c :: p) :: ps
           end
  end.

Definition is_digit (c : N) : bool := (N.leb 48 c && N.leb c 57)%N.

(** ECMAScript LineTerminator: LF, CR, LS, PS. *)
Definition is_line_terminator (c : N) : bool :=
  (N.eqb c 10 || N.eqb c 13 || N.eqb c 8232 || N.eqb c 8233)%N.

Definition digit_char (d : Z) : N := Z.to_N (48 + d).

(** Decimal digits of a non-negative integer, most significant first. *)
Fixpoint decimal_aux (fuel : nat) (z : Z) (acc : jsstring) : jsstring :=
  match fuel with
  | O => acc
  | S fuel' =>
      let acc' := digit_char (z mod 10) :: acc in
      if (z <? 10)%Z then acc' else decimal_aux fuel' (z / 10) acc'
  end.

Definition decimal (z : Z) : jsstring :=
  decimal_aux (S (Z.to_nat (Z.log2 z))) z [].

(** The mathematical value of a run of decimal digits. *)
Definition digits_value (ds : jsstring) : Z :=
  fold_left (fun acc c => (10 * acc + (Z.of_N c - 48))%Z) ds 0%Z.

(* ================================================================== *)
(** * Numbers *)
(* ================================================================== *)

Inductive number : Type :=
| NaN
| Inf (neg : bool)
| Fin (u : Z).

Definition scale : Z := (2 ^ 1074)%Z.
Arguments scale : simpl never.

(** The number whose value is the integer [z] (when it is representable). *)
Definition Int (z : Z) : number := Fin (z * scale).

Definition number_eqb (a b : number) : bool :=
  match a, b with
  | NaN, NaN => true
  | Inf x, Inf y => Bool.eqb x y
  | Fin x, Fin y => Z.eqb x y
  | _, _ => false
  end.

(** Integer nearest to [num / den], ties to even. *)
Definition round_half_even (num den : Z) : Z :=
  let m := (num / den)%Z in
  let r := (num mod den)%Z in
  if ((2 * r >? den) || ((2 * r =? den) && Z.odd m))%Z then (m + 1)%Z else m.

(** The binary64 value nearest to the non-negative rational [a / q],
    ties to even, overflowing to [Infinity]. *)
Definition round_to_double (a q : Z) : number :=
  let num := (a * scale)%Z in
  let j := Z.max (Z.log2 (num / q) - 52) 0 in
  let u := (round_half_even num (q * 2 ^ j) * 2 ^ j)%Z in
  if (u >=? 2 ^ 2098)%Z then Inf false else Fin u.

Definition number_neg (n : number) : number :=
  match n with
  | NaN => NaN
  | Inf b => Inf (negb b)
  | Fin u => Fin (- u)
  end.

(** The integers that are exact in binary64 and that [Number::toString]
    prints digit for digit. *)
Definition safe_integer (u : Z) : option Z :=
  if ((u mod scale =? 0) && (Z.abs u <? 2 ^ 53 * scale))%Z
  then Some (u / scale)%Z else None.

(** ** [Number::toString]

    For a finite positive [v], ECMAScript picks integers [n], [k], [s] with
    [10^(k-1) <= s < 10^k], [s * 10^(n-k)] converting back to [v], and [k]
    as small as possible; [shortest_digits] finds them by search. *)

(** [s * 10^x] as a fraction. *)
Definition dec_rat (s x : Z) : Z * Z :=
  if (x >=? 0)%Z then (s * 10 ^ x, 1)%Z else (s, 10 ^ (- x))%Z.

(** Whether [10^x <= u / scale]. *)
Definition pow10_le (x u : Z) : bool :=
  let '(p, q) := dec_rat 1 x in (p * scale <=? u * q)%Z.

(** The largest [n <= start] with [10^(n-1) <= u / scale]. *)
Fixpoint magnitude (fuel : nat) (start u : Z) : Z :=
  match fuel with
  | O => start
  | S fuel' =>
      if pow10_le (start - 1) u then start
      else magnitude fuel' (start - 1) u
  end.

Definition converts_back (u s x : Z) : bool :=
  let '(p, q) := dec_rat s x in
  number_eqb (round_to_double p q) (Fin u).

(** Numerator of [| s * 10^x - u / scale |] over the denominator
    [q * scale], returned with [q]. *)
Definition distance (u s x : Z) : Z * Z :=
  let '(p, q) := dec_rat s x in (Z.abs (p * scale - u * q), q)%Z.

Definition closer (u : Z) (a b : Z * Z) : bool :=
  let '(da, qa) := distance u (fst a) (snd a) in
  let '(db, qb) := distance u (fst b) (snd b) in
  ((da * qb <? db * qa) ||
   ((da * qb =? db * qa) && Z.even (fst a) && negb (Z.even (fst b))))%Z.

Definition best_candidate (u : Z) (l : list (Z * Z)) : option (Z * Z) :=
  fold_left (fun acc c =>
               match acc with
               | None => Some c
               | Some b => if closer u c b then Some c else Some b
               end) l None.

(** The valid [(s, x)] with [k] digits, around magnitude [n0]. *)
Definition candidates (u n0 k : Z) : list (Z * Z) :=
  let x := (n0 - k)%Z in
  let '(p, q) := dec_rat 1 x in
  let lo := ((u * q) / (p * scale))%Z in
  filter (fun c : Z * Z =>
            let '(s, y) := c in
            (10 ^ (k - 1) <=? s)%Z && (s <? 10 ^ k)%Z && converts_back u s y)
         [(lo, x); ((lo + 1)%Z, x); ((10 ^ (k - 1))%Z, (x + 1)%Z)].

Fixpoint shortest_from (fuel : nat) (u n0 k : Z) : Z * Z * Z :=
  match fuel with
  | O => (0, 1, 1)%Z
  | S fuel' =>
      match best_candidate u (candidates u n0 k) with
      | Some (s, x) => (s, k, (x + k)%Z)
      | None => shortest_from fuel' u n0 (k + 1)%Z
      end
  end.

(** [(s, k, n)] for the positive number [u / scale]. *)
Definition shortest_digits (u : Z) : Z * Z * Z :=
  shortest_from 17 u (magnitude 640 310 u) 1.

Definition zeros (n : Z) : jsstring := repeat 48%N (Z.to_nat n).

Definition format_number (s k n : Z) : jsstring :=
  let ds := decimal s in
  if ((k <=? n) && (n <=? 21))%Z then ds ++ zeros (n - k)
  else if ((0 <? n) && (n <=? 21))%Z then
    firstn (Z.to_nat n) ds ++ str "." ++ skipn (Z.to_nat n) ds
  else if ((-6 <? n) && (n <=? 0))%Z then
    str "0." ++ zeros (- n) ++ ds
  else
    let e := (n - 1)%Z in
    let sign := if (e <? 0)%Z then str "-" else str "+" in
    let mant := match ds with
                | [] => []
                | d :: rest => if (k =? 1)%Z then [d] else d :: str "." ++ rest
                end in
    mant ++ str "e" ++ sign ++ decimal (Z.abs e).

(** An integer below [2^53] is exact and prints digit for digit. *)
Definition positive_to_string (u : Z) : jsstring :=
  match safe_integer u with
  | Some z => decimal z
  | None => let '(s, k, n) := shortest_digits u in format_number s k n
  end.

(** [Number::toString(n)] in radix 10, which is also [String(n)]. *)
Definition number_to_string (n : number) : jsstring :=
  match n with
  | NaN => str "NaN"
  | Inf false => str "Infinity"
  | Inf true => str "-Infinity"
  | Fin u =>
      if (u =? 0)%Z then str "0"
      else if (u <? 0)%Z then str "-" ++ positive_to_string (- u)
      else positive_to_string u
  end.

(* ================================================================== *)
(** * Values *)
(* ================================================================== *)

Unset Elimination Schemes.
Inductive value : Type :=
| VUndef
| VNull
| VBool (b : bool)
| VNum (n : number)
| VStr (s : jsstring)
| VArr (elems : list value)
| VObj (props : list (jsstring * value)).
Set Elimination Schemes.

Definition object : Type := list (jsstring * value).

Inductive error : Type := TypeError | SyntaxError.

Inductive result (A : Type) : Type :=
| Ret (a : A)
| Throw (e : error).

Arguments Ret {A} a.
Arguments Throw {A} e.

Definition bind {A B : Type} (r : result A) (f : A -> result B) : result B :=
  match r with
  | Ret a => f a
  | Throw e => Throw e
  end.

Notation "x <- r ;; k" := (bind r (fun x => k))
  (at level 61, r at next level, right associativity).

(** ToBoolean. *)
Definition truthy (v : value) : bool :=
  match v with
  | VUndef | VNull => false
  | VBool b => b
  | VNum NaN => false
  | VNum (Inf _) => true
  | VNum (Fin u) => negb (u =? 0)%Z
  | VStr s => match s with [] => false | _ => true end
  | VArr _ | VObj _ => true
  end.

(** [a === b].  Two composite values are never [===]: the model has no
    object identity, so every array or object occurrence stands for an
    allocation of its own. *)
Definition strict_eq (a b : value) : bool :=
  match a, b with
  | VUndef, VUndef => true
  | VNull, VNull => true
  | VBool x, VBool y => Bool.eqb x y
  | VNum (Inf x), VNum (Inf y) => Bool.eqb x y
  | VNum (Fin x), VNum (Fin y) => (x =? y)%Z
  | VStr x, VStr y => str_eqb x y
  | _, _ => false
  end.

(** [a && b] and [a || b] on values. *)
Definition js_and (a : value) (b : result value) : result value :=
  if truthy a then b else Ret a.

Definition js_or (a : value) (b : result value) : result value :=
  if truthy a then Ret a else b.

(** ** Objects *)

Fixpoint lookup (k : jsstring) (o : object) : option value :=
  match o with
  | [] => None
  | (k', v) :: o' => if str_eqb k k' then Some v else lookup k o'
  end.

(** [o[k]] on an ordinary object: the property, or [undefined]. *)
Definition prop (k : jsstring) (o : object) : value :=
  match lookup k o with Some x => x | None => VUndef end.

Definition has_key (k : jsstring) (o : object) : bool :=
  match lookup k o with Some _ => true | None => false end.

Definition keys (o : object) : list jsstring := map fst o.

(** An array index: the canonical decimal form of an integer below
    [2^32 - 1].  Such keys come first, in ascending order, in the property
    order of an object. *)
Definition array_index (k : jsstring) : option Z :=
  if forallb is_digit k && negb (str_eqb k []) then
    let i := digits_value k in
    if str_eqb (decimal i) k && (i <? 2 ^ 32 - 1)%Z then Some i else None
  else None.

Fixpoint replace_value (k : jsstring) (v : value) (o : object) : object :=
  match o with
  | [] => []
  | (k', v') :: o' =>
      if str_eqb k k' then (k', v) :: o' else (k', v') :: replace_value k v o'
  end.

Fixpoint insert_index (i : Z) (k : jsstring) (v : value) (o : object) : object :=
  match o with
  | [] => [(k, v)]
  | (k', v') :: o' =>
      match array_index k' with
      | Some i' =>
          if (i' <? i)%Z then (k', v') :: insert_index i k v o'
          else (k, v) :: o
      | None => (k, v) :: o
      end
  end.

(** [o[k] = v] on an ordinary object: an existing property keeps its
    place, a new array index goes among the indices, any other new key
    goes last. *)
Definition obj_set (k : jsstring) (v : value) (o : object) : object :=
  if has_key k o then replace_value k v o
  else match array_index k with
       | Some i => insert_index i k v o
       | None => o ++ [(k, v)]
       end.

(** [{ ...a, ...b }]: the properties of [b] assigned in order onto [a]. *)
Definition assign (a b : object) : object :=
  fold_left (fun acc kv => obj_set (fst kv) (snd kv) acc) b a.

Definition from_entries (l : list (jsstring * value)) : object := assign [] l.

Fixpoint indexed_from {A : Type} (i : Z) (l : list A) : list (Z * A) :=
  match l with
  | [] => []
  | x :: l' => (i, x) :: indexed_from (i + 1)%Z l'
  end.

Definition chars (s : jsstring) : list value := map (fun c => VStr [c]) s.

(** The own enumerable string-keyed properties of a value, in order
    (what [for...in] restricted to own properties enumerates). *)
Definition own_entries (v : value) : object :=
  match v with
  | VObj o => o
  | VArr l => map (fun p => (decimal (fst p), snd p)) (indexed_from 0 l)
  | VStr s => map (fun p => (decimal (fst p), snd p)) (indexed_from 0 (chars s))
  | _ => []
  end.

(** [v[k]] for a string key.  Reading a property of [undefined] or [null]
    throws; a primitive has no own property beyond the indices and the
    length of a string. *)
Definition get_prop (v : value) (k : jsstring) : result value :=
  match v with
  | VUndef | VNull => Throw TypeError
  | VObj o => Ret (prop k o)
  | VArr l =>
      if str_eqb k (str "length") then Ret (VNum (Int (Z.of_nat (List.length l))))
      else Ret (prop k (own_entries v))
  | VStr s =>
      if str_eqb k (str "length") then Ret (VNum (Int (Z.of_nat (List.length s))))
      else Ret (prop k (own_entries v))
  | VBool _ | VNum _ => Ret VUndef
  end.

(** ** ToString *)

Fixpoint to_string (v : value) : jsstring :=
  match v with
  | VUndef => str "undefined"
  | VNull => str "null"
  | VBool true => str "true"
  | VBool false => str "false"
  | VNum n => number_to_string n
  | VStr s => s
  | VArr l =>
      join (str ",")
           (map (fun x => match x with
                          | VUndef | VNull => []
                          | _ => to_string x
                          end) l)
  | VObj _ => str "[object Object]"
  end.

(** [Array.prototype.join(sep)]. *)
Definition array_join (sep : jsstring) (l : list value) : jsstring :=
  join sep (map (fun x => match x with
                          | VUndef | VNull => []
                          | _ => to_string x
                          end) l).

(** ** Deep equality

    Structural equality of values in which the order of the properties of
    an object does not matter and [NaN] equals itself, as [_.isEqual] and
    the deep equality of the test assertions have it. *)


(* ================================================================== *)
(** * JSON *)
(* ================================================================== *)

Definition hex_digit (d : N) : N :=
  if (d <? 10)%N then (48 + d)%N else (87 + d)%N.

Definition hex4 (c : N) : jsstring :=
  [hex_digit ((c / 4096) mod 16); hex_digit ((c / 256) mod 16);
   hex_digit ((c / 16) mod 16); hex_digit (c mod 16)]%N.

(** The escape of one code unit inside a JSON string literal. *)
Definition quote_unit (c : N) : jsstring :=
  if (c =? 34)%N then [92; 34]%N
  else if (c =? 92)%N then [92; 92]%N
  else if (c =? 8)%N then str "\b"
  else if (c =? 12)%N then str "\f"
  else if (c =? 10)%N then str "\n"
  else if (c =? 13)%N then str "\r"
  else if (c =? 9)%N then str "\t"
  else if (c <? 32)%N then str "\u" ++ hex4 c
  else [c].

(** QuoteJSONString, as ECMAScript defined it up to its 2018 edition.
    Later editions also escape a lone surrogate; the text differs, what
    [JSON.parse] reads back from it does not. *)
Definition quote (s : jsstring) : jsstring :=
  [34%N] ++ flat_map quote_unit s ++ [34%N].

(** SerializeJSONProperty with no replacer and no indentation; [None] is
    the [undefined] that an unserializable value produces. *)
Fixpoint stringify (v : value) : option jsstring :=
  match v with
  | VUndef => None
  | VNull => Some (str "null")
  | VBool true => Some (str "true")
  | VBool false => Some (str "false")
  | VNum (Fin u) => Some (number_to_string (Fin u))
  | VNum _ => Some (str "null")
  | VStr s => Some (quote s)
  | VArr l =>
      Some (str "[" ++
            join (str ",")
                 (map (fun x => match stringify x with
                                | Some t => t
                                | None => str "null"
                                end) l) ++
            str "]")
  | VObj o =>
      Some (str "{" ++
            join (str ",")
                 ((fix members (o : object) : list jsstring :=
                     match o with
                     | [] => []
                     | (k, x) :: o' =>
                         match stringify x with
                         | Some t => (quote k ++ str ":" ++ t) :: members o'
                         | None => members o'
                         end
                     end) o) ++
            str "}")
  end.

(** [JSON.stringify(value)] as a value: a string or [undefined]. *)
Definition JSON_stringify (v : value) : value :=
  match stringify v with
  | Some s => VStr s
  | None => VUndef
  end.

(** ** Parsing *)

Definition is_ws (c : N) : bool :=
  (N.eqb c 9 || N.eqb c 10 || N.eqb c 13 || N.eqb c 32)%N.

Fixpoint skip_ws (s : jsstring) : jsstring :=
  match s with
  | c :: s' => if is_ws c then skip_ws s' else s
  | [] => []
  end.

Definition hex_value (c : N) : option N :=
  if (N.leb 48 c && N.leb c 57)%N then Some (c - 48)%N
  else if (N.leb 97 c && N.leb c 102)%N then Some (c - 87)%N
  else if (N.leb 65 c && N.leb c 70)%N then Some (c - 55)%N
  else None.

Definition unhex4 (a b c d : N) : option N :=
  match hex_value a, hex_value b, hex_value c, hex_value d with
  | Some x, Some y, Some z, Some w => Some (x * 4096 + y * 256 + z * 16 + w)%N
  | _, _, _, _ => None
  end.

Definition unescape (e : N) : option N :=
  if (e =? 34)%N then Some 34%N
  else if (e =? 92)%N then Some 92%N
  else if (e =? 47)%N then Some 47%N
  else if (e =? 98)%N then Some 8%N
  else if (e =? 102)%N then Some 12%N
  else if (e =? 110)%N then Some 10%N
  else if (e =? 114)%N then Some 13%N
  else if (e =? 116)%N then Some 9%N
  else None.

(** The characters of a string literal after its opening quote, and what
    follows its closing quote. *)
Fixpoint parse_string (s : jsstring) : option (jsstring * jsstring) :=
  match s with
  | [] => None
  | c :: s' =>
      if (c =? 34)%N then Some ([], s')
      else if (c =? 92)%N then
        match s' with
        | [] => None
        | e :: s'' =>
            if (e =? 117)%N then
              match s'' with
              | h1 :: h2 :: h3 :: h4 :: s3 =>
                  match unhex4 h1 h2 h3 h4, parse_string s3 with
                  | Some u, Some (t, rest) => Some (u :: t, rest)
                  | _, _ => None
                  end
              | _ => None
              end
            else
              match unescape e, parse_string s'' with
              | Some u, Some (t, rest) => Some (u :: t, rest)
              | _, _ => None
              end
        end
      else if (c <? 32)%N then None
      else match parse_string s' with
           | Some (t, rest) => Some (c :: t, rest)
           | None => None
           end
  end.

(** The longest prefix of digits, and the rest. *)
Fixpoint span_digits (s : jsstring) : jsstring * jsstring :=
  match s with
  | c :: s' =>
      if is_digit c then let '(d, r) := span_digits s' in (c :: d, r)
      else ([], s)
  | [] => ([], [])
  end.

(** The integer part of a JSON number: [0] or a digit run without a
    leading zero. *)
Definition parse_int_part (s : jsstring) : option (jsstring * jsstring) :=
  match span_digits s with
  | ([], _) => None
  | (c :: d, r) =>
      if N.eqb c 48 then Some ([c], d ++ r) else Some (c :: d, r)
  end.

Definition parse_frac_part (s : jsstring) : option (jsstring * jsstring) :=
  match s with
  | 46%N :: s' =>
      match span_digits s' with
      | ([], _) => None
      | (d, r) => Some (d, r)
      end
  | _ => Some ([], s)
  end.

Definition parse_exp_part (s : jsstring) : option (Z * jsstring) :=
  match s with
  | c :: s' =>
      if (N.eqb c 101 || N.eqb c 69)%N then
        let '(neg, s'') :=
          match s' with
          | 45%N :: t => (true, t)
          | 43%N :: t => (false, t)
          | _ => (false, s')
          end in
        match span_digits s'' with
        | ([], _) => None
        | (d, r) => Some (if neg then (- digits_value d)%Z else digits_value d, r)
        end
      else Some (0%Z, s)
  | [] => Some (0%Z, [])
  end.

(** A JSON number literal and its binary64 value. *)
Definition parse_number (s : jsstring) : option (number * jsstring) :=
  let '(neg, s1) := match s with
                    | c :: t => if N.eqb c 45 then (true, t) else (false, s)
                    | [] => (false, s)
                    end in
  match parse_int_part s1 with
  | None => None
  | Some (i, s2) =>
      match parse_frac_part s2 with
      | None => None
      | Some (f, s3) =>
          match parse_exp_part s3 with
          | None => None
          | Some (e, s4) =>
              let '(p, q) := dec_rat (digits_value (i ++ f))
                                     (e - Z.of_nat (List.length f)) in
              let n := round_to_double p q in
              Some (if neg then number_neg n else n, s4)
          end
      end
  end.

Definition strip_prefix (p s : jsstring) : option jsstring :=
  if is_prefix p s then Some (skipn (List.length p) s) else None.

(** Recursive descent on the JSON grammar.  [parse_value] starts at the
    first character of a value and returns what follows it; the fuel bounds
    the depth of the calls. *)
Fixpoint parse_value (fuel : nat) (s : jsstring) : option (value * jsstring) :=
  match fuel with
  | O => None
  | S fuel' =>
      match s with
      | [] => None
      | c :: s' =>
          if (c =? 110)%N then
            option_map (fun r => (VNull, r)) (strip_prefix (str "null") s)
          else if (c =? 116)%N then
            option_map (fun r => (VBool true, r)) (strip_prefix (str "true") s)
          else if (c =? 102)%N then
            option_map (fun r => (VBool false, r)) (strip_prefix (str "false") s)
          else if (c =? 34)%N then
            option_map (fun p => (VStr (fst p), snd p)) (parse_string s')
          else if (c =? 91)%N then
            if is_prefix (str "]") (skip_ws s')
            then Some (VArr [], skipn 1 (skip_ws s'))
            else option_map (fun p => (VArr (fst p), snd p))
                            (parse_elements fuel' (skip_ws s'))
          else if (c =? 123)%N then
            if is_prefix (str "}") (skip_ws s')
            then Some (VObj [], skipn 1 (skip_ws s'))
            else option_map (fun p => (VObj (from_entries (fst p)), snd p))
                            (parse_members fuel' (skip_ws s'))
          else
            option_map (fun p => (VNum (fst p), snd p)) (parse_number s)
      end
  end

with parse_elements (fuel : nat) (s : jsstring)
  : option (list value * jsstring) :=
  match fuel with
  | O => None
  | S fuel' =>
      match parse_value fuel' s with
      | None => None
      | Some (v, r) =>
          match skip_ws r with
          | 44%N :: r' =>
              option_map (fun p => (v :: fst p, snd p))
                         (parse_elements fuel' (skip_ws r'))
          | 93%N :: r' => Some ([v], r')
          | _ => None
          end
      end
  end

with parse_members (fuel : nat) (s : jsstring)
  : option (list (jsstring * value) * jsstring) :=
  match fuel with
  | O => None
  | S fuel' =>
      match s with
      | 34%N :: s' =>
          match parse_string s' with
          | None => None
          | Some (k, r) =>
              match skip_ws r with
              | 58%N :: r1 =>
                  match parse_value fuel' (skip_ws r1) with
                  | None => None
                  | Some (v, r2) =>
                      match skip_ws r2 with
                      | 44%N :: r3 =>
                          option_map (fun p => ((k, v) :: fst p, snd p))
                                     (parse_members fuel' (skip_ws r3))
                      | 125%N :: r3 => Some ([(k, v)], r3)
                      | _ => None
                      end
                  end
              | _ => None
              end
          end
      | _ => None
      end
  end.

(** [JSON.parse(text)]; [None] stands for the thrown [SyntaxError]. *)
Definition JSON_parse (text : jsstring) : option value :=
  match parse_value (2 * List.length text + 2) (skip_ws text) with
  | Some (v, rest) =>
      match skip_ws rest with
      | [] => Some v
      | _ => None
      end
  | None => None
  end.

(* ================================================================== *)
(** * Regular expressions *)
(* ================================================================== *)

(** The fragment of the regular expression syntax that
    [REGEXP_SERIALIZED_QUERY] is written in, matched by backtracking as
    the language defines it: greedy quantifiers, captures, anchors. *)
Inductive regex : Type :=
| RBegin                          (* ^ *)
| REnd                            (* $ *)
| RChar (c : N)                   (* a literal character *)
| RStar (p : N -> bool)           (* class*, greedy *)
| RPlus (p : N -> bool)           (* class+, greedy *)
| RSeq (r1 r2 : regex)
| ROpt (r : regex)                (* (?: r )?, greedy *)
| RGroup (i : nat) (r : regex).   (* capturing group number i *)

Definition captures : Type := list (nat * jsstring).

Fixpoint capture (i : nat) (caps : captures) : option jsstring :=
  match caps with
  | [] => None
  | (j, s) :: caps' => if Nat.eqb i j then Some s else capture i caps'
  end.

Definition substring (from to : nat) (s : jsstring) : jsstring :=
  firstn (to - from) (skipn from s).

(** Greedy repetition of a class over the suffix [s] that starts at
    [pos]: the longest run first, then shorter ones. *)
Fixpoint star_class (p : N -> bool) (k : nat -> option captures)
         (s : jsstring) (pos : nat) : option captures :=
  match s with
  | c :: s' =>
      if p c then
        match star_class p k s' (S pos) with
        | Some r => Some r
        | None => k pos
        end
      else k pos
  | [] => k pos
  end.

Fixpoint rmatch (r : regex) (input : jsstring) (pos : nat) (caps : captures)
         (k : nat -> captures -> option captures) : option captures :=
  match r with
  | RBegin => if Nat.eqb pos 0 then k pos caps else None
  | REnd => if Nat.eqb pos (List.length input) then k pos caps else None
  | RChar c =>
      match skipn pos input with
      | c' :: _ => if N.eqb c c' then k (S pos) caps else None
      | [] => None
      end
  | RStar p => star_class p (fun pos' => k pos' caps) (skipn pos input) pos
  | RPlus p =>
      match skipn pos input with
      | c :: s' =>
          if p c then star_class p (fun pos' => k pos' caps) s' (S pos)
          else None
      | [] => None
      end
  | RSeq r1 r2 =>
      rmatch r1 input pos caps (fun pos' caps' => rmatch r2 input pos' caps' k)
  | ROpt r1 =>
      match rmatch r1 input pos caps k with
      | Some res => Some res
      | None => k pos caps
      end
  | RGroup i r1 =>
      rmatch r1 input pos caps
             (fun pos' caps' => k pos' ((i, substring pos pos' input) :: caps'))
  end.

Fixpoint first_match (r : regex) (input : jsstring) (starts : list nat)
  : option captures :=
  match starts with
  | [] => None
  | i :: starts' =>
      match rmatch r input i [] (fun _ caps => Some caps) with
      | Some caps => Some caps
      | None => first_match r input starts'
      end
  end.

(** [input.match(r)] for a regular expression without flags: the captures
    of the first match, trying the start positions from the left. *)
Definition regex_match (r : regex) (input : jsstring) : option captures :=
  first_match r input (seq 0 (S (List.length input))).

(* ================================================================== *)
(** * lodash *)
(* ================================================================== *)

(** [_.isLength]. *)
Definition isLength (v : value) : option Z :=
  match v with
  | VNum (Fin u) =>
      match safe_integer u with
      | Some z => if (0 <=? z)%Z then Some z else None
      | None => None
      end
  | _ => None
  end.

(** The entries a lodash collection function ([_.map], [_.some],
    [_.every], [_.filter]) hands to its iteratee, as pairs of the key and
    the element: the indices of an array-like value (an array, a string, an
    object with a valid [length]), the own keys of any other object. *)
Definition collection_entries (v : value) : list (value * value) :=
  match v with
  | VArr l => map (fun p => (VNum (Int (fst p)), snd p)) (indexed_from 0 l)
  | VStr s => map (fun p => (VNum (Int (fst p)), snd p)) (indexed_from 0 (chars s))
  | VObj o =>
      match lookup (str "length") o with
      | Some len =>
          match isLength len with
          | Some n =>
              map (fun i => (VNum (Int (Z.of_nat i)), prop (decimal (Z.of_nat i)) o))
                  (seq 0 (Z.to_nat n))
          | None => map (fun kv => (VStr (fst kv), snd kv)) o
          end
      | None => map (fun kv => (VStr (fst kv), snd kv)) o
      end
  | _ => []
  end.

(** [_.every] and [_.some] stop at the first element that decides. *)
Fixpoint every_entries (f : value -> value -> result value)
         (l : list (value * value)) : result bool :=
  match l with
  | [] => Ret true
  | (k, x) :: l' =>
      b <- f x k ;;
      if truthy b then every_entries f l' else Ret false
  end.

Fixpoint some_entries (f : value -> value -> result value)
         (l : list (value * value)) : result bool :=
  match l with
  | [] => Ret false
  | (k, x) :: l' =>
      b <- f x k ;;
      if truthy b then Ret true else some_entries f l'
  end.

Definition every (c : value) (f : value -> value -> result value) : result bool :=
  every_entries f (collection_entries c).

Definition some (c : value) (f : value -> value -> result value) : result bool :=
  some_entries f (collection_entries c).

Fixpoint filter_entries (f : value -> value -> result value)
         (l : list (value * value)) : result (list value) :=
  match l with
  | [] => Ret []
  | (k, x) :: l' =>
      b <- f x k ;;
      rest <- filter_entries f l' ;;
      Ret (if truthy b then x :: rest else rest)
  end.

(** [_.filter]. *)
Definition lodash_filter (c : value) (f : value -> value -> result value)
  : result value :=
  l <- filter_entries f (collection_entries c) ;; Ret (VArr l).

(** [_.map] with an iteratee that cannot throw. *)
Definition lodash_map (c : value) (f : value -> value -> value) : value :=
  VArr (map (fun p => f (snd p) (fst p)) (collection_entries c)).

(** The predicate of [_.some(collection, { key: target })] for a
    primitive [target]: the [matches] shorthand compares the property
    strictly, and no element, [null] included, makes it throw. *)
Definition matches_property (key : jsstring) (target x : value) : bool :=
  match get_prop x key with
  | Ret y => strict_eq y target
  | Throw _ => false
  end.

(** lodash's [toString]. *)
Fixpoint baseToString (v : value) : jsstring :=
  match v with
  | VStr s => s
  | VArr l => join (str ",") (map baseToString l)
  | _ => to_string v
  end.

Definition lodash_toString (v : value) : jsstring :=
  match v with
  | VUndef | VNull => []
  | _ => baseToString v
  end.


(** [_.includes(string, target)] on strings. *)
Definition includes (s target : jsstring) : bool := is_substring target s.

Definition is_deep_key (k : jsstring) : bool :=
  existsb (fun c => N.eqb c 46 || N.eqb c 91)%N k.

(** [_.omit(object, key)] for a key that is a plain property name. *)
Definition omit (v : value) (k : jsstring) : object :=
  from_entries (filter (fun kv => negb (str_eqb (fst kv) k)) (own_entries v)).

(** [_.omitBy(object, predicate)]. *)
Definition omitBy (v : value) (pred : value -> jsstring -> bool) : object :=
  from_entries (filter (fun kv => negb (pred (snd kv) (fst kv))) (own_entries v)).

(* ================================================================== *)
(** * The module *)
(* ================================================================== *)

Section Utils.

(** [DEFAULT_THEME_QUERY], imported from [./constants], whose source is
    not part of the development: the default query is a parameter. *)
Variable DEFAULT_THEME_QUERY : object.

(** [String.prototype.toLowerCase], a map over the Unicode character
    database, is a parameter. *)
Variable toLowerCase : jsstring -> jsstring.

(** The path lodash's [castPath] parses out of a key that holds a dot or a
    bracket and is not itself a property of the object. *)
Variable stringToPath : jsstring -> list jsstring.

Definition castPath (k : jsstring) (o : value) : list jsstring :=
  if negb (is_deep_key k) || has_key k (own_entries o) then [k]
  else stringToPath k.

Fixpoint baseGet (o : value) (path : list jsstring) : value :=
  match path with
  | [] => o
  | k :: path' =>
      match get_prop o k with
      | Ret x => baseGet x path'
      | Throw _ => VUndef
      end
  end.

(** [_.get(object, key, defaultValue)]. *)
Definition get (o : value) (k : jsstring) (default : value) : value :=
  let r := match o, castPath k o with
           | VUndef, _ | VNull, _ | _, [] => VUndef
           | _, path => baseGet o path
           end in
  match r with
  | VUndef => default
  | _ => r
  end.

(** [_.mapKeys(object, iteratee)]. *)
Definition mapKeys (v : value) (f : value -> jsstring -> value) : object :=
  fold_left (fun acc kv => obj_set (to_string (f (snd kv) (fst kv))) (snd kv) acc)
            (own_entries v) [].

(** The regular expression of the source: an optional group made of
    capture 1, one or more digits, and a colon; then capture 2, any run of
    characters other than line terminators; anchored at both ends. *)
Definition REGEXP_SERIALIZED_QUERY : regex :=
  RSeq RBegin
       (RSeq (ROpt (RSeq (RGroup 1 (RPlus is_digit)) (RChar 58)))
             (RSeq (RGroup 2 (RStar (fun c => negb (is_line_terminator c))))
                   REnd)).

Definition SEARCH_TAXONOMIES : value := VArr [VStr (str "feature")].


Definition normalizeJetpackTheme (theme : value) : result value :=
  let theme := match theme with VUndef => VObj [] | _ => theme end in
  tags <- get_prop theme (str "tags") ;;
  if negb (truthy tags) then Ret theme
  else
    Ret (VObj (obj_set (str "taxonomies")
                 (VObj [(str "theme_feature",
                         lodash_map tags (fun slug _ => VObj [(str "slug", slug)]))])
                 (from_entries (omit theme (str "tags"))))).

Definition normalizeWpcomTheme (theme : value) : value :=
  let attributesMap :=
    VObj [(str "description_long", VStr (str "descriptionLong"));
          (str "support_documentation", VStr (str "supportDocumentation"));
          (str "download_uri", VStr (str "download"))] in
  VObj (mapKeys theme (fun _ key => get attributesMap key (VStr key))).

Definition normalizeWporgTheme (theme : value) : value :=
  let attributesMap :=
    VObj [(str "slug", VStr (str "id"));
          (str "preview_url", VStr (str "demo_uri"));
          (str "screenshot_url", VStr (str "screenshot"));
          (str "download_link", VStr (str "download"))] in
  let normalizedTheme := mapKeys theme (fun _ key => get attributesMap key (VStr key)) in
  let tags := prop (str "tags") normalizedTheme in
  if negb (truthy tags) then VObj normalizedTheme
  else
    VObj (obj_set (str "taxonomies")
            (VObj [(str "theme_feature",
                    lodash_map tags (fun name slug =>
                                       VObj [(str "name", name); (str "slug", slug)]))])
            (from_entries (omit (VObj normalizedTheme) (str "tags")))).

Definition getNormalizedThemesQuery (query : value) : value :=
  VObj (omitBy query (fun value key =>
                        strict_eq (prop key DEFAULT_THEME_QUERY) value)).

Definition getSerializedThemesQuery (query siteId : value) : value :=
  let query := match query with VUndef => VObj [] | _ => query end in
  let normalizedQuery := getNormalizedThemesQuery query in
  let serializedQuery := JSON_stringify normalizedQuery in
  if truthy siteId then VStr (array_join (str ":") [siteId; serializedQuery])
  else serializedQuery.

(** [Number(c)] for a capture [c] of a digit run: [undefined] converts to
    [NaN], a run of digits to the nearest number. *)
Definition Number_of_capture (c : option jsstring) : number :=
  match c with
  | None => NaN
  | Some ds =>
      if forallb is_digit ds && negb (str_eqb ds [])
      then round_to_double (digits_value ds) 1
      else NaN
  end.

Record details : Type := { siteId : value; query : value }.

Definition getDeserializedThemesQueryDetails (serializedQuery : jsstring) : details :=
  match regex_match REGEXP_SERIALIZED_QUERY serializedQuery with
  | Some matches =>
      let siteId :=
        let n := VNum (Number_of_capture (capture 1 matches)) in
        if truthy n then n else VUndef in
      let query :=
        match capture 2 matches with
        | Some text =>
            match JSON_parse text with
            | Some x => x
            | None => VUndef
            end
        | None => VUndef
        end in
      {| siteId := siteId; query := query |}
  | None => {| siteId := VUndef; query := VUndef |}
  end.

Definition getSerializedThemesQueryWithoutPage (query siteId : value) : value :=
  getSerializedThemesQuery (VObj (omit query (str "page"))) siteId.


(** [v.toLowerCase()]: only a string has the method. *)
Definition call_toLowerCase (v : value) : result jsstring :=
  match v with
  | VStr s => Ret (toLowerCase s)
  | _ => Throw TypeError
  end.

(** [v.split( ',' )]. *)
Definition call_split_comma (v : value) : result value :=
  match v with
  | VStr s => Ret (VArr (map VStr (split_on 44 s)))
  | _ => Throw TypeError
  end.

(** [field && includes( field.toLowerCase(), search )]. *)
Definition field_includes (field : value) (search : jsstring) : result value :=
  js_and field (lower <- call_toLowerCase field ;;
                Ret (VBool (includes lower search))).

(** The [search] case of the switch. *)
Definition search_clause (theme val : value) : result value :=
  if negb (truthy val) then Ret (VBool true)
  else
    search <- call_toLowerCase val ;;
    foundInTaxonomies <-
      some SEARCH_TAXONOMIES (fun taxonomy _ =>
        taxonomies <- get_prop theme (str "taxonomies") ;;
        js_and taxonomies
          (terms <- get_prop taxonomies (str "theme_" ++ to_string taxonomy) ;;
           found <- some terms (fun term _ =>
                      name <- get_prop term (str "name") ;;
                      field_includes name search) ;;
           Ret (VBool found))) ;;
    js_or (VBool foundInTaxonomies)
      (name <- get_prop theme (str "name") ;;
       byName <- field_includes name search ;;
       js_or byName
         (author <- get_prop theme (str "author") ;;
          byAuthor <- field_includes author search ;;
          js_or byAuthor
            (descriptionLong <- get_prop theme (str "descriptionLong") ;;
             field_includes descriptionLong search))).

(** The [filter] case of the switch. *)
Definition filter_clause (theme val : value) : result value :=
  if negb (truthy val) then Ret (VBool true)
  else
    filters <- call_split_comma val ;;
    r <- every filters (fun f _ =>
           taxonomies <- get_prop theme (str "taxonomies") ;;
           found <- some taxonomies (fun terms _ =>
                      found <- some terms (fun term _ =>
                                 Ret (VBool (matches_property (str "slug") f term))) ;;
                      Ret (VBool found)) ;;
           Ret (VBool found)) ;;
    Ret (VBool r).

(** The iteratee of [every] in [isThemeMatchingQuery]. *)
Definition matching_clause (theme val key : value) : result value :=
  if strict_eq key (VStr (str "search")) then search_clause theme val
  else if strict_eq key (VStr (str "filter")) then filter_clause theme val
  else Ret (VBool true).

Definition isThemeMatchingQuery (query theme : value) : result bool :=
  let queryWithDefaults := VObj (assign DEFAULT_THEME_QUERY (own_entries query)) in
  every queryWithDefaults (matching_clause theme).

Definition filterThemesForJetpack (themes query : value) : result value :=
  lodash_filter themes (fun theme _ =>
                          b <- isThemeMatchingQuery query theme ;; Ret (VBool b)).

End Utils.

(* ================================================================== *)
(** * Vocabulary of the properties *)
(* ================================================================== *)

(** Concrete parameters for the examples: the default query that the
    specification gives as an example, lower-casing on Basic Latin, and a
    path parser that leaves a key whole. *)
Definition example_defaults : object :=
  [(str "search", VStr []); (str "filter", VStr [])].

Definition basic_latin_toLowerCase (s : jsstring) : jsstring :=
  map (fun c => if (N.leb 65 c && N.leb c 90)%N then (c + 32)%N else c) s.

Definition whole_key_path (k : jsstring) : list jsstring := [k].

(** ** Property order

    [key_lt a b]: the distinct keys [a] and [b] may appear in this order
    among the properties of an object.  An object is well formed when its
    keys are pairwise so ordered: then they are distinct and stand in the
    order in which JavaScript enumerates them. *)

Definition key_lt (a b : jsstring) : bool :=
  match array_index a, array_index b with
  | Some i, Some j => (i <? j)%Z
  | Some _, None => true
  | None, Some _ => false
  | None, None => negb (str_eqb a b)
  end.

Fixpoint wf_keys (ks : list jsstring) : bool :=
  match ks with
  | [] => true
  | k :: ks' => forallb (key_lt k) ks' && wf_keys ks'
  end.

Definition wf_object (o : object) : bool := wf_keys (keys o).


(** ** Shapes of the inputs *)

(** An object is iterated by its keys unless its [length] makes it
    array-like. *)
Definition plain_collection (o : object) : Prop :=
  forall len, lookup (str "length") o = Some len -> isLength len = None.

(** The renaming of the WordPress.org normalizer, as the specification
    words it: four keys change, every other key stays. *)
Definition wporg_key (k : jsstring) : jsstring :=
  if str_eqb k (str "slug") then str "id"
  else if str_eqb k (str "preview_url") then str "demo_uri"
  else if str_eqb k (str "screenshot_url") then str "screenshot"
  else if str_eqb k (str "download_link") then str "download"
  else k.

(** The elements a lodash collection function visits. *)
Definition elements (v : value) : list value := map snd (collection_entries v).

Definition optional_string (v : value) : Prop :=
  v = VUndef \/ exists s, v = VStr s.

(** [terms] is what [theme.taxonomies.theme_feature] holds for the theme
    object [t]: a sequence, or nothing when [taxonomies] or
    [theme_feature] is missing. *)
Definition feature_terms (t : object) (terms : list value) : Prop :=
  (prop (str "taxonomies") t = VUndef /\ terms = []) \/
  exists taxo,
    prop (str "taxonomies") t = VObj taxo /\
    ((prop (str "theme_feature") taxo = VUndef /\ terms = []) \/
     prop (str "theme_feature") taxo = VArr terms).

(** The shape the search clause expects of a theme object: optional
    strings for the three text fields and for the name of each term of the
    feature taxonomy, no term being [null] or [undefined]. *)
Definition searchable_theme (t : object) (terms : list value) : Prop :=
  optional_string (prop (str "name") t) /\
  optional_string (prop (str "author") t) /\
  optional_string (prop (str "descriptionLong") t) /\
  feature_terms t terms /\
  forall term, In term terms ->
               exists n, get_prop term (str "name") = Ret n /\ optional_string n.

(** The theme of the matching examples: its only term is [blue], named
    [Blue], in the feature taxonomy. *)
Definition blue_theme : value :=
  VObj [(str "taxonomies",
         VObj [(str "theme_feature",
                VArr [VObj [(str "slug", VStr (str "blue"));
                            (str "name", VStr (str "Blue"))]])])].

(** Whether a field takes part in a search match: a non-empty string
    whose lower-cased form contains the (lower-cased) search term. *)
Definition field_matches (toLowerCase : jsstring -> jsstring)
           (search : jsstring) (v : value) : bool :=
  match v with
  | VStr (c :: s) => is_substring search (toLowerCase (c :: s))
  | _ => false
  end.

Definition term_matches (toLowerCase : jsstring -> jsstring)
           (search : jsstring) (term : value) : bool :=
  match get_prop term (str "name") with
  | Ret n => field_matches toLowerCase search n
  | Throw _ => false
  end.

(** What the regular expression of serialized queries does, in words: it
    matches exactly the strings without a line terminator; capture 1 is
    the leading run of digits when there is one and a colon follows it,
    and capture 2 is what comes after that colon, or else the whole
    string. *)
Definition split_serialized (s : jsstring) : option (option jsstring * jsstring) :=
  if existsb is_line_terminator s then None
  else match span_digits s with
       | (c :: d, colon :: rest) =>
           if N.eqb 58 colon then Some (Some (c :: d), rest) else Some (None, s)
       | _ => Some (None, s)
       end.

(** ** Values that survive JSON

    A string travels through a serialized key when it holds neither of
    the two line separators that [JSON.stringify] leaves unescaped (the
    regular expression of the key stops at them).  A value is
    JSON-representable when it is [null], a boolean, such a string, an
    integer of magnitude below [2^53], or an array or a well-formed object
    of representable values, with such strings for keys. *)

Definition key_safe (s : jsstring) : bool :=
  negb (existsb (fun c => N.eqb c 8232 || N.eqb c 8233)%N s).

Fixpoint json_safe (v : value) : bool :=
  match v with
  | VUndef => false
  | VNull => true
  | VBool _ => true
  | VNum (Fin u) => match safe_integer u with Some _ => true | None => false end
  | VNum _ => false
  | VStr s => key_safe s
  | VArr l => forallb json_safe l
  | VObj o =>
      wf_object o &&
      (fix members (o : object) : bool :=
         match o with
         | [] => true
         | (k, x) :: o' => key_safe k && json_safe x && members o'
         end) o
  end.

(** The number of nodes of a value, which bounds the depth of the calls
    that parse its text. *)
Fixpoint size (v : value) : nat :=
  match v with
  | VArr l => S (fold_right (fun x n => size x + n) 0 l)
  | VObj o =>
      S ((fix members (o : object) : nat :=
            match o with
            | [] => 0
            | (_, x) :: o' => size x + members o'
            end) o)
  | _ => 1
  end.

(** What may follow a value inside a JSON text: the end, a comma, or a
    closing bracket or brace. *)
Definition delimited (rest : jsstring) : Prop :=
  match rest with
  | [] => True
  | c :: _ => c = 44%N \/ c = 93%N \/ c = 125%N
  end.

(** The first character of the text of a value. *)
Definition value_start (c : N) : bool :=
  (N.eqb c 110 || N.eqb c 116 || N.eqb c 102 || N.eqb c 34 || N.eqb c 91 ||
   N.eqb c 123 || N.eqb c 45 || is_digit c)%N.

(** The text [JSON.stringify] writes for an element of an array and for
    the members of an object. *)
Definition element_text (x : value) : jsstring :=
  match stringify x with
  | Some t => t
  | None => str "null"
  end.

Fixpoint member_texts (o : object) : list jsstring :=
  match o with
  | [] => []
  | (k, x) :: o' =>
      match stringify x with
      | Some t => (quote k ++ str ":" ++ t) :: member_texts o'
      | None => member_texts o'
      end
  end.

Definition sizes (l : list value) : nat := fold_right (fun x n => size x + n) 0 l.

Fixpoint member_sizes (o : object) : nat :=
  match o with
  | [] => 0
  | (_, x) :: o' => size x + member_sizes o'
  end.

Fixpoint members_safe (o : object) : bool :=
  match o with
  | [] => true
  | (k, x) :: o' => key_safe k && json_safe x && members_safe o'
  end.

(** The round trip of one value: its text, followed by anything that may
    follow a value, parses back to it with fuel for twice its size. *)
Definition parses_back (v : value) : Prop :=
  json_safe v = true ->
  forall (fuel : nat) (rest : jsstring),
    2 * size v <= fuel -> delimited rest ->
    parse_value fuel (element_text v ++ rest) = Some (v, rest).

(* ================================================================== *)
(** * The rest of the module *)
(* ================================================================== *)

(** [_.split(string, separator, limit)] for a one-unit separator and a
    positive limit: the string form of the value is split by
    [String.prototype.split], which keeps the first [limit] pieces. *)
Definition lodash_split (v : value) (sep : N) (limit : nat) : list value :=
  map VStr (firstn limit (split_on sep (lodash_toString v))).

(** The array pattern [[ , slug ]] reads the element of index 1, which is
    [undefined] when the array is shorter. *)
Definition getThemeIdFromStylesheet (stylesheet : value) : value :=
  let slug := nth 1 (lodash_split stylesheet 47 2) VUndef in
  if negb (truthy slug) then stylesheet else slug.

(** A string without the separator [/]. *)
Definition no_slash (s : jsstring) : bool := negb (existsb (fun c => N.eqb c 47) s).

(** The key under which [normalizeWpcomTheme] stores the field [k]. *)
Definition wpcom_key (k : jsstring) : jsstring :=
  if str_eqb k (str "description_long") then str "descriptionLong"
  else if str_eqb k (str "support_documentation") then str "supportDocumentation"
  else if str_eqb k (str "download_uri") then str "download"
  else k.
(* ================================================================== *)
(** * Properties: strings and objects *)
(* ================================================================== *)

Lemma str_eqb_eq (a b : jsstring) : str_eqb a b = true <-> a = b.
Proof.
  revert b; induction a as [|x a IH]; intros [|y b]; simpl;
    try (split; [discriminate | discriminate]); try tauto.
  rewrite andb_true_iff, N.eqb_eq, IH.
  split; [intros [-> ->]; reflexivity | intros H; inversion H; auto].
Qed.

Lemma str_eqb_refl (a : jsstring) : str_eqb a a = true.
Proof. apply str_eqb_eq; reflexivity. Qed.

Lemma str_eqb_neq (a b : jsstring) : str_eqb a b = false <-> a <> b.
Proof.
  rewrite <- str_eqb_eq. destruct (str_eqb a b); split; congruence.
Qed.

Lemma str_eqb_sym (a b : jsstring) : str_eqb a b = str_eqb b a.
Proof.
  destruct (str_eqb a b) eqn:E.
  - apply str_eqb_eq in E; subst; symmetry; apply str_eqb_refl.
  - symmetry; apply str_eqb_neq. apply str_eqb_neq in E. congruence.
Qed.

Lemma lookup_None_iff (k : jsstring) (o : object) :
  lookup k o = None <-> ~ In k (keys o).
Proof.
  induction o as [|[k' v] o IH]; simpl.
  - tauto.
  - destruct (str_eqb k k') eqn:E.
    + apply str_eqb_eq in E; subst. split; [discriminate | tauto].
    + apply str_eqb_neq in E. rewrite IH. split; [intros H [H1|H1]; auto | tauto].
Qed.

Lemma lookup_In (k : jsstring) (v : value) (o : object) :
  NoDup (keys o) -> In (k, v) o -> lookup k o = Some v.
Proof.
  induction o as [|[k' v'] o IH]; simpl; [tauto|].
  intros Hnd [H|H].
  - inversion H; subst. now rewrite str_eqb_refl.
  - inversion Hnd as [|? ? Hnotin Hnd']; subst.
    destruct (str_eqb k k') eqn:E.
    + apply str_eqb_eq in E; subst. exfalso; apply Hnotin.
      change k' with (fst (k', v)). now apply in_map.
    + auto.
Qed.

Lemma lookup_Some_In (k : jsstring) (v : value) (o : object) :
  lookup k o = Some v -> In (k, v) o.
Proof.
  induction o as [|[k' v'] o IH]; simpl; [discriminate|].
  destruct (str_eqb k k') eqn:E.
  - apply str_eqb_eq in E; subst. intros H; inversion H; auto.
  - auto.
Qed.

Lemma lookup_replace_value (k k' : jsstring) (v : value) (o : object) :
  lookup k (replace_value k' v o) =
  if str_eqb k k' then (if has_key k' o then Some v else None) else lookup k o.
Proof.
  unfold has_key.
  induction o as [|[k0 v0] o IH]; simpl.
  - now destruct (str_eqb k k').
  - destruct (str_eqb k' k0) eqn:E0; simpl.
    + apply str_eqb_eq in E0; subst k0.
      now destruct (str_eqb k k').
    + destruct (str_eqb k k0) eqn:E1.
      * apply str_eqb_eq in E1; subst k0.
        rewrite str_eqb_sym in E0. now rewrite E0.
      * apply IH.
Qed.

Lemma lookup_insert_index (k k' : jsstring) (i : Z) (v : value) (o : object) :
  lookup k' o = None ->
  lookup k (insert_index i k' v o) = if str_eqb k k' then Some v else lookup k o.
Proof.
  induction o as [|[k0 v0] o IH]; simpl; intros Hno.
  - reflexivity.
  - destruct (str_eqb k' k0) eqn:E0; [discriminate|].
    destruct (array_index k0) as [i'|]; [destruct (i' <? i)%Z|]; simpl;
      try reflexivity.
    destruct (str_eqb k k0) eqn:E1.
    + apply str_eqb_eq in E1; subst k0.
      rewrite str_eqb_sym in E0. now rewrite E0.
    + now apply IH.
Qed.

Lemma lookup_app (k : jsstring) (a b : object) :
  lookup k (a ++ b) = match lookup k a with Some v => Some v | None => lookup k b end.
Proof.
  induction a as [|[k0 v0] a IH]; simpl; [reflexivity|].
  now destruct (str_eqb k k0).
Qed.

Lemma lookup_obj_set (k k' : jsstring) (v : value) (o : object) :
  lookup k (obj_set k' v o) = if str_eqb k k' then Some v else lookup k o.
Proof.
  unfold obj_set. destruct (has_key k' o) eqn:Hk.
  - rewrite lookup_replace_value, Hk. reflexivity.
  - assert (Hno : lookup k' o = None).
    { unfold has_key in Hk. destruct (lookup k' o); [discriminate | reflexivity]. }
    destruct (array_index k').
    + now apply lookup_insert_index.
    + rewrite lookup_app. simpl.
      destruct (str_eqb k k') eqn:E.
      * apply str_eqb_eq in E; subst. now rewrite Hno.
      * now destruct (lookup k o).
Qed.

Lemma lookup_assign (k : jsstring) (a b : object) :
  NoDup (keys b) ->
  lookup k (assign a b) =
  match lookup k b with Some v => Some v | None => lookup k a end.
Proof.
  unfold assign. revert a.
  induction b as [|[k0 v0] b IH]; simpl; intros a Hnd; [reflexivity|].
  inversion Hnd as [|? ? Hnotin Hnd']; subst.
  rewrite IH by assumption. rewrite lookup_obj_set.
  destruct (str_eqb k k0) eqn:E.
  - apply str_eqb_eq in E; subst.
    apply lookup_None_iff in Hnotin. now rewrite Hnotin.
  - reflexivity.
Qed.

Lemma lookup_from_entries (k : jsstring) (l : object) :
  NoDup (keys l) -> lookup k (from_entries l) = lookup k l.
Proof.
  intros Hnd. unfold from_entries. rewrite lookup_assign by assumption.
  simpl. now destruct (lookup k l).
Qed.

Lemma keys_filter_incl (f : jsstring * value -> bool) (o : object) (k : jsstring) :
  In k (keys (filter f o)) -> In k (keys o).
Proof.
  unfold keys. rewrite !in_map_iff. intros [x [Hx Hin]].
  apply filter_In in Hin. exists x; tauto.
Qed.

Lemma NoDup_keys_filter (f : jsstring * value -> bool) (o : object) :
  NoDup (keys o) -> NoDup (keys (filter f o)).
Proof.
  induction o as [|[k v] o IH]; simpl; intros Hnd; [constructor|].
  inversion Hnd as [|? ? Hnotin Hnd']; subst.
  destruct (f (k, v)); simpl; auto.
  constructor; auto. intros Hin. apply Hnotin. eapply keys_filter_incl; eauto.
Qed.

Lemma lookup_filter (f : jsstring * value -> bool) (k : jsstring) (o : object) :
  NoDup (keys o) ->
  lookup k (filter f o) =
  match lookup k o with
  | Some v => if f (k, v) then Some v else None
  | None => None
  end.
Proof.
  induction o as [|[k0 v0] o IH]; simpl; intros Hnd; [reflexivity|].
  inversion Hnd as [|? ? Hnotin Hnd']; subst.
  destruct (str_eqb k k0) eqn:E.
  - apply str_eqb_eq in E; subst k0.
    destruct (f (k, v0)); simpl.
    + now rewrite str_eqb_refl.
    + apply lookup_None_iff. intros Hin. apply Hnotin.
      eapply keys_filter_incl; eauto.
  - destruct (f (k0, v0)); simpl; [rewrite E|]; now apply IH.
Qed.

(** ** Property order *)

Lemma array_index_decimal (k : jsstring) (i : Z) :
  array_index k = Some i -> k = decimal i.
Proof.
  unfold array_index.
  destruct (forallb is_digit k && negb (str_eqb k [])); [|discriminate].
  destruct (str_eqb (decimal (digits_value k)) k) eqn:E;
    [rewrite andb_true_l | rewrite andb_false_l; discriminate].
  destruct (digits_value k <? 2 ^ 32 - 1)%Z; [|discriminate].
  intros H; inversion H; subst. apply str_eqb_eq in E. congruence.
Qed.

Lemma key_lt_neq (a b : jsstring) : key_lt a b = true -> a <> b.
Proof.
  unfold key_lt. intros H ->.
  destruct (array_index b).
  - apply Z.ltb_lt in H. lia.
  - rewrite str_eqb_refl in H. discriminate.
Qed.

Lemma wf_keys_NoDup (ks : list jsstring) : wf_keys ks = true -> NoDup ks.
Proof.
  induction ks as [|k ks IH]; simpl; [constructor|].
  rewrite andb_true_iff. intros [Hall Hwf].
  constructor; auto.
  intros Hin. rewrite forallb_forall in Hall.
  apply (key_lt_neq k k); auto.
Qed.

Lemma wf_object_NoDup (o : object) : wf_object o = true -> NoDup (keys o).
Proof. apply wf_keys_NoDup. Qed.

Lemma wf_keys_app (a b : list jsstring) :
  wf_keys (a ++ b) = true <->
  wf_keys a = true /\ wf_keys b = true /\
  (forall x y, In x a -> In y b -> key_lt x y = true).
Proof.
  induction a as [|k a IH]; simpl.
  - intuition.
  - rewrite !andb_true_iff, forallb_app, andb_true_iff, IH, !forallb_forall.
    split.
    + intros [[H1 H2] [H3 [H4 H5]]]. repeat split; auto.
      intros x y [->|Hx] Hy; auto.
    + intros [[H1 H2] [H3 H4]]. repeat split; auto.
Qed.

Lemma keys_app (a b : object) : keys (a ++ b) = keys a ++ keys b.
Proof. apply map_app. Qed.

Lemma keys_replace_value (k : jsstring) (v : value) (o : object) :
  keys (replace_value k v o) = keys o.
Proof.
  induction o as [|[k0 v0] o IH]; simpl; [reflexivity|].
  destruct (str_eqb k k0); simpl; [reflexivity | now rewrite IH].
Qed.

Lemma has_key_false (k : jsstring) (o : object) :
  has_key k o = false <-> ~ In k (keys o).
Proof.
  unfold has_key. rewrite <- lookup_None_iff.
  destruct (lookup k o); split; congruence.
Qed.

Lemma has_key_true (k : jsstring) (o : object) :
  has_key k o = true <-> In k (keys o).
Proof.
  destruct (has_key k o) eqn:E.
  - split; [intros _|reflexivity].
    destruct (in_dec (list_eq_dec N.eq_dec) k (keys o)) as [H|H]; [assumption|].
    apply has_key_false in H. congruence.
  - apply has_key_false in E. split; [discriminate | tauto].
Qed.

(** A new key that may follow every key of the object goes last. *)
Lemma insert_index_last (i : Z) (k : jsstring) (v : value) (o : object) :
  array_index k = Some i ->
  (forall x, In x (keys o) -> key_lt x k = true) ->
  insert_index i k v o = o ++ [(k, v)].
Proof.
  intros Hk. induction o as [|[k0 v0] o IH]; simpl; intros Hlt; [reflexivity|].
  assert (H0 : key_lt k0 k = true) by (apply Hlt; auto).
  unfold key_lt in H0. rewrite Hk in H0.
  destruct (array_index k0) as [i0|]; [|discriminate].
  rewrite H0. f_equal. apply IH. intros x Hx. apply Hlt; auto.
Qed.

Lemma obj_set_last (k : jsstring) (v : value) (o : object) :
  (forall x, In x (keys o) -> key_lt x k = true) ->
  obj_set k v o = o ++ [(k, v)].
Proof.
  intros Hlt. unfold obj_set.
  assert (Hk : has_key k o = false).
  { apply has_key_false. intros Hin. apply (key_lt_neq k k); auto. }
  rewrite Hk. destruct (array_index k) eqn:E; [|reflexivity].
  now apply insert_index_last.
Qed.

(** Re-creating a well-formed object property by property gives it back. *)
Lemma from_entries_wf (o : object) : wf_object o = true -> from_entries o = o.
Proof.
  unfold from_entries, assign, wf_object.
  induction o as [|[k v] o IH] using rev_ind; intros Hwf; [reflexivity|].
  rewrite keys_app in Hwf. apply wf_keys_app in Hwf.
  destruct Hwf as [Hwf [_ Hlt]].
  rewrite fold_left_app. simpl. rewrite IH by assumption.
  apply obj_set_last. intros x Hx. apply Hlt; simpl; auto.
Qed.

Lemma keys_insert_index (i : Z) (k : jsstring) (v : value) (o : object) :
  exists a b, o = a ++ b /\ insert_index i k v o = a ++ (k, v) :: b /\
    (forall x, In x (keys a) ->
               exists i', array_index x = Some i' /\ (i' < i)%Z) /\
    match b with
    | [] => True
    | (k0, _) :: _ =>
        match array_index k0 with
        | Some i0 => (i <= i0)%Z
        | None => True
        end
    end.
Proof.
  induction o as [|[k0 v0] o IH]; simpl.
  - exists [], []. simpl. intuition.
  - destruct (array_index k0) as [i0|] eqn:E0.
    + destruct (i0 <? i)%Z eqn:Hlt.
      * destruct IH as [a [b [Ho [Hins [Ha Hb]]]]].
        exists ((k0, v0) :: a), b. simpl. rewrite Ho at 1. rewrite Hins.
        repeat split; auto.
        intros x [<-|Hx]; auto.
        exists i0. split; auto. now apply Z.ltb_lt.
      * exists [], ((k0, v0) :: o). simpl. rewrite E0.
        repeat split; auto; try tauto. apply Z.ltb_ge in Hlt. lia.
    + exists [], ((k0, v0) :: o). simpl. rewrite E0. repeat split; auto; tauto.
Qed.

Lemma wf_insert_index (i : Z) (k : jsstring) (v : value) (o : object) :
  array_index k = Some i -> ~ In k (keys o) ->
  wf_object o = true -> wf_object (insert_index i k v o) = true.
Proof.
  intros Hk Hnotin Hwf.
  destruct (keys_insert_index i k v o) as [a [b [Ho [Hins [Ha Hb]]]]].
  rewrite Hins. subst o. unfold wf_object in *.
  rewrite keys_app in *. simpl.
  apply wf_keys_app in Hwf. destruct Hwf as [Hwa [Hwb Hab]].
  assert (Hkb : forall y, In y (keys b) -> key_lt k y = true).
  { destruct b as [|[k0 v0] b]; simpl; [tauto|].
    simpl in Hwb. apply andb_true_iff in Hwb. destruct Hwb as [Hall _].
    rewrite forallb_forall in Hall.
    assert (H0 : key_lt k k0 = true).
    { unfold key_lt. rewrite Hk.
      destruct (array_index k0) as [i0|] eqn:E0; [|reflexivity].
      apply Z.ltb_lt.
      assert (i <> i0).
      { intros ->. apply Hnotin. apply in_or_app. right. simpl. left.
        apply array_index_decimal in Hk, E0. congruence. }
      lia. }
    intros y [<-|Hy]; [assumption|].
    specialize (Hall y Hy). unfold key_lt in *. rewrite Hk in *.
    destruct (array_index k0) as [i0|], (array_index y) as [j|];
      try reflexivity; try discriminate.
    apply Z.ltb_lt in H0, Hall. apply Z.ltb_lt. lia. }
  apply wf_keys_app. repeat split; auto.
  - simpl. apply andb_true_iff. split; [|assumption].
    apply forallb_forall. assumption.
  - intros x y Hx [<-|Hy].
    + destruct (Ha x Hx) as [i' [Hi' Hlt]].
      unfold key_lt. rewrite Hi', Hk. now apply Z.ltb_lt.
    + auto.
Qed.

Lemma wf_obj_set (k : jsstring) (v : value) (o : object) :
  wf_object o = true -> wf_object (obj_set k v o) = true.
Proof.
  intros Hwf. unfold obj_set.
  destruct (has_key k o) eqn:Hk.
  - unfold wf_object. now rewrite keys_replace_value.
  - apply has_key_false in Hk.
    destruct (array_index k) as [i|] eqn:E.
    + now apply wf_insert_index.
    + unfold wf_object. rewrite keys_app. apply wf_keys_app.
      repeat split; auto.
      intros x y Hx Hy. simpl in Hy. destruct Hy as [Hy|[]]. subst y.
      unfold key_lt. rewrite E.
      destruct (array_index x); [reflexivity|].
      apply negb_true_iff, str_eqb_neq. intros ->. contradiction.
Qed.

Lemma wf_assign (a b : object) :
  wf_object a = true -> wf_object (assign a b) = true.
Proof.
  unfold assign. revert a.
  induction b as [|[k v] b IH]; simpl; intros a Hwf; [assumption|].
  apply IH. now apply wf_obj_set.
Qed.

Lemma wf_from_entries (l : object) : wf_object (from_entries l) = true.
Proof. apply wf_assign. reflexivity. Qed.

Lemma from_entries_idem (l : object) :
  from_entries (from_entries l) = from_entries l.
Proof. apply from_entries_wf, wf_from_entries. Qed.

Lemma In_obj_set (x : jsstring * value) (k : jsstring) (v : value) (o : object) :
  In x (obj_set k v o) -> x = (k, v) \/ In x o.
Proof.
  unfold obj_set. destruct (has_key k o).
  - induction o as [|[k0 v0] o IH]; simpl; [tauto|].
    destruct (str_eqb k k0) eqn:E; simpl.
    + apply str_eqb_eq in E; subst. intuition.
    + intuition.
  - destruct (array_index k) as [i|].
    + destruct (keys_insert_index i k v o) as [a [b [Ho [Hins _]]]].
      rewrite Hins, Ho. rewrite !in_app_iff. simpl. intuition.
    + rewrite in_app_iff. simpl. intuition.
Qed.

Lemma In_assign (x : jsstring * value) (a b : object) :
  In x (assign a b) -> In x a \/ In x b.
Proof.
  unfold assign. revert a.
  induction b as [|[k v] b IH]; simpl; intros a H; [tauto|].
  apply IH in H. destruct H as [H|H]; [|tauto].
  apply In_obj_set in H. intuition.
Qed.

Lemma In_from_entries (x : jsstring * value) (l : object) :
  In x (from_entries l) -> In x l.
Proof. intros H. apply In_assign in H. simpl in H. tauto. Qed.

Lemma filter_all {A : Type} (f : A -> bool) (l : list A) :
  (forall x, In x l -> f x = true) -> filter f l = l.
Proof.
  induction l as [|x l IH]; simpl; intros H; [reflexivity|].
  rewrite (H x) by auto. f_equal. apply IH. auto.
Qed.

Lemma omitBy_idem (v : value) (pred : value -> jsstring -> bool) :
  omitBy (VObj (omitBy v pred)) pred = omitBy v pred.
Proof.
  unfold omitBy at 1. simpl own_entries.
  rewrite filter_all.
  - apply from_entries_idem.
  - intros x Hx. unfold omitBy in Hx. apply In_from_entries in Hx.
    apply filter_In in Hx. tauto.
Qed.

(** ** lodash on arrays and plain objects *)

Lemma map_indexed_from {A B : Type} (g : A -> B) (i : Z) (l : list A) :
  map (fun p => g (snd p)) (indexed_from i l) = map g l.
Proof.
  revert i; induction l as [|x l IH]; intros i; simpl; [reflexivity|].
  now rewrite IH.
Qed.

Lemma lodash_map_array (g : value -> value) (l : list value) :
  lodash_map (VArr l) (fun x _ => g x) = VArr (map g l).
Proof.
  unfold lodash_map. simpl. rewrite map_map. simpl.
  f_equal. apply (map_indexed_from g).
Qed.

Lemma collection_entries_plain (o : object) :
  plain_collection o ->
  collection_entries (VObj o) = map (fun kv => (VStr (fst kv), snd kv)) o.
Proof.
  unfold plain_collection. intros H. simpl.
  destruct (lookup (str "length") o) as [len|]; [|reflexivity].
  now rewrite (H len eq_refl).
Qed.

Lemma lookup_omit (k k' : jsstring) (o : object) :
  NoDup (keys o) ->
  lookup k (omit (VObj o) k') = if str_eqb k k' then None else lookup k o.
Proof.
  intros Hnd. unfold omit. simpl own_entries.
  rewrite lookup_from_entries by now apply NoDup_keys_filter.
  rewrite lookup_filter by assumption. simpl.
  destruct (str_eqb k k') eqn:E; simpl.
  - now destruct (lookup k o).
  - now destruct (lookup k o).
Qed.

Lemma wf_omit (v : value) (k : jsstring) : wf_object (omit v k) = true.
Proof. apply wf_from_entries. Qed.

(** ** Objects built by successive assignments *)

Section FoldSet.

Variable key_of : jsstring * value -> jsstring.

Let step (acc : object) (kv : jsstring * value) : object :=
  obj_set (key_of kv) (snd kv) acc.

Lemma wf_fold_obj_set (l acc : object) :
  wf_object acc = true -> wf_object (fold_left step l acc) = true.
Proof.
  revert acc; induction l as [|kv l IH]; simpl; intros acc H; [assumption|].
  apply IH. now apply wf_obj_set.
Qed.

Lemma lookup_fold_other (k' : jsstring) (l acc : object) :
  ~ In k' (map key_of l) ->
  lookup k' (fold_left step l acc) = lookup k' acc.
Proof.
  revert acc; induction l as [|kv l IH]; simpl; intros acc H; [reflexivity|].
  rewrite IH by tauto. unfold step. rewrite lookup_obj_set.
  destruct (str_eqb k' (key_of kv)) eqn:E; [|reflexivity].
  apply str_eqb_eq in E. subst. tauto.
Qed.

Lemma lookup_fold_entry (kv : jsstring * value) (l acc : object) :
  NoDup (map key_of l) -> In kv l ->
  lookup (key_of kv) (fold_left step l acc) = Some (snd kv).
Proof.
  revert acc; induction l as [|kv0 l IH]; simpl; intros acc Hnd Hin; [tauto|].
  inversion Hnd as [|? ? Hnotin Hnd']; subst.
  destruct Hin as [->|Hin].
  - rewrite lookup_fold_other by assumption.
    unfold step. rewrite lookup_obj_set. now rewrite str_eqb_refl.
  - now apply IH.
Qed.

End FoldSet.

Lemma fold_left_ext_in {A B : Type} (f g : A -> B -> A) (l : list B) (a : A) :
  (forall acc x, In x l -> f acc x = g acc x) ->
  fold_left f l a = fold_left g l a.
Proof.
  revert a; induction l as [|x l IH]; simpl; intros a H; [reflexivity|].
  rewrite H by auto. apply IH. auto.
Qed.


Lemma wporg_key_fixed (k : jsstring) :
  k <> str "slug" -> k <> str "preview_url" -> k <> str "screenshot_url" ->
  k <> str "download_link" -> wporg_key k = k.
Proof.
  intros H1 H2 H3 H4. unfold wporg_key.
  apply str_eqb_neq in H1, H2, H3, H4. now rewrite H1, H2, H3, H4.
Qed.

(** ** Iteration *)

Lemma elements_array (l : list value) : elements (VArr l) = l.
Proof.
  unfold elements. simpl. rewrite map_map. simpl.
  rewrite (map_indexed_from (fun x => x)). apply map_id.
Qed.


Lemma some_entries_truthy (f : value -> value -> result value)
      (p : value -> bool) (l : list (value * value)) :
  (forall k x, In (k, x) l -> exists r, f x k = Ret r /\ truthy r = p x) ->
  some_entries f l = Ret (existsb p (map snd l)).
Proof.
  induction l as [|[k x] l IH]; simpl; intros H; [reflexivity|].
  destruct (H k x) as [r [Hr Ht]]; [auto|].
  rewrite Hr. simpl. rewrite Ht.
  destruct (p x); simpl; [reflexivity|]. apply IH. intros; apply H; auto.
Qed.

Lemma every_entries_truthy (f : value -> value -> result value)
      (p : value -> bool) (l : list (value * value)) :
  (forall k x, In (k, x) l -> exists r, f x k = Ret r /\ truthy r = p x) ->
  every_entries f l = Ret (forallb p (map snd l)).
Proof.
  induction l as [|[k x] l IH]; simpl; intros H; [reflexivity|].
  destruct (H k x) as [r [Hr Ht]]; [auto|].
  rewrite Hr. simpl. rewrite Ht.
  destruct (p x); simpl; [|reflexivity]. apply IH. intros; apply H; auto.
Qed.

Lemma some_truthy (c : value) (f : value -> value -> result value)
      (p : value -> bool) :
  (forall k x, In (k, x) (collection_entries c) ->
               exists r, f x k = Ret r /\ truthy r = p x) ->
  some c f = Ret (existsb p (elements c)).
Proof. intros H. unfold some, elements. now apply some_entries_truthy. Qed.

Lemma every_truthy (c : value) (f : value -> value -> result value)
      (p : value -> bool) :
  (forall k x, In (k, x) (collection_entries c) ->
               exists r, f x k = Ret r /\ truthy r = p x) ->
  every c f = Ret (forallb p (elements c)).
Proof. intros H. unfold every, elements. now apply every_entries_truthy. Qed.

(** [every] over entries none of which throws: one falsy answer decides. *)
Lemma every_entries_all (f : value -> value -> result value)
      (l : list (value * value)) :
  (forall k x, In (k, x) l -> exists r, f x k = Ret r /\ truthy r = true) ->
  every_entries f l = Ret true.
Proof.
  induction l as [|[k x] l IH]; simpl; intros H; [reflexivity|].
  destruct (H k x) as [r [Hr Ht]]; [auto|].
  rewrite Hr. simpl. rewrite Ht. apply IH. intros; apply H; auto.
Qed.


Lemma strict_eq_str (v : value) (s : jsstring) :
  strict_eq v (VStr s) = true <-> v = VStr s.
Proof.
  destruct v; simpl; try (split; [discriminate | discriminate]).
  - destruct n; split; discriminate.
  - rewrite str_eqb_eq. split; congruence.
Qed.

Lemma matches_property_str (key f : jsstring) (x : value) :
  matches_property key (VStr f) x = true <-> get_prop x key = Ret (VStr f).
Proof.
  unfold matches_property. destruct (get_prop x key) as [y|e].
  - rewrite strict_eq_str. split; congruence.
  - split; discriminate.
Qed.


Lemma In_collection_elements (c k x : value) :
  In (k, x) (collection_entries c) -> In x (elements c).
Proof.
  intros H. unfold elements. change x with (snd (k, x)). now apply in_map.
Qed.

Lemma field_matches_iff (lower : jsstring -> jsstring) (ls : jsstring) (v : value) :
  field_matches lower ls v = true <->
  exists n, v = VStr n /\ n <> [] /\ is_substring ls (lower n) = true.
Proof.
  unfold field_matches. split.
  - destruct v; try discriminate. destruct s as [|c s]; [discriminate|].
    intros H. exists (c :: s). repeat split; [discriminate | assumption].
  - intros [n [-> [Hn H]]]. destruct n; [congruence | assumption].
Qed.

(** ** The regular expression of serialized queries *)

Lemma span_digits_spec (s : jsstring) :
  s = fst (span_digits s) ++ snd (span_digits s) /\
  forallb is_digit (fst (span_digits s)) = true /\
  match snd (span_digits s) with
  | c :: _ => is_digit c = false
  | [] => True
  end.
Proof.
  induction s as [|c s IH]; simpl; [auto|].
  destruct (is_digit c) eqn:E.
  - destruct (span_digits s) as [d r]. simpl in *.
    destruct IH as [H1 [H2 H3]]. rewrite E, H2. repeat split; auto. congruence.
  - simpl. rewrite E. auto.
Qed.

Lemma star_class_ext (p : N -> bool) (K1 K2 : nat -> option captures)
      (s : jsstring) (pos : nat) :
  (forall pos', K1 pos' = K2 pos') ->
  star_class p K1 s pos = star_class p K2 s pos.
Proof.
  intros H. revert pos; induction s as [|c s IH]; intros pos; simpl.
  - apply H.
  - rewrite IH, H. reflexivity.
Qed.

Lemma star_class_all (p : N -> bool) (F : nat -> captures) (s : jsstring) (pos : nat) :
  star_class p (fun pos' => if Nat.eqb pos' (pos + List.length s)
                            then Some (F pos') else None) s pos =
  if forallb p s then Some (F (pos + List.length s)) else None.
Proof.
  revert pos; induction s as [|c s IH]; intros pos.
  - simpl. rewrite Nat.add_0_r, Nat.eqb_refl. reflexivity.
  - cbn [star_class forallb List.length].
    assert (Hne : Nat.eqb pos (pos + S (List.length s)) = false)
      by (apply Nat.eqb_neq; lia).
    rewrite Hne.
    rewrite (star_class_ext p _
               (fun pos' => if Nat.eqb pos' (S pos + List.length s)
                            then Some (F pos') else None)).
    + rewrite IH. replace (S pos + List.length s) with (pos + S (List.length s)) by lia.
      destruct (p c); simpl; [|reflexivity].
      destruct (forallb p s); reflexivity.
    + intros pos'. now replace (pos + S (List.length s)) with (S pos + List.length s) by lia.
Qed.

Lemma star_class_run (K : nat -> option captures) (s : jsstring) (pos : nat) :
  (forall j, j < List.length (fst (span_digits s)) -> K (pos + j) = None) ->
  star_class is_digit K s pos = K (pos + List.length (fst (span_digits s))).
Proof.
  revert pos; induction s as [|c s IH]; intros pos; simpl.
  - intros _. now rewrite Nat.add_0_r.
  - destruct (is_digit c) eqn:E.
    + destruct (span_digits s) as [d r] eqn:Es. simpl. intros H.
      simpl in IH. rewrite IH.
      * replace (S pos + List.length d) with (pos + S (List.length d)) by lia.
        destruct (K (pos + S (List.length d))) eqn:EK; [reflexivity|].
        rewrite <- (Nat.add_0_r pos). apply H. lia.
      * intros j Hj. replace (S pos + j) with (pos + S j) by lia. apply H. lia.
    + simpl. intros _. now rewrite Nat.add_0_r.
Qed.

Lemma skipn_run (d r : jsstring) (j : nat) :
  j < List.length d -> forallb is_digit d = true ->
  exists c rest, skipn j (d ++ r) = c :: rest /\ is_digit c = true.
Proof.
  revert j; induction d as [|c d IH]; simpl; intros j Hj Hd; [lia|].
  apply andb_true_iff in Hd. destruct Hd as [Hc Hd].
  destruct j as [|j]; simpl.
  - eauto.
  - apply IH; [lia | assumption].
Qed.

Lemma is_digit_colon (c : N) : is_digit c = true -> N.eqb 58 c = false.
Proof.
  unfold is_digit. rewrite andb_true_iff, !N.leb_le. intros [H1 H2].
  apply N.eqb_neq. lia.
Qed.

Lemma forallb_negb_existsb {A : Type} (p : A -> bool) (l : list A) :
  forallb (fun x => negb (p x)) l = negb (existsb p l).
Proof.
  induction l as [|x l IH]; simpl; [reflexivity|].
  rewrite IH. now destruct (p x).
Qed.

Lemma first_match_anchored (r : regex) (s : jsstring) (starts : list nat) :
  (forall i, In i starts -> i <> 0) ->
  first_match (RSeq RBegin r) s starts = None.
Proof.
  induction starts as [|i starts IH]; simpl; intros H; [reflexivity|].
  destruct i as [|i]; [exfalso; apply (H 0); auto|].
  simpl. apply IH. intros; apply H; auto.
Qed.

(** The anchored tail of the expression, capture 2 up to the end of the
    input, from position [pos]. *)
Lemma rmatch_tail (s : jsstring) (pos : nat) (caps : captures) :
  pos <= List.length s ->
  rmatch (RSeq (RGroup 2 (RStar (fun c => negb (is_line_terminator c)))) REnd)
         s pos caps (fun _ caps' => Some caps') =
  if existsb is_line_terminator (skipn pos s) then None
  else Some ((2, skipn pos s) :: caps).
Proof.
  intros Hpos. cbn [rmatch].
  assert (Hlen : List.length s = pos + List.length (skipn pos s)).
  { rewrite length_skipn. lia. }
  rewrite (star_class_ext
             (fun c => negb (is_line_terminator c)) _
             (fun pos' => if Nat.eqb pos' (pos + List.length (skipn pos s))
                          then Some ((2, substring pos pos' s) :: caps) else None)).
  - rewrite (star_class_all _ (fun pos' => (2, substring pos pos' s) :: caps)).
    rewrite forallb_negb_existsb.
    destruct (existsb is_line_terminator (skipn pos s)); simpl; [reflexivity|].
    unfold substring.
    replace (pos + List.length (skipn pos s) - pos) with (List.length (skipn pos s)) by lia.
    now rewrite firstn_all.
  - intros pos'. now rewrite Hlen.
Qed.

Lemma digits_no_line_terminator (d : jsstring) :
  forallb is_digit d = true -> existsb is_line_terminator d = false.
Proof.
  induction d as [|c d IH]; simpl; [reflexivity|].
  rewrite andb_true_iff. intros [Hc Hd]. rewrite IH by assumption.
  rewrite orb_false_r. unfold is_digit in Hc. unfold is_line_terminator.
  rewrite andb_true_iff, !N.leb_le in Hc.
  repeat rewrite orb_false_iff. repeat split; apply N.eqb_neq; lia.
Qed.

Lemma skipn_app_length {A : Type} (a b : list A) :
  skipn (List.length a) (a ++ b) = b.
Proof. induction a; simpl; auto. Qed.

Lemma firstn_app_length {A : Type} (a b : list A) :
  firstn (List.length a) (a ++ b) = a.
Proof. induction a; simpl; [reflexivity | now f_equal]. Qed.

(** The optional group: capture 1 and the colon. *)
Lemma rmatch_site_prefix (s : jsstring) (K : nat -> captures -> option captures) :
  rmatch (RSeq (RGroup 1 (RPlus is_digit)) (RChar 58)) s 0 [] K =
  match span_digits s with
  | (c :: d, colon :: rest) =>
      if N.eqb 58 colon then K (S (List.length (c :: d))) [(1, c :: d)] else None
  | _ => None
  end.
Proof.
  cbn [rmatch]. simpl skipn.
  destruct s as [|c s]; [reflexivity|].
  simpl span_digits. destruct (is_digit c) eqn:Ec; [|reflexivity].
  pose proof (span_digits_spec s) as Hspec.
  destruct (span_digits s) as [d r] eqn:Es. simpl in Hspec.
  destruct Hspec as [Hs [Hd Hr]].
  rewrite star_class_run.
  - rewrite Es. simpl fst.
    replace (skipn (1 + List.length d) (c :: s)) with r.
    2:{ simpl. rewrite Hs. now rewrite skipn_app_length. }
    destruct r as [|colon rest]; [reflexivity|].
    destruct (N.eqb 58 colon); [|reflexivity].
    unfold substring. simpl skipn.
    replace (1 + List.length d - 0) with (S (List.length d)) by lia.
    simpl firstn. rewrite Hs at 1. rewrite firstn_app_length. reflexivity.
  - rewrite Es. simpl fst. intros j Hj.
    destruct (skipn_run d r j Hj Hd) as [c' [rest [Hsk Hc']]].
    replace (skipn (1 + j) (c :: s)) with (skipn j (d ++ r))
      by (simpl; now rewrite Hs).
    rewrite Hsk. now rewrite (is_digit_colon c' Hc').
Qed.

Lemma regex_match_serialized (s : jsstring) :
  regex_match REGEXP_SERIALIZED_QUERY s =
  match split_serialized s with
  | None => None
  | Some (Some d, rest) => Some [(2, rest); (1, d)]
  | Some (None, rest) => Some [(2, rest)]
  end.
Proof.
  unfold regex_match. simpl seq. cbn [first_match].
  assert (HM : rmatch REGEXP_SERIALIZED_QUERY s 0 [] (fun _ caps => Some caps) =
               match split_serialized s with
               | None => None
               | Some (Some d, rest) => Some [(2, rest); (1, d)]
               | Some (None, rest) => Some [(2, rest)]
               end).
  { unfold REGEXP_SERIALIZED_QUERY.
    cbn [rmatch]. simpl Nat.eqb. cbv iota.
    change (match
               rmatch (RSeq (RGroup 1 (RPlus is_digit)) (RChar 58)) s 0 []
                 (fun pos' caps' =>
                    rmatch (RSeq (RGroup 2 (RStar (fun c => negb (is_line_terminator c)))) REnd)
                      s pos' caps' (fun _ caps => Some caps))
             with
             | Some res => Some res
             | None =>
                 rmatch (RSeq (RGroup 2 (RStar (fun c => negb (is_line_terminator c)))) REnd)
                   s 0 [] (fun _ caps => Some caps)
             end = match split_serialized s with
                   | None => None
                   | Some (Some d, rest) => Some [(2, rest); (1, d)]
                   | Some (None, rest) => Some [(2, rest)]
                   end).
    rewrite rmatch_site_prefix.
    rewrite (rmatch_tail s 0 []) by lia. simpl skipn.
    unfold split_serialized.
    pose proof (span_digits_spec s) as Hspec.
    destruct (span_digits s) as [[|c d] r] eqn:Es; simpl in Hspec.
    - destruct (existsb is_line_terminator s); reflexivity.
    - destruct Hspec as [Hs [Hd Hr]].
      destruct r as [|colon rest].
      + destruct (existsb is_line_terminator s); reflexivity.
      + destruct (N.eqb 58 colon) eqn:Ecolon.
        * rewrite rmatch_tail.
          2:{ rewrite Hs. simpl. rewrite length_app. simpl. lia. }
          replace (skipn (S (List.length (c :: d))) s) with rest.
          2:{ rewrite Hs.
              change (c :: d ++ colon :: rest) with ((c :: d) ++ colon :: rest).
              replace (S (List.length (c :: d)))
                with (List.length ((c :: d) ++ [colon])).
              - rewrite <- (skipn_app_length ((c :: d) ++ [colon]) rest) at 1.
                now rewrite <- app_assoc.
              - rewrite length_app. simpl. lia. }
          assert (HLT : existsb is_line_terminator s =
                        existsb is_line_terminator rest).
          { rewrite Hs.
            change (c :: d ++ colon :: rest) with ((c :: d) ++ colon :: rest).
            rewrite existsb_app.
            rewrite (digits_no_line_terminator (c :: d)) by exact Hd.
            simpl. apply N.eqb_eq in Ecolon. subst colon. reflexivity. }
          rewrite HLT.
          destruct (existsb is_line_terminator rest); reflexivity.
        * destruct (existsb is_line_terminator s); reflexivity. }
  rewrite HM.
  destruct (split_serialized s) as [[[d|] rest]|]; try reflexivity.
  apply first_match_anchored.
  intros i Hi. apply in_seq in Hi. lia.
Qed.

(** ** Numbers *)

Lemma scale_pos : (0 < scale)%Z.
Proof. unfold scale. apply Z.pow_pos_nonneg; lia. Qed.

Lemma round_half_even_exact (m d : Z) :
  (0 < d)%Z -> round_half_even (m * d) d = m.
Proof.
  intros Hd. unfold round_half_even.
  rewrite Z.mod_mul by lia. rewrite Z.div_mul by lia.
  rewrite Z.gtb_ltb.
  replace (d <? 2 * 0)%Z with false by (symmetry; apply Z.ltb_ge; lia).
  replace (2 * 0 =? d)%Z with false by (symmetry; apply Z.eqb_neq; lia).
  reflexivity.
Qed.

(** An integer below [2^53] converts to itself. *)
Lemma round_to_double_safe (z : Z) :
  (0 <= z < 2 ^ 53)%Z -> round_to_double z 1 = Int z.
Proof.
  intros [Hz0 Hz]. unfold round_to_double, Int.
  rewrite Z.div_1_r, Z.mul_1_l.
  destruct (Z.eq_dec z 0) as [->|Hne].
  - simpl. reflexivity.
  - assert (Hlog : (0 <= Z.log2 z < 53)%Z).
    { split; [apply Z.log2_nonneg|]. apply Z.log2_lt_pow2; lia. }
    assert (Hlog2 : Z.log2 (z * scale) = (1074 + Z.log2 z)%Z).
    { unfold scale. apply Z.log2_mul_pow2; lia. }
    rewrite Hlog2. rewrite Z.max_l by lia.
    set (j := (1074 + Z.log2 z - 52)%Z).
    assert (Hj : (0 <= j <= 1074)%Z) by (unfold j; lia).
    assert (Hsplit : scale = (2 ^ (1074 - j) * 2 ^ j)%Z).
    { unfold scale. rewrite <- Z.pow_add_r by lia. f_equal. lia. }
    assert (Hpj : (0 < 2 ^ j)%Z) by (apply Z.pow_pos_nonneg; lia).
    assert (HM : round_half_even (z * scale) (2 ^ j) = (z * 2 ^ (1074 - j))%Z).
    { rewrite Hsplit, Z.mul_assoc. now apply round_half_even_exact. }
    rewrite HM.
    replace (z * 2 ^ (1074 - j) * 2 ^ j)%Z with (z * scale)%Z
      by (rewrite Hsplit; ring).
    assert (Hlt : (z * scale < 2 ^ 2098)%Z).
    { unfold scale.
      apply Z.lt_trans with (2 ^ 53 * 2 ^ 1074)%Z.
      - apply Z.mul_lt_mono_pos_r; [apply Z.pow_pos_nonneg; lia | lia].
      - rewrite <- Z.pow_add_r by lia. apply Z.pow_lt_mono_r; lia. }
    rewrite Z.geb_leb.
    replace (2 ^ 2098 <=? z * scale)%Z with false; [reflexivity|].
    symmetry. apply Z.leb_gt. exact Hlt.
Qed.

(** Any positive integer converts to a positive integer or to
    [Infinity]. *)
Lemma round_to_double_integer (z : Z) :
  (0 < z)%Z ->
  round_to_double z 1 = Inf false \/
  exists z', (0 < z')%Z /\ round_to_double z 1 = Int z'.
Proof.
  intros Hz.
  destruct (Z_lt_le_dec z (2 ^ 53)) as [Hsmall|Hbig].
  { right. exists z. split; [assumption|]. apply round_to_double_safe. lia. }
  unfold round_to_double.
  destruct (_ >=? 2 ^ 2098)%Z; [left; reflexivity|right].
  rewrite Z.div_1_r, Z.mul_1_l.
  assert (Hlog : (53 <= Z.log2 z)%Z) by (apply Z.log2_le_pow2; lia).
  assert (Hlog2 : Z.log2 (z * scale) = (1074 + Z.log2 z)%Z).
  { unfold scale. apply Z.log2_mul_pow2; lia. }
  rewrite Hlog2. rewrite Z.max_l by lia.
  set (j := (1074 + Z.log2 z - 52)%Z).
  assert (Hj : (1074 <= j)%Z) by (unfold j; lia).
  assert (Hsplit : (2 ^ j = 2 ^ (j - 1074) * scale)%Z).
  { unfold scale. rewrite <- Z.pow_add_r by lia. f_equal. lia. }
  assert (Hpj : (0 < 2 ^ j)%Z) by (apply Z.pow_pos_nonneg; lia).
  assert (Hpk : (0 < 2 ^ (j - 1074))%Z) by (apply Z.pow_pos_nonneg; lia).
  set (M := round_half_even (z * scale) (2 ^ j)).
  assert (HM : (0 < M)%Z).
  { unfold M, round_half_even.
    assert (Hq : (0 < z * scale / 2 ^ j)%Z).
    { apply Z.div_str_pos. split; [assumption|].
      rewrite Hsplit. apply Z.mul_le_mono_nonneg_r; [pose proof scale_pos; lia|].
      apply Z.le_trans with (2 ^ Z.log2 z)%Z.
      - apply Z.pow_le_mono_r; [lia | unfold j; lia].
      - apply Z.log2_spec. assumption. }
    destruct (_ || _); lia. }
  exists (M * 2 ^ (j - 1074))%Z. split; [lia|].
  unfold Int. f_equal. rewrite Hsplit. ring.
Qed.

(** ** Decimal digits *)

Lemma digit_char_value (d : Z) :
  (0 <= d < 10)%Z -> (Z.of_N (digit_char d) - 48 = d)%Z /\ is_digit (digit_char d) = true.
Proof.
  intros Hd. unfold digit_char, is_digit.
  rewrite andb_true_iff, !N.leb_le. lia.
Qed.

Lemma fold_digits_decimal_aux (fuel : nat) (z : Z) (acc : jsstring) :
  (0 <= z < 10 ^ Z.of_nat fuel)%Z ->
  fold_left (fun a c => (10 * a + (Z.of_N c - 48))%Z) (decimal_aux fuel z acc) 0%Z =
  fold_left (fun a c => (10 * a + (Z.of_N c - 48))%Z) acc z.
Proof.
  revert z acc; induction fuel as [|fuel IH]; intros z acc Hz.
  - simpl in Hz. assert (z = 0%Z) by lia. subst. reflexivity.
  - cbn [decimal_aux].
    assert (Hmod : (0 <= z mod 10 < 10)%Z) by (apply Z.mod_pos_bound; lia).
    destruct (digit_char_value _ Hmod) as [Hv _].
    destruct (z <? 10)%Z eqn:E.
    + apply Z.ltb_lt in E. cbn [fold_left]. rewrite Hv.
      rewrite Z.mod_small by lia. reflexivity.
    + apply Z.ltb_ge in E. rewrite IH.
      * cbn [fold_left]. rewrite Hv. f_equal.
        pose proof (Z.div_mod z 10). lia.
      * split; [apply Z.div_pos; lia|].
        apply Z.div_lt_upper_bound; [lia|].
        rewrite Nat2Z.inj_succ, Z.pow_succ_r in Hz by lia. lia.
Qed.

Lemma decimal_value (z : Z) : (0 <= z)%Z -> digits_value (decimal z) = z.
Proof.
  intros Hz. unfold digits_value, decimal.
  rewrite fold_digits_decimal_aux; [reflexivity|].
  split; [assumption|].
  rewrite Nat2Z.inj_succ, Z2Nat.id by apply Z.log2_nonneg.
  destruct (Z.eq_dec z 0) as [->|Hne]; [simpl; lia|].
  apply Z.lt_le_trans with (2 ^ Z.succ (Z.log2 z))%Z.
  - apply Z.log2_spec. lia.
  - apply Z.pow_le_mono_l. lia.
Qed.

Lemma decimal_aux_digits (fuel : nat) (z : Z) (acc : jsstring) :
  (0 <= z)%Z -> forallb is_digit acc = true ->
  forallb is_digit (decimal_aux fuel z acc) = true.
Proof.
  revert z acc; induction fuel as [|fuel IH]; intros z acc Hz Hacc; [assumption|].
  cbn [decimal_aux].
  assert (Hmod : (0 <= z mod 10 < 10)%Z) by (apply Z.mod_pos_bound; lia).
  destruct (digit_char_value _ Hmod) as [_ Hd].
  destruct (z <? 10)%Z.
  - simpl. now rewrite Hd.
  - apply IH; [apply Z.div_pos; lia|]. simpl. now rewrite Hd.
Qed.

Lemma decimal_digits (z : Z) : (0 <= z)%Z -> forallb is_digit (decimal z) = true.
Proof. intros Hz. apply decimal_aux_digits; auto. Qed.

Lemma decimal_aux_nonempty (fuel : nat) (z : Z) (acc : jsstring) :
  acc <> [] -> decimal_aux fuel z acc <> [].
Proof.
  revert z acc; induction fuel as [|fuel IH]; intros z acc Hacc; [assumption|].
  cbn [decimal_aux]. destruct (z <? 10)%Z; [discriminate|].
  apply IH. discriminate.
Qed.

Lemma decimal_nonempty (z : Z) : decimal z <> [].
Proof.
  unfold decimal. cbn [decimal_aux].
  destruct (z <? 10)%Z; [discriminate|].
  apply decimal_aux_nonempty. discriminate.
Qed.

Lemma span_digits_app (d r : jsstring) :
  forallb is_digit d = true ->
  match r with c :: _ => is_digit c = false | [] => True end ->
  span_digits (d ++ r) = (d, r).
Proof.
  induction d as [|c d IH]; simpl; intros Hd Hr.
  - destruct r as [|c r]; [reflexivity|]. simpl. now rewrite Hr.
  - apply andb_true_iff in Hd. destruct Hd as [Hc Hd].
    rewrite Hc, IH by assumption. reflexivity.
Qed.

Lemma getDeserializedThemesQueryDetails_unfold (s : jsstring) :
  getDeserializedThemesQueryDetails s =
  match split_serialized s with
  | None => {| siteId := VUndef; query := VUndef |}
  | Some (d, rest) =>
      {| siteId := if truthy (VNum (Number_of_capture d))
                   then VNum (Number_of_capture d) else VUndef;
         query := match JSON_parse rest with
                  | Some x => x
                  | None => VUndef
                  end |}
  end.
Proof.
  unfold getDeserializedThemesQueryDetails.
  rewrite regex_match_serialized.
  destruct (split_serialized s) as [[[d|] rest]|]; reflexivity.
Qed.

Lemma digits_value_nonneg_from (ds : jsstring) (a : Z) :
  forallb is_digit ds = true -> (0 <= a)%Z ->
  (a <= fold_left (fun acc c => (10 * acc + (Z.of_N c - 48))%Z) ds a)%Z.
Proof.
  revert a; induction ds as [|c ds IH]; cbn [fold_left forallb];
    intros a Hd Ha; [lia|].
  apply andb_true_iff in Hd. destruct Hd as [Hc Hd].
  unfold is_digit in Hc. rewrite andb_true_iff, !N.leb_le in Hc.
  apply Z.le_trans with (10 * a + (Z.of_N c - 48))%Z; [lia|].
  apply IH; [assumption|lia].
Qed.

Lemma digits_value_nonneg (ds : jsstring) :
  forallb is_digit ds = true -> (0 <= digits_value ds)%Z.
Proof. intros H. apply (digits_value_nonneg_from ds 0 H). lia. Qed.

Lemma split_serialized_digits (s ds rest : jsstring) :
  split_serialized s = Some (Some ds, rest) ->
  forallb is_digit ds = true /\ ds <> [] /\ s = ds ++ 58%N :: rest.
Proof.
  unfold split_serialized.
  destruct (existsb is_line_terminator s); [discriminate|].
  pose proof (span_digits_spec s) as Hspec.
  destruct (span_digits s) as [[|c d] r]; [discriminate|].
  destruct r as [|colon r]; [discriminate|].
  destruct (N.eqb 58 colon) eqn:E; [|discriminate].
  intros H. injection H as <- <-.
  simpl in Hspec. destruct Hspec as [Hs [Hd _]].
  apply N.eqb_eq in E. subst colon.
  repeat split; [assumption | discriminate | assumption].
Qed.

(** [Number] of a captured digit run, and its truthiness. *)
Lemma Number_of_digits (ds : jsstring) :
  forallb is_digit ds = true -> ds <> [] ->
  Number_of_capture (Some ds) = round_to_double (digits_value ds) 1 /\
  truthy (VNum (Number_of_capture (Some ds))) = negb (digits_value ds =? 0)%Z.
Proof.
  intros Hd Hne.
  assert (HN : Number_of_capture (Some ds) = round_to_double (digits_value ds) 1).
  { unfold Number_of_capture. rewrite Hd.
    destruct ds; [congruence | reflexivity]. }
  split; [exact HN|]. rewrite HN.
  pose proof (digits_value_nonneg ds Hd) as Hnn.
  destruct (Z.eq_dec (digits_value ds) 0) as [E|E].
  - rewrite E. reflexivity.
  - replace (digits_value ds =? 0)%Z with false by (symmetry; now apply Z.eqb_neq).
    destruct (round_to_double_integer (digits_value ds)) as [H|[z [Hz H]]];
      [lia | | ]; rewrite H; [reflexivity|].
    unfold Int. cbn [truthy]. apply negb_true_iff, Z.eqb_neq.
    pose proof scale_pos. nia.
Qed.

(** ** Induction on values *)

Lemma value_ind (P : value -> Prop) :
  P VUndef -> P VNull -> (forall b, P (VBool b)) -> (forall n, P (VNum n)) ->
  (forall s, P (VStr s)) ->
  (forall l, Forall P l -> P (VArr l)) ->
  (forall o, Forall (fun kv => P (snd kv)) o -> P (VObj o)) ->
  forall v, P v.
Proof.
  intros Hu Hn Hb Hnum Hs Ha Ho.
  fix IH 1. intros [| |b|n|s|l|o].
  - exact Hu.
  - exact Hn.
  - apply Hb.
  - apply Hnum.
  - apply Hs.
  - apply Ha. induction l as [|x l IHl]; constructor; [apply IH | exact IHl].
  - apply Ho. induction o as [|[k x] o IHo]; constructor; [apply IH | exact IHo].
Qed.

(** ** String literals *)

Lemma parse_string_unit (c : N) (t : jsstring) :
  parse_string (quote_unit c ++ t) =
  match parse_string t with
  | Some (u, r) => Some (c :: u, r)
  | None => None
  end.
Proof.
  unfold quote_unit.
  destruct (N.eqb_spec c 34) as [->|H34]; [reflexivity|].
  destruct (N.eqb_spec c 92) as [->|H92]; [reflexivity|].
  destruct (N.eqb_spec c 8) as [->|H8]; [reflexivity|].
  destruct (N.eqb_spec c 12) as [->|H12]; [reflexivity|].
  destruct (N.eqb_spec c 10) as [->|H10]; [reflexivity|].
  destruct (N.eqb_spec c 13) as [->|H13]; [reflexivity|].
  destruct (N.eqb_spec c 9) as [->|H9]; [reflexivity|].
  destruct (c <? 32)%N eqn:Hlt.
  - apply N.ltb_lt in Hlt.
    assert (Hin : In c (map N.of_nat (seq 0 32))).
    { apply in_map_iff. exists (N.to_nat c). split; [apply N2Nat.id|].
      apply in_seq. lia. }
    simpl in Hin.
    repeat (destruct Hin as [<-|Hin]; [reflexivity|]). contradiction.
  - simpl. apply N.eqb_neq in H34, H92. rewrite H34, H92, Hlt. reflexivity.
Qed.

Lemma parse_string_quote (s rest : jsstring) :
  parse_string (flat_map quote_unit s ++ [34%N] ++ rest) = Some (s, rest).
Proof.
  induction s as [|c s IH]; [reflexivity|].
  simpl flat_map. rewrite <- app_assoc. rewrite parse_string_unit.
  now rewrite IH.
Qed.

Lemma parse_quote (s rest : jsstring) :
  exists t, quote s ++ rest = 34%N :: t /\ parse_string t = Some (s, rest).
Proof.
  exists (flat_map quote_unit s ++ [34%N] ++ rest). split.
  - unfold quote. simpl. now rewrite <- app_assoc.
  - apply parse_string_quote.
Qed.

(** ** Number literals *)

Lemma decimal_aux_head (fuel : nat) (z : Z) (acc : jsstring) :
  (0 < z < 10 ^ Z.of_nat fuel)%Z ->
  exists c t, decimal_aux fuel z acc = c :: t /\ N.eqb c 48 = false.
Proof.
  revert z acc; induction fuel as [|fuel IH]; intros z acc Hz.
  - simpl in Hz. lia.
  - cbn [decimal_aux]. destruct (z <? 10)%Z eqn:E.
    + apply Z.ltb_lt in E. eexists. eexists. split; [reflexivity|].
      apply N.eqb_neq. unfold digit_char. rewrite Z.mod_small by lia. lia.
    + apply Z.ltb_ge in E. apply IH.
      split; [apply Z.div_str_pos; lia|].
      apply Z.div_lt_upper_bound; [lia|].
      rewrite Nat2Z.inj_succ, Z.pow_succ_r in Hz by lia. lia.
Qed.

Lemma decimal_head (z : Z) :
  (0 < z)%Z -> exists c t, decimal z = c :: t /\ N.eqb c 48 = false.
Proof.
  intros Hz. unfold decimal. apply decimal_aux_head.
  split; [assumption|].
  rewrite Nat2Z.inj_succ, Z2Nat.id by apply Z.log2_nonneg.
  apply Z.lt_le_trans with (2 ^ Z.succ (Z.log2 z))%Z.
  - apply Z.log2_spec. lia.
  - apply Z.pow_le_mono_l. lia.
Qed.

Lemma delimited_not_digit (rest : jsstring) :
  delimited rest ->
  match rest with c :: _ => is_digit c = false | [] => True end.
Proof.
  destruct rest as [|c rest]; [trivial|].
  intros [-> | [-> | ->]]; reflexivity.
Qed.

Lemma parse_tail_delimited (rest : jsstring) :
  delimited rest ->
  parse_frac_part rest = Some ([], rest) /\ parse_exp_part rest = Some (0%Z, rest).
Proof.
  destruct rest as [|c rest]; [split; reflexivity|].
  intros [-> | [-> | ->]]; split; reflexivity.
Qed.

Lemma parse_number_positive (z : Z) (rest : jsstring) :
  (0 < z < 2 ^ 53)%Z -> delimited rest ->
  parse_number (decimal z ++ rest) = Some (Int z, rest).
Proof.
  intros Hz Hrest.
  destruct (decimal_head z) as [c [t [Hdec Hc48]]]; [lia|].
  pose proof (decimal_digits z) as Hdig.
  assert (Hspan : span_digits (decimal z ++ rest) = (decimal z, rest)).
  { apply span_digits_app; [apply Hdig; lia | now apply delimited_not_digit]. }
  assert (Hc45 : N.eqb c 45 = false).
  { assert (Hcd : is_digit c = true).
    { specialize (Hdig ltac:(lia)). rewrite Hdec in Hdig. simpl in Hdig.
      now apply andb_true_iff in Hdig. }
    unfold is_digit in Hcd. rewrite andb_true_iff, !N.leb_le in Hcd.
    apply N.eqb_neq. lia. }
  unfold parse_number.
  destruct (decimal z ++ rest) as [|c0 t0] eqn:Eapp.
  { rewrite Hdec in Eapp. discriminate. }
  assert (c0 = c) by (rewrite Hdec in Eapp; injection Eapp; auto). subst c0.
  rewrite Hc45. cbv beta iota zeta.
  unfold parse_int_part. rewrite Hspan. rewrite Hdec. rewrite Hc48.
  rewrite <- Hdec.
  destruct (parse_tail_delimited rest Hrest) as [Hf He]. rewrite Hf, He.
  rewrite app_nil_r. rewrite decimal_value by lia.
  simpl List.length. simpl Z.of_nat.
  replace (dec_rat z (0 - 0)) with (z, 1%Z)
    by (unfold dec_rat; simpl; now rewrite Z.mul_1_r).
  cbv beta iota zeta.
  rewrite round_to_double_safe by lia. reflexivity.
Qed.

Lemma safe_integer_spec (u z : Z) :
  safe_integer u = Some z -> u = (z * scale)%Z /\ (- 2 ^ 53 < z < 2 ^ 53)%Z.
Proof.
  unfold safe_integer. pose proof scale_pos as Hs.
  destruct (u mod scale =? 0)%Z eqn:Hm; [|discriminate].
  destruct (Z.abs u <? 2 ^ 53 * scale)%Z eqn:Hb; [|discriminate].
  simpl. intros H. injection H as <-.
  apply Z.eqb_eq in Hm. apply Z.ltb_lt in Hb.
  assert (Hu : u = (u / scale * scale)%Z).
  { pose proof (Z.div_mod u scale). lia. }
  split; [exact Hu|]. nia.
Qed.

Lemma safe_integer_of (z : Z) :
  (- 2 ^ 53 < z < 2 ^ 53)%Z -> safe_integer (z * scale) = Some z.
Proof.
  intros Hz. unfold safe_integer. pose proof scale_pos as Hs.
  rewrite Z.mod_mul by lia. rewrite Z.div_mul by lia.
  replace (Z.abs (z * scale) <? 2 ^ 53 * scale)%Z with true; [reflexivity|].
  symmetry. apply Z.ltb_lt. rewrite Z.abs_mul, (Z.abs_eq scale) by lia.
  apply Z.mul_lt_mono_pos_r; lia.
Qed.

Lemma parse_number_minus (s rest : jsstring) (n : number) :
  match s with c :: _ => N.eqb c 45 = false | [] => True end ->
  parse_number s = Some (n, rest) ->
  parse_number (45%N :: s) = Some (number_neg n, rest).
Proof.
  intros Hhead. unfold parse_number. cbn [N.eqb Pos.eqb].
  destruct s as [|c t].
  - cbv beta iota zeta. destruct (parse_int_part []) as [[i s2]|]; [|discriminate].
    destruct (parse_frac_part s2) as [[f s3]|]; [|discriminate].
    destruct (parse_exp_part s3) as [[e s4]|]; [|discriminate].
    destruct (dec_rat _ _) as [p q]. intros H. injection H as <- <-. reflexivity.
  - rewrite Hhead. cbv beta iota zeta.
    destruct (parse_int_part (c :: t)) as [[i s2]|]; [|discriminate].
    destruct (parse_frac_part s2) as [[f s3]|]; [|discriminate].
    destruct (parse_exp_part s3) as [[e s4]|]; [|discriminate].
    destruct (dec_rat _ _) as [p q]. intros H. injection H as <- <-. reflexivity.
Qed.

(** The text of an integer of magnitude below [2^53] parses back to it. *)
Lemma parse_number_safe (u z : Z) (rest : jsstring) :
  safe_integer u = Some z -> delimited rest ->
  parse_number (number_to_string (Fin u) ++ rest) = Some (Fin u, rest).
Proof.
  intros Hsafe Hrest.
  destruct (safe_integer_spec u z Hsafe) as [Hu Hz].
  pose proof scale_pos as Hs.
  unfold number_to_string.
  destruct (u =? 0)%Z eqn:E0.
  - apply Z.eqb_eq in E0. rewrite E0. clear Hu Hsafe E0.
    destruct (parse_tail_delimited rest Hrest) as [Hf He].
    pose proof (delimited_not_digit rest Hrest) as Hnd.
    unfold parse_number. change (str "0" ++ rest) with (48%N :: rest).
    cbn [N.eqb Pos.eqb]. unfold parse_int_part. cbn [span_digits].
    replace (is_digit 48) with true by reflexivity.
    assert (Hsp : span_digits rest = ([], rest)).
    { destruct rest as [|c r]; [reflexivity|]. simpl. now rewrite Hnd. }
    rewrite Hsp. cbn [N.eqb Pos.eqb app]. rewrite Hf, He.
    vm_compute. reflexivity.
  - apply Z.eqb_neq in E0.
    destruct (u <? 0)%Z eqn:Eneg.
    + apply Z.ltb_lt in Eneg.
      assert (Hz' : (0 < - z < 2 ^ 53)%Z) by nia.
      unfold positive_to_string.
      replace (- u)%Z with (- z * scale)%Z by lia.
      rewrite safe_integer_of by lia.
      change ((str "-" ++ decimal (- z)) ++ rest)
        with (45%N :: decimal (- z) ++ rest).
      rewrite (parse_number_minus _ rest (Int (- z))).
      * unfold Int. simpl number_neg. do 3 f_equal. lia.
      * destruct (decimal_head (- z)) as [c [t [Hdec Hc48]]]; [lia|].
        rewrite Hdec. simpl app.
        pose proof (decimal_digits (- z) ltac:(lia)) as Hdig.
        rewrite Hdec in Hdig. simpl in Hdig.
        apply andb_true_iff in Hdig. destruct Hdig as [Hcd _].
        unfold is_digit in Hcd. rewrite andb_true_iff, !N.leb_le in Hcd.
        apply N.eqb_neq. lia.
      * now apply parse_number_positive.
    + apply Z.ltb_ge in Eneg.
      assert (Hz' : (0 < z < 2 ^ 53)%Z) by nia.
      unfold positive_to_string. rewrite Hsafe.
      rewrite parse_number_positive by assumption.
      unfold Int. now rewrite Hu.
Qed.

(** ** The text of a value *)

Lemma stringify_array (l : list value) :
  stringify (VArr l) =
  Some (str "[" ++ join (str ",") (map element_text l) ++ str "]").
Proof. reflexivity. Qed.

Lemma stringify_object (o : object) :
  stringify (VObj o) =
  Some (str "{" ++ join (str ",") (member_texts o) ++ str "}").
Proof. reflexivity. Qed.

Lemma size_array (l : list value) : size (VArr l) = S (sizes l).
Proof. reflexivity. Qed.

Lemma size_object (o : object) : size (VObj o) = S (member_sizes o).
Proof. reflexivity. Qed.

Lemma json_safe_object (o : object) :
  json_safe (VObj o) = wf_object o && members_safe o.
Proof. reflexivity. Qed.

Lemma size_pos (v : value) : 1 <= size v.
Proof. destruct v; simpl; lia. Qed.

Lemma value_start_facts (c : N) :
  value_start c = true ->
  is_ws c = false /\ N.eqb c 93 = false /\ N.eqb c 125 = false /\ N.eqb c 44 = false.
Proof.
  unfold value_start, is_digit, is_ws.
  rewrite !orb_true_iff, andb_true_iff, !N.eqb_eq, !N.leb_le.
  intros H. repeat split;
    try (repeat rewrite orb_false_iff; repeat split); apply N.eqb_neq; lia.
Qed.

Lemma skip_ws_start (c : N) (t : jsstring) :
  is_ws c = false -> skip_ws (c :: t) = c :: t.
Proof. intros H. simpl. now rewrite H. Qed.

Lemma number_text_head (u z : Z) :
  safe_integer u = Some z ->
  exists c t, number_to_string (Fin u) = c :: t /\
              (N.eqb c 45 = true \/ is_digit c = true).
Proof.
  intros Hsafe. destruct (safe_integer_spec u z Hsafe) as [Hu Hz].
  pose proof scale_pos as Hs.
  unfold number_to_string.
  destruct (u =? 0)%Z eqn:E0.
  - exists 48%N, []. split; [reflexivity | right; reflexivity].
  - apply Z.eqb_neq in E0. destruct (u <? 0)%Z eqn:Eneg.
    + eexists. eexists. split; [reflexivity | left; reflexivity].
    + apply Z.ltb_ge in Eneg. unfold positive_to_string. rewrite Hsafe.
      assert (Hzp : (0 < z)%Z) by nia.
      destruct (decimal_head z Hzp) as [c [t [Hdec _]]].
      exists c, t. split; [assumption|]. right.
      pose proof (decimal_digits z ltac:(lia)) as Hdig.
      rewrite Hdec in Hdig. simpl in Hdig. now apply andb_true_iff in Hdig.
Qed.

Lemma element_text_head (v : value) :
  json_safe v = true ->
  exists c t, element_text v = c :: t /\ value_start c = true.
Proof.
  destruct v as [| |b|n|s|l|o]; intros Hsafe; try discriminate.
  - exists 110%N, (str "ull"). split; reflexivity.
  - destruct b; [exists 116%N, (str "rue") | exists 102%N, (str "alse")];
      split; reflexivity.
  - destruct n as [| |u]; try discriminate.
    simpl in Hsafe. destruct (safe_integer u) as [z|] eqn:E; [|discriminate].
    destruct (number_text_head u z E) as [c [t [Ht Hc]]].
    exists c, t. split; [exact Ht|].
    unfold value_start. destruct Hc as [Hc|Hc]; rewrite Hc;
      repeat rewrite orb_true_r; reflexivity.
  - eexists. eexists. split; reflexivity.
  - eexists. eexists. split; reflexivity.
  - eexists. eexists. split; reflexivity.
Qed.

Lemma parse_value_number (fuel : nat) (c : N) (t : jsstring) :
  N.eqb c 45 = true \/ is_digit c = true ->
  parse_value (S fuel) (c :: t) =
  option_map (fun p => (VNum (fst p), snd p)) (parse_number (c :: t)).
Proof.
  intros Hc. cbn [parse_value].
  assert (H : N.eqb c 110 = false /\ N.eqb c 116 = false /\ N.eqb c 102 = false /\
              N.eqb c 34 = false /\ N.eqb c 91 = false /\ N.eqb c 123 = false).
  { unfold is_digit in Hc. rewrite andb_true_iff, !N.leb_le, N.eqb_eq in Hc.
    repeat split; apply N.eqb_neq; lia. }
  destruct H as [H1 [H2 [H3 [H4 [H5 H6]]]]].
  now rewrite H1, H2, H3, H4, H5, H6.
Qed.

Lemma join_cons (sep x : jsstring) (y : jsstring) (l : list jsstring) :
  join sep (x :: y :: l) = x ++ sep ++ join sep (y :: l).
Proof. reflexivity. Qed.

Lemma parse_elements_join (l : list value) :
  Forall parses_back l -> forallb json_safe l = true -> l <> [] ->
  forall (fuel : nat) (rest : jsstring),
    2 * sizes l < fuel ->
    parse_elements fuel (join (str ",") (map element_text l) ++ str "]" ++ rest) =
    Some (l, rest).
Proof.
  induction l as [|x l IH]; intros HP Hsafe Hne fuel rest Hfuel; [congruence|].
  inversion HP as [|? ? HPx HPl]; subst.
  cbn [forallb] in Hsafe. apply andb_true_iff in Hsafe. destruct Hsafe as [Hx Hl].
  cbn [sizes fold_right] in Hfuel. fold (sizes l) in Hfuel.
  pose proof (size_pos x) as Hpos.
  destruct fuel as [|fuel]; [lia|].
  cbn [parse_elements].
  destruct l as [|y l].
  - cbn [map join].
    rewrite (HPx Hx fuel (str "]" ++ rest)); [|lia|right; left; reflexivity].
    reflexivity.
  - cbn [map]. rewrite join_cons. rewrite <- !app_assoc.
    rewrite (HPx Hx fuel); [|lia|left; reflexivity].
    change (skip_ws (str "," ++
                     join (str ",") (element_text y :: map element_text l) ++
                     str "]" ++ rest))
      with (44%N :: join (str ",") (element_text y :: map element_text l) ++
                    str "]" ++ rest).
    cbv beta iota.
    assert (Hy : json_safe y = true).
    { cbn [forallb] in Hl. now apply andb_true_iff in Hl. }
    destruct (element_text_head y Hy) as [c [t [Ht Hc]]].
    destruct (value_start_facts c Hc) as [Hws _].
    assert (Hskip : skip_ws (join (str ",") (element_text y :: map element_text l) ++
                             str "]" ++ rest) =
                    join (str ",") (element_text y :: map element_text l) ++
                    str "]" ++ rest).
    { destruct l as [|w l]; cbn [map join]; rewrite Ht;
        rewrite <- ?app_comm_cons; now apply skip_ws_start. }
    rewrite Hskip.
    change (element_text y :: map element_text l) with (map element_text (y :: l)).
    rewrite IH; [reflexivity | assumption | assumption | discriminate |].
    change (sizes (y :: l)) with (size y + sizes l) in Hfuel |- *. lia.
Qed.

Lemma stringify_safe (x : value) :
  json_safe x = true -> stringify x = Some (element_text x).
Proof.
  intros H. unfold element_text.
  destruct x as [| |b|n|s|l|o]; try discriminate; try reflexivity.
  - destruct b; reflexivity.
  - destruct n; reflexivity.
Qed.

Lemma member_texts_cons (k : jsstring) (x : value) (o : object) :
  json_safe x = true ->
  member_texts ((k, x) :: o) =
  (quote k ++ str ":" ++ element_text x) :: member_texts o.
Proof. intros H. cbn [member_texts]. now rewrite stringify_safe. Qed.

Lemma member_texts_head (o : object) :
  members_safe o = true -> o <> [] ->
  exists t, join (str ",") (member_texts o) = 34%N :: t.
Proof.
  destruct o as [|[k x] o]; [congruence|]. intros Hsafe _.
  cbn [members_safe] in Hsafe. rewrite !andb_true_iff in Hsafe.
  destruct Hsafe as [[_ Hx] _].
  rewrite member_texts_cons by assumption.
  destruct (member_texts o); cbn [join]; unfold quote; eexists; reflexivity.
Qed.

Lemma join_nonempty (sep x : jsstring) (l : list jsstring) :
  l <> [] -> join sep (x :: l) = x ++ sep ++ join sep l.
Proof. destruct l; [congruence | reflexivity]. Qed.

Lemma parse_members_join (o : object) :
  Forall (fun kv => parses_back (snd kv)) o -> members_safe o = true -> o <> [] ->
  forall (fuel : nat) (rest : jsstring),
    2 * member_sizes o < fuel ->
    parse_members fuel (join (str ",") (member_texts o) ++ str "}" ++ rest) =
    Some (o, rest).
Proof.
  induction o as [|[k x] o IH]; intros HP Hsafe Hne fuel rest Hfuel; [congruence|].
  inversion HP as [|? ? HPx HPo]; subst. simpl snd in HPx.
  cbn [members_safe] in Hsafe. rewrite !andb_true_iff in Hsafe.
  destruct Hsafe as [[Hk Hx] Ho].
  cbn [member_sizes] in Hfuel.
  pose proof (size_pos x) as Hpos.
  destruct fuel as [|fuel]; [lia|].
  rewrite member_texts_cons by assumption.
  destruct (element_text_head x Hx) as [c [t [Ht Hc]]].
  destruct (value_start_facts c Hc) as [Hws _].
  destruct o as [|[k' y] o].
  - cbn [member_texts join]. rewrite <- !app_assoc.
    destruct (parse_quote k (str ":" ++ element_text x ++ str "}" ++ rest))
      as [q [Hq Hparse]].
    rewrite Hq. cbn [parse_members]. rewrite Hparse.
    change (skip_ws (str ":" ++ element_text x ++ str "}" ++ rest))
      with (58%N :: element_text x ++ str "}" ++ rest).
    cbv beta iota.
    replace (skip_ws (element_text x ++ str "}" ++ rest))
      with (element_text x ++ str "}" ++ rest)
      by (rewrite Ht; symmetry; now apply skip_ws_start).
    rewrite (HPx Hx fuel (str "}" ++ rest)); [|lia|right; right; reflexivity].
    reflexivity.
  - destruct (member_texts_head ((k', y) :: o) Ho) as [t' Ht']; [discriminate|].
    set (M := member_texts ((k', y) :: o)) in *.
    assert (HM : M <> []) by (intros E; rewrite E in Ht'; discriminate).
    rewrite (join_nonempty _ _ M HM). rewrite <- !app_assoc.
    match goal with
    | |- parse_members _ (quote k ++ ?R) = _ =>
        destruct (parse_quote k R) as [q [Hq Hparse]]
    end.
    rewrite Hq. cbn [parse_members]. rewrite Hparse.
    match goal with
    | |- context [skip_ws (str ":" ++ ?r)] =>
        change (skip_ws (str ":" ++ r)) with (58%N :: r)
    end.
    cbv beta iota.
    match goal with
    | |- context [skip_ws (element_text x ++ ?r)] =>
        replace (skip_ws (element_text x ++ r)) with (element_text x ++ r)
          by (rewrite Ht; symmetry; now apply skip_ws_start)
    end.
    rewrite (HPx Hx fuel); [|lia|left; reflexivity].
    match goal with
    | |- context [skip_ws (str "," ++ ?r)] =>
        change (skip_ws (str "," ++ r)) with (44%N :: r)
    end.
    cbv beta iota.
    replace (skip_ws (join (str ",") M ++ str "}" ++ rest))
      with (join (str ",") M ++ str "}" ++ rest)
      by (rewrite Ht'; symmetry; now apply skip_ws_start).
    unfold M.
    rewrite IH; [reflexivity | assumption | assumption | discriminate |].
    change (member_sizes ((k', y) :: o)) with (size y + member_sizes o) in Hfuel |- *.
    lia.
Qed.

Lemma is_prefix_single (a c : N) (t : jsstring) :
  is_prefix [a] (c :: t) = N.eqb a c.
Proof. simpl. apply andb_true_r. Qed.

(** Every JSON-representable value parses back from its text. *)
Lemma parse_value_text (v : value) : parses_back v.
Proof.
  induction v as [| |b|n|s|l IHl|o IHo] using value_ind;
    intros Hsafe fuel rest Hfuel Hrest; try discriminate.
  - destruct fuel as [|fuel]; [simpl in Hfuel; lia|]. reflexivity.
  - destruct fuel as [|fuel]; [simpl in Hfuel; lia|]. destruct b; reflexivity.
  - destruct n as [| |u]; try discriminate.
    simpl in Hsafe. destruct (safe_integer u) as [z|] eqn:E; [|discriminate].
    destruct fuel as [|fuel]; [simpl in Hfuel; lia|].
    change (element_text (VNum (Fin u))) with (number_to_string (Fin u)).
    destruct (number_text_head u z E) as [c [t [Ht Hc]]].
    rewrite Ht. rewrite <- app_comm_cons.
    rewrite parse_value_number by assumption.
    rewrite app_comm_cons, <- Ht.
    now rewrite (parse_number_safe u z rest E Hrest).
  - destruct fuel as [|fuel]; [simpl in Hfuel; lia|].
    change (element_text (VStr s)) with (quote s).
    destruct (parse_quote s rest) as [t [Ht Hparse]].
    rewrite Ht. cbn [parse_value]. cbn [N.eqb Pos.eqb]. now rewrite Hparse.
  - rewrite size_array in Hfuel.
    destruct fuel as [|fuel]; [lia|].
    change (json_safe (VArr l)) with (forallb json_safe l) in Hsafe.
    unfold element_text. rewrite stringify_array.
    change ((str "[" ++ join (str ",") (map element_text l) ++ str "]") ++ rest)
      with (91%N :: (join (str ",") (map element_text l) ++ str "]") ++ rest).
    rewrite <- app_assoc.
    cbn [parse_value]. cbn [N.eqb Pos.eqb].
    destruct l as [|x l].
    + reflexivity.
    + assert (Hx : json_safe x = true).
      { cbn [forallb] in Hsafe. now apply andb_true_iff in Hsafe. }
      destruct (element_text_head x Hx) as [c [t [Ht Hc]]].
      destruct (value_start_facts c Hc) as [Hws [H93 _]].
      assert (Hhead : exists t', join (str ",") (map element_text (x :: l)) ++
                                 str "]" ++ rest = c :: t').
      { cbn [map]. destruct l; cbn [map join]; rewrite Ht; eexists; reflexivity. }
      destruct Hhead as [t' Ht'].
      set (S0 := join (str ",") (map element_text (x :: l)) ++ str "]" ++ rest) in *.
      replace (skip_ws S0) with S0
        by (rewrite Ht'; symmetry; now apply skip_ws_start).
      replace (is_prefix (str "]") S0) with false.
      2:{ rewrite Ht'. change (str "]") with [93%N]. rewrite is_prefix_single.
          now rewrite N.eqb_sym. }
      unfold S0.
      rewrite parse_elements_join; [reflexivity|assumption|assumption|discriminate|lia].
  - rewrite size_object in Hfuel.
    destruct fuel as [|fuel]; [lia|].
    rewrite json_safe_object in Hsafe. apply andb_true_iff in Hsafe.
    destruct Hsafe as [Hwf Hmem].
    unfold element_text. rewrite stringify_object.
    change ((str "{" ++ join (str ",") (member_texts o) ++ str "}") ++ rest)
      with (123%N :: (join (str ",") (member_texts o) ++ str "}") ++ rest).
    rewrite <- app_assoc.
    cbn [parse_value]. cbn [N.eqb Pos.eqb].
    destruct o as [|[k x] o].
    + reflexivity.
    + destruct (member_texts_head ((k, x) :: o) Hmem) as [t' Ht']; [discriminate|].
      set (S0 := join (str ",") (member_texts ((k, x) :: o)) ++ str "}" ++ rest).
      assert (Hhead : S0 = 34%N :: t' ++ str "}" ++ rest)
        by (unfold S0; now rewrite Ht').
      replace (skip_ws S0) with S0 by (rewrite Hhead; reflexivity).
      replace (is_prefix (str "}") S0) with false by (rewrite Hhead; reflexivity).
      unfold S0.
      rewrite parse_members_join; [|assumption|assumption|discriminate|lia].
      cbn [option_map fst snd]. now rewrite from_entries_wf.
Qed.

Lemma length_join_ge (sep x : jsstring) (l : list jsstring) :
  List.length x + List.length (join sep l) <= List.length (join sep (x :: l)).
Proof.
  destruct l as [|y l]; cbn [join].
  - simpl. lia.
  - rewrite !length_app. lia.
Qed.

Lemma size_le_text (v : value) :
  json_safe v = true -> size v <= List.length (element_text v).
Proof.
  induction v as [| |b|n|s|l IHl|o IHo] using value_ind; intros Hsafe;
    try discriminate.
  - simpl. lia.
  - destruct b; simpl; lia.
  - destruct (element_text_head (VNum n) Hsafe) as [c [t [Ht _]]].
    rewrite Ht. simpl. lia.
  - destruct (element_text_head (VStr s) Hsafe) as [c [t [Ht _]]].
    rewrite Ht. simpl. lia.
  - rewrite size_array. unfold element_text. rewrite stringify_array.
    change (json_safe (VArr l)) with (forallb json_safe l) in Hsafe.
    rewrite !length_app. simpl List.length.
    assert (H : sizes l <= List.length (join (str ",") (map element_text l))).
    { induction l as [|x l IH]; [simpl; lia|].
      inversion IHl as [|? ? Hx Hl]; subst.
      cbn [forallb] in Hsafe. apply andb_true_iff in Hsafe.
      destruct Hsafe as [Hsx Hsl].
      cbn [map]. pose proof (length_join_ge (str ",") (element_text x)
                               (map element_text l)) as Hj.
      specialize (Hx Hsx). specialize (IH Hl Hsl).
      change (sizes (x :: l)) with (size x + sizes l). lia. }
    lia.
  - rewrite size_object. unfold element_text. rewrite stringify_object.
    rewrite json_safe_object in Hsafe. apply andb_true_iff in Hsafe.
    destruct Hsafe as [_ Hmem].
    rewrite !length_app. simpl List.length.
    assert (H : member_sizes o <= List.length (join (str ",") (member_texts o))).
    { clear - IHo Hmem. induction o as [|[k x] o IH]; [simpl; lia|].
      inversion IHo as [|? ? Hx Ho]; subst. simpl snd in Hx.
      cbn [members_safe] in Hmem. rewrite !andb_true_iff in Hmem.
      destruct Hmem as [[_ Hsx] Hso].
      rewrite member_texts_cons by assumption.
      pose proof (length_join_ge (str ",") (quote k ++ str ":" ++ element_text x)
                    (member_texts o)) as Hj.
      rewrite !length_app in Hj.
      specialize (Hx Hsx). specialize (IH Ho Hso).
      cbn [member_sizes].
      eapply Nat.le_trans; [|exact Hj].
      apply Nat.add_le_mono; [|exact IH].
      eapply Nat.le_trans; [exact Hx|]. apply Nat.le_trans with
        (List.length (str ":") + List.length (element_text x)).
      - apply Nat.le_add_l.
      - apply Nat.le_add_l. }
    lia.
Qed.

(** [JSON.parse] undoes [JSON.stringify] on a representable value. *)
Lemma JSON_parse_text (v : value) :
  json_safe v = true -> JSON_parse (element_text v) = Some v.
Proof.
  intros Hsafe. unfold JSON_parse.
  destruct (element_text_head v Hsafe) as [c [t [Ht Hc]]].
  destruct (value_start_facts c Hc) as [Hws _].
  replace (skip_ws (element_text v)) with (element_text v)
    by (rewrite Ht; symmetry; now apply skip_ws_start).
  pose proof (parse_value_text v Hsafe
                (2 * List.length (element_text v) + 2) []) as Hp.
  rewrite app_nil_r in Hp. rewrite Hp; [reflexivity| |exact I].
  pose proof (size_le_text v Hsafe). lia.
Qed.

(** ** Line terminators *)

Lemma existsb_join (p : N -> bool) (sep : jsstring) (l : list jsstring) :
  existsb p sep = false ->
  (forall x, In x l -> existsb p x = false) ->
  existsb p (join sep l) = false.
Proof.
  intros Hsep. induction l as [|x l IH]; intros H; [reflexivity|].
  destruct l as [|y l].
  - apply H. left. reflexivity.
  - change (join sep (x :: y :: l)) with (x ++ sep ++ join sep (y :: l)).
    rewrite !existsb_app, Hsep, (H x) by (left; reflexivity).
    simpl. apply IH. intros z Hz. apply H. right. exact Hz.
Qed.

Lemma quote_unit_no_line_terminator (c : N) :
  (N.eqb c 8232 || N.eqb c 8233)%N = false ->
  existsb is_line_terminator (quote_unit c) = false.
Proof.
  intros Hc. apply orb_false_iff in Hc. destruct Hc as [H1 H2].
  unfold quote_unit.
  destruct (N.eqb_spec c 34) as [->|H34]; [reflexivity|].
  destruct (N.eqb_spec c 92) as [->|H92]; [reflexivity|].
  destruct (N.eqb_spec c 8) as [->|H8]; [reflexivity|].
  destruct (N.eqb_spec c 12) as [->|H12]; [reflexivity|].
  destruct (N.eqb_spec c 10) as [->|H10]; [reflexivity|].
  destruct (N.eqb_spec c 13) as [->|H13]; [reflexivity|].
  destruct (N.eqb_spec c 9) as [->|H9]; [reflexivity|].
  destruct (c <? 32)%N eqn:Hlt.
  - apply N.ltb_lt in Hlt.
    assert (Hin : In c (map N.of_nat (seq 0 32))).
    { apply in_map_iff. exists (N.to_nat c). split; [apply N2Nat.id|].
      apply in_seq. lia. }
    simpl in Hin.
    repeat (destruct Hin as [<-|Hin]; [reflexivity|]). contradiction.
  - simpl. unfold is_line_terminator. rewrite H1, H2.
    apply N.eqb_neq in H10, H13. now rewrite H10, H13.
Qed.

Lemma quote_no_line_terminator (s : jsstring) :
  key_safe s = true -> existsb is_line_terminator (quote s) = false.
Proof.
  unfold key_safe, quote. rewrite negb_true_iff. intros Hs.
  rewrite !existsb_app. simpl. rewrite orb_false_r.
  induction s as [|c s IH]; [reflexivity|].
  simpl in Hs. apply orb_false_iff in Hs. destruct Hs as [Hc Hs].
  simpl flat_map. rewrite existsb_app, IH by assumption.
  now rewrite quote_unit_no_line_terminator.
Qed.

Lemma number_text_no_line_terminator (u z : Z) :
  safe_integer u = Some z ->
  existsb is_line_terminator (number_to_string (Fin u)) = false.
Proof.
  intros Hsafe. destruct (safe_integer_spec u z Hsafe) as [Hu Hz].
  pose proof scale_pos as Hs. unfold number_to_string.
  destruct (u =? 0)%Z eqn:E0; [reflexivity|].
  apply Z.eqb_neq in E0. destruct (u <? 0)%Z eqn:Eneg.
  - apply Z.ltb_lt in Eneg. unfold positive_to_string.
    replace (- u)%Z with (- z * scale)%Z by lia.
    rewrite safe_integer_of by lia.
    rewrite existsb_app. simpl.
    apply digits_no_line_terminator, decimal_digits. nia.
  - apply Z.ltb_ge in Eneg. unfold positive_to_string. rewrite Hsafe.
    apply digits_no_line_terminator, decimal_digits. nia.
Qed.

Lemma text_no_line_terminator (v : value) :
  json_safe v = true -> existsb is_line_terminator (element_text v) = false.
Proof.
  induction v as [| |b|n|s|l IHl|o IHo] using value_ind; intros Hsafe;
    try discriminate.
  - reflexivity.
  - destruct b; reflexivity.
  - destruct n as [| |u]; try discriminate.
    simpl in Hsafe. destruct (safe_integer u) as [z|] eqn:E; [|discriminate].
    now apply (number_text_no_line_terminator u z).
  - now apply quote_no_line_terminator.
  - unfold element_text. rewrite stringify_array.
    change (json_safe (VArr l)) with (forallb json_safe l) in Hsafe.
    rewrite !existsb_app. simpl. rewrite orb_false_r.
    apply existsb_join; [reflexivity|].
    intros x Hx. apply in_map_iff in Hx. destruct Hx as [y [<- Hy]].
    rewrite Forall_forall in IHl. apply IHl; [assumption|].
    rewrite forallb_forall in Hsafe. now apply Hsafe.
  - unfold element_text. rewrite stringify_object.
    rewrite json_safe_object in Hsafe. apply andb_true_iff in Hsafe.
    destruct Hsafe as [_ Hmem].
    rewrite !existsb_app. simpl. rewrite orb_false_r.
    apply existsb_join; [reflexivity|].
    clear - IHo Hmem. induction o as [|[k x] o IH]; [intros y []|].
    inversion IHo as [|? ? Hx Ho]; subst. simpl snd in Hx.
    cbn [members_safe] in Hmem. rewrite !andb_true_iff in Hmem.
    destruct Hmem as [[Hk Hsx] Hso].
    rewrite member_texts_cons by assumption.
    intros y [<-|Hy]; [|now apply IH].
    rewrite !existsb_app. rewrite quote_no_line_terminator by assumption.
    rewrite (Hx Hsx). reflexivity.
Qed.

(** ** Deep equality is reflexive on representable values *)



Lemma number_to_string_Int (z : Z) :
  (0 < z < 2 ^ 53)%Z -> number_to_string (Int z) = decimal z.
Proof.
  intros Hz. pose proof scale_pos as Hs. unfold number_to_string, Int.
  replace (z * scale =? 0)%Z with false by (symmetry; apply Z.eqb_neq; nia).
  replace (z * scale <? 0)%Z with false by (symmetry; apply Z.ltb_ge; nia).
  unfold positive_to_string. now rewrite safe_integer_of by lia.
Qed.

Lemma truthy_Int (z : Z) : (0 < z)%Z -> truthy (VNum (Int z)) = true.
Proof.
  intros Hz. pose proof scale_pos as Hs. unfold Int. cbn [truthy].
  apply negb_true_iff, Z.eqb_neq. nia.
Qed.

Lemma split_serialized_bare (text t : jsstring) :
  text = 123%N :: t -> existsb is_line_terminator text = false ->
  split_serialized text = Some (None, text).
Proof.
  intros Ht HLT. unfold split_serialized. rewrite HLT. rewrite Ht. reflexivity.
Qed.

Lemma split_serialized_site (z : Z) (text : jsstring) :
  (0 < z)%Z -> existsb is_line_terminator text = false ->
  split_serialized (decimal z ++ str ":" ++ text) = Some (Some (decimal z), text).
Proof.
  intros Hz HLT. unfold split_serialized.
  pose proof (decimal_digits z ltac:(lia)) as Hdig.
  rewrite !existsb_app, HLT, (digits_no_line_terminator _ Hdig). simpl existsb.
  cbn [orb].
  rewrite (span_digits_app (decimal z) (str ":" ++ text)); [|assumption|reflexivity].
  destruct (decimal z) as [|c d] eqn:E; [now apply decimal_nonempty in E|].
  reflexivity.
Qed.
(* ================================================================== *)
(** * Properties of the module *)
(* ================================================================== *)

Section Properties.

(** The default query, [DEFAULT_THEME_QUERY] in the source. *)
Variable D : object.
Variable toLowerCase : jsstring -> jsstring.
Variable stringToPath : jsstring -> list jsstring.


Lemma getNormalizedThemesQuery_idem (q : value) :
  getNormalizedThemesQuery D (getNormalizedThemesQuery D q) = getNormalizedThemesQuery D q.
Proof.
  unfold getNormalizedThemesQuery. f_equal. apply omitBy_idem.
Qed.

(** C2. Serializing the normalized query gives the same key as
    serializing the query itself, for every query and every site id. *)
Theorem serialize_normalized_same_key (q s : value) :
  getSerializedThemesQuery D (getNormalizedThemesQuery D q) s =
  getSerializedThemesQuery D q s.
Proof.
  unfold getSerializedThemesQuery.
  replace (match getNormalizedThemesQuery D q with
           | VUndef => VObj []
           | _ => getNormalizedThemesQuery D q
           end) with (getNormalizedThemesQuery D q) by reflexivity.
  rewrite getNormalizedThemesQuery_idem.
  destruct q; reflexivity.
Qed.


(** [_.get] with a key that holds neither a dot nor a bracket reads the
    property, and falls back on the default for [undefined]. *)
Lemma get_plain_key (o : value) (k : jsstring) (d : value) :
  is_deep_key k = false ->
  get stringToPath o k d =
  match get_prop o k with
  | Ret VUndef | Throw _ => d
  | Ret x => x
  end.
Proof.
  intros Hk. unfold get, castPath. rewrite Hk. simpl.
  destruct o; simpl; try reflexivity;
    repeat match goal with
           | |- context [if ?c then _ else _] => destruct c; simpl
           end;
    try reflexivity;
    match goal with
    | |- context [prop ?a ?b] => destruct (prop a b); reflexivity
    end.
Qed.





(** C7, as amended. A theme object whose [tags] is missing (or falsy) is
    returned unchanged.  A theme object whose [tags] is a sequence comes
    back without [tags] and with [taxonomies] set to an object whose only
    field, [theme_feature], holds one term per tag, in order, each with a
    [slug] and nothing else; every field other than [tags] and
    [taxonomies] is preserved.  The input's own [taxonomies], if any, is
    replaced. *)
Theorem normalizeJetpackTheme_spec (o : object) :
  NoDup (keys o) ->
  (lookup (str "tags") o = None -> normalizeJetpackTheme (VObj o) = Ret (VObj o)) /\
  (truthy (prop (str "tags") o) = false ->
   normalizeJetpackTheme (VObj o) = Ret (VObj o)) /\
  (forall tags,
      lookup (str "tags") o = Some (VArr tags) ->
      exists r,
        normalizeJetpackTheme (VObj o) = Ret (VObj r) /\
        lookup (str "tags") r = None /\
        lookup (str "taxonomies") r =
          Some (VObj [(str "theme_feature",
                       VArr (map (fun slug => VObj [(str "slug", slug)]) tags))]) /\
        (forall k, k <> str "tags" -> k <> str "taxonomies" ->
                   lookup k r = lookup k o)) /\
  normalizeJetpackTheme (VObj [(str "tags", VArr [VStr (str "a"); VStr (str "b")])]) =
    Ret (VObj [(str "taxonomies",
                VObj [(str "theme_feature",
                       VArr [VObj [(str "slug", VStr (str "a"))];
                             VObj [(str "slug", VStr (str "b"))]])])]).
Proof.
  intros Hnd.
  assert (Hfalsy : truthy (prop (str "tags") o) = false ->
                   normalizeJetpackTheme (VObj o) = Ret (VObj o)).
  { intros H. unfold normalizeJetpackTheme. simpl. now rewrite H. }
  split; [|split; [exact Hfalsy|split]].
  - intros H. apply Hfalsy. unfold prop. now rewrite H.
  - intros tags Htags. eexists.
    split.
    { unfold normalizeJetpackTheme.
      change (get_prop (VObj o) (str "tags")) with (Ret (prop (str "tags") o)).
      unfold prop at 1. rewrite Htags. cbn [bind truthy negb].
      rewrite (lodash_map_array (fun slug => VObj [(str "slug", slug)])).
      reflexivity. }
    rewrite from_entries_wf by apply wf_omit.
    split; [|split].
    + rewrite lookup_obj_set, lookup_omit by assumption. reflexivity.
    + rewrite lookup_obj_set. reflexivity.
    + intros k Hk1 Hk2. rewrite lookup_obj_set, lookup_omit by assumption.
      apply str_eqb_neq in Hk1, Hk2. now rewrite Hk1, Hk2.
  - vm_compute. reflexivity.
Qed.

Lemma wporg_rename_plain (k : jsstring) :
  is_deep_key k = false ->
  to_string
    (get stringToPath
         (VObj [(str "slug", VStr (str "id"));
                (str "preview_url", VStr (str "demo_uri"));
                (str "screenshot_url", VStr (str "screenshot"));
                (str "download_link", VStr (str "download"))])
         k (VStr k)) = wporg_key k.
Proof.
  intros Hk. rewrite get_plain_key by assumption.
  unfold wporg_key, get_prop, prop. simpl.
  repeat match goal with
         | |- context [str_eqb k ?s] => destruct (str_eqb k s); [reflexivity|]
         end.
  reflexivity.
Qed.


Lemma filter_clause_eval (t : object) (s : jsstring) :
  s <> [] ->
  filter_clause (VObj t) (VStr s) =
  Ret (VBool
         (forallb
            (fun f =>
               existsb (fun terms =>
                          existsb (matches_property (str "slug") f) (elements terms))
                       (elements (prop (str "taxonomies") t)))
            (map VStr (split_on 44 s)))).
Proof.
  intros Hs. unfold filter_clause.
  assert (Ht : truthy (VStr s) = true) by (destruct s; [congruence | reflexivity]).
  rewrite Ht. cbn [negb call_split_comma bind].
  erewrite every_truthy.
  - rewrite elements_array. reflexivity.
  - intros k f _. cbn [get_prop bind].
    erewrite some_truthy.
    + cbn [bind]. eexists. split; [reflexivity|]. reflexivity.
    + intros k' terms _.
      erewrite some_truthy.
      * cbn [bind]. eexists. split; [reflexivity|]. reflexivity.
      * intros k'' term _. eexists. split; [reflexivity|]. reflexivity.
Qed.




Lemma field_includes_optional (v : value) (ls : jsstring) :
  optional_string v ->
  exists r, field_includes toLowerCase v ls = Ret r /\
            truthy r = field_matches toLowerCase ls v.
Proof.
  intros [->|[s ->]].
  - exists VUndef. split; reflexivity.
  - destruct s as [|c s].
    + exists (VStr []). split; reflexivity.
    + eexists. split; [reflexivity|]. reflexivity.
Qed.

Lemma found_in_taxonomies (t : object) (terms : list value) (ls : jsstring) :
  feature_terms t terms ->
  (forall term, In term terms ->
                exists n, get_prop term (str "name") = Ret n /\ optional_string n) ->
  some SEARCH_TAXONOMIES (fun taxonomy _ =>
    taxonomies <- get_prop (VObj t) (str "taxonomies") ;;
    js_and taxonomies
      (terms <- get_prop taxonomies (str "theme_" ++ to_string taxonomy) ;;
       found <- some terms (fun term _ =>
                  name <- get_prop term (str "name") ;;
                  field_includes toLowerCase name ls) ;;
       Ret (VBool found))) =
  Ret (existsb (term_matches toLowerCase ls) terms).
Proof.
  intros Hft Hterms.
  unfold some at 1. unfold SEARCH_TAXONOMIES. cbn [collection_entries indexed_from map some_entries fst snd].
  cbn [get_prop bind to_string].
  change (str "theme_" ++ str "feature") with (str "theme_feature").
  destruct Hft as [[Hu ->]|[taxo [Htaxo [[Hu ->]|Harr]]]].
  - rewrite Hu. reflexivity.
  - rewrite Htaxo. cbn [js_and truthy get_prop bind]. rewrite Hu. reflexivity.
  - rewrite Htaxo. cbn [js_and truthy get_prop bind]. rewrite Harr.
    erewrite some_truthy with (p := term_matches toLowerCase ls).
    + rewrite elements_array. cbn [bind truthy].
      destruct (existsb (term_matches toLowerCase ls) terms); reflexivity.
    + intros k x Hin. apply In_collection_elements in Hin.
      rewrite elements_array in Hin.
      destruct (Hterms x Hin) as [n [Hn Hopt]].
      unfold term_matches. rewrite Hn. cbn [bind].
      now apply field_includes_optional.
Qed.

Lemma search_clause_eval (t : object) (terms : list value) (search : jsstring) :
  searchable_theme t terms -> search <> [] ->
  exists r,
    search_clause toLowerCase (VObj t) (VStr search) = Ret r /\
    truthy r =
    existsb (term_matches toLowerCase (toLowerCase search)) terms ||
    field_matches toLowerCase (toLowerCase search) (prop (str "name") t) ||
    field_matches toLowerCase (toLowerCase search) (prop (str "author") t) ||
    field_matches toLowerCase (toLowerCase search) (prop (str "descriptionLong") t).
Proof.
  intros [Hname [Hauthor [Hdesc [Hft Hterms]]]] Hs.
  unfold search_clause.
  assert (Ht : truthy (VStr search) = true) by (destruct search; [congruence | reflexivity]).
  rewrite Ht. cbn [negb call_toLowerCase bind].
  rewrite (found_in_taxonomies t terms (toLowerCase search) Hft Hterms).
  cbn [bind].
  destruct (existsb (term_matches toLowerCase (toLowerCase search)) terms).
  { eexists. split; reflexivity. }
  cbn [js_or truthy get_prop bind orb].
  destruct (field_includes_optional _ (toLowerCase search) Hname) as [r1 [H1 T1]].
  destruct (field_includes_optional _ (toLowerCase search) Hauthor) as [r2 [H2 T2]].
  destruct (field_includes_optional _ (toLowerCase search) Hdesc) as [r3 [H3 T3]].
  rewrite H1. cbn [bind]. unfold js_or. rewrite T1.
  destruct (field_matches toLowerCase (toLowerCase search) (prop (str "name") t)).
  { exists r1. split; [reflexivity | assumption]. }
  rewrite H2. cbn [bind]. rewrite T2.
  destruct (field_matches toLowerCase (toLowerCase search) (prop (str "author") t)).
  { exists r2. split; [reflexivity | assumption]. }
  exists r3. split; [assumption|]. now rewrite T3.
Qed.


(** C10. A site id of 0 is no site id: serializing with 0 gives the key
    that serializing without a site id gives, which is the JSON text of
    the normalized query and starts with its opening brace; and a key that
    begins with [0:] deserializes to an undefined site id. *)
Theorem zero_site_id_is_no_site_id (q : value) :
  getSerializedThemesQuery D q (VNum (Int 0)) = getSerializedThemesQuery D q VUndef /\
  getSerializedThemesQuery D q (VNum (Int 0)) =
    JSON_stringify (getNormalizedThemesQuery D
                      (match q with VUndef => VObj [] | _ => q end)) /\
  (exists body,
      getSerializedThemesQuery D q (VNum (Int 0)) = VStr (str "{" ++ body)) /\
  (forall s,
      siteId (getDeserializedThemesQueryDetails (str "0:" ++ s)) = VUndef).
Proof.
  split; [reflexivity|]. split; [reflexivity|]. split.
  - unfold getSerializedThemesQuery, getNormalizedThemesQuery, JSON_stringify.
    cbn [truthy Int]. simpl Z.mul. cbn [Z.eqb negb stringify].
    eexists. reflexivity.
  - intros s. rewrite getDeserializedThemesQueryDetails_unfold.
    unfold split_serialized.
    destruct (existsb is_line_terminator (str "0:" ++ s)); [reflexivity|].
    change (str "0:" ++ s) with (48%N :: 58%N :: s).
    cbn [span_digits]. replace (is_digit 48) with true by reflexivity.
    destruct s as [|c s].
    + reflexivity.
    + cbn [span_digits]. replace (is_digit 58) with false by reflexivity.
      reflexivity.
Qed.

(** C4, as amended. [getDeserializedThemesQueryDetails] is a total
    function of its string.  Its [siteId] is [undefined], a positive
    integer, or [Infinity]: it is the number that the leading run of
    digits converts to when a colon follows that run and the number is not
    zero, and a run too long for a finite number converts to [Infinity].
    Its [query] is what [JSON.parse] gives for the rest, and [undefined]
    when that text is malformed; both fields are [undefined] when the
    string holds a line terminator, for the expression then does not
    match. *)
Theorem deserialization_never_fails (s : jsstring) :
  (siteId (getDeserializedThemesQueryDetails s) = VUndef \/
   siteId (getDeserializedThemesQueryDetails s) = VNum (Inf false) \/
   exists z, (0 < z)%Z /\
             siteId (getDeserializedThemesQueryDetails s) = VNum (Int z)) /\
  (split_serialized s = None ->
   getDeserializedThemesQueryDetails s = {| siteId := VUndef; query := VUndef |}) /\
  (forall d rest,
      split_serialized s = Some (d, rest) ->
      query (getDeserializedThemesQueryDetails s) =
        match JSON_parse rest with Some v => v | None => VUndef end /\
      (JSON_parse rest = None ->
       query (getDeserializedThemesQueryDetails s) = VUndef) /\
      (d = None -> siteId (getDeserializedThemesQueryDetails s) = VUndef) /\
      (forall ds, d = Some ds ->
                  siteId (getDeserializedThemesQueryDetails s) =
                  if (digits_value ds =? 0)%Z then VUndef
                  else VNum (round_to_double (digits_value ds) 1))).
Proof.
  rewrite getDeserializedThemesQueryDetails_unfold.
  destruct (split_serialized s) as [[d rest]|] eqn:Es.
  2:{ split; [left; reflexivity|]. split; [reflexivity|]. discriminate. }
  assert (Hsite : forall ds, d = Some ds ->
            (if truthy (VNum (Number_of_capture d))
             then VNum (Number_of_capture d) else VUndef) =
            if (digits_value ds =? 0)%Z then VUndef
            else VNum (round_to_double (digits_value ds) 1)).
  { intros ds ->. destruct (split_serialized_digits s ds rest Es) as [Hd [Hne _]].
    destruct (Number_of_digits ds Hd Hne) as [HN HT].
    rewrite HT, HN. now destruct (digits_value ds =? 0)%Z. }
  cbn [siteId query].
  split; [|split; [discriminate|]].
  - destruct d as [ds|]; [|left; reflexivity].
    rewrite (Hsite ds eq_refl).
    destruct (split_serialized_digits s ds rest Es) as [Hd [Hne _]].
    pose proof (digits_value_nonneg ds Hd) as Hnn.
    destruct (digits_value ds =? 0)%Z eqn:E; [left; reflexivity|].
    apply Z.eqb_neq in E.
    destruct (round_to_double_integer (digits_value ds)) as [H|[z [Hz H]]];
      [lia | | ]; rewrite H.
    + right. left. reflexivity.
    + right. right. exists z. split; [assumption | reflexivity].
  - intros d' rest' H. injection H as <- <-.
    split; [reflexivity|]. split; [intros ->; reflexivity|].
    split; [intros ->; reflexivity|]. exact Hsite.
Qed.

Lemma getNormalizedThemesQuery_default (q : value) :
  getNormalizedThemesQuery D (match q with VUndef => VObj [] | _ => q end) =
  getNormalizedThemesQuery D q.
Proof. destruct q; reflexivity. Qed.

End Properties.

(* ================================================================== *)
(** * Further lemmas on the primitives *)
(* ================================================================== *)

Lemma split_on_whole (sep : N) (s : jsstring) :
  existsb (fun c => N.eqb c sep) s = false -> split_on sep s = [s].
Proof.
  induction s as [|c s IH]; simpl; [reflexivity|].
  destruct (N.eqb c sep); simpl; [discriminate|].
  intros H. now rewrite IH.
Qed.

Lemma split_on_app (sep : N) (p q : jsstring) :
  existsb (fun c => N.eqb c sep) p = false ->
  split_on sep (p ++ sep :: q) = p :: split_on sep q.
Proof.
  induction p as [|c p IH]; simpl.
  - now rewrite N.eqb_refl.
  - destruct (N.eqb c sep); simpl; [discriminate|].
    intros H. now rewrite IH.
Qed.

Lemma split_on_pieces (sep : N) (s x : jsstring) :
  In x (split_on sep s) -> existsb (fun c => N.eqb c sep) x = false.
Proof.
  revert x. induction s as [|c s IH]; simpl; intros x.
  - intros [<-|[]]. reflexivity.
  - destruct (N.eqb c sep) eqn:E.
    + intros [<-|H]; [reflexivity | now apply IH].
    + destruct (split_on sep s) as [|p ps].
      * intros [<-|[]]. simpl. now rewrite E.
      * intros [<-|H].
        -- simpl. rewrite E. apply IH. now left.
        -- apply IH. now right.
Qed.

Lemma wf_filter (f : jsstring * value -> bool) (o : object) :
  wf_object o = true -> wf_object (filter f o) = true.
Proof.
  unfold wf_object.
  induction o as [|[k v] o IH]; simpl; [reflexivity|].
  rewrite andb_true_iff. intros [Hall Hwf].
  destruct (f (k, v)); simpl; auto.
  rewrite IH by assumption. rewrite andb_true_r.
  rewrite forallb_forall in *. intros x Hx. apply Hall.
  eapply keys_filter_incl; eauto.
Qed.

Lemma filter_filter_weaker {A : Type} (f g : A -> bool) (l : list A) :
  (forall x, In x l -> f x = true -> g x = true) ->
  filter f (filter g l) = filter f l.
Proof.
  induction l as [|x l IH]; intros H; [reflexivity|].
  simpl. destruct (g x) eqn:Eg; simpl.
  - rewrite IH; [reflexivity|]. intros y Hy. apply H. now right.
  - destruct (f x) eqn:Ef.
    + rewrite (H x (or_introl eq_refl) Ef) in Eg. discriminate.
    + apply IH. intros y Hy. apply H. now right.
Qed.

(** Setting a key does not show once that key is filtered out. *)
Lemma filter_replace_value (k : jsstring) (v : value) (o : object) :
  filter (fun kv => negb (str_eqb (fst kv) k)) (replace_value k v o) =
  filter (fun kv => negb (str_eqb (fst kv) k)) o.
Proof.
  induction o as [|[k' v'] o IH]; [reflexivity|].
  simpl. destruct (str_eqb k k') eqn:E.
  - simpl. rewrite str_eqb_sym, E. reflexivity.
  - simpl. rewrite str_eqb_sym, E. simpl. now rewrite IH.
Qed.

Lemma filter_insert_index (i : Z) (k : jsstring) (v : value) (o : object) :
  filter (fun kv => negb (str_eqb (fst kv) k)) (insert_index i k v o) =
  filter (fun kv => negb (str_eqb (fst kv) k)) o.
Proof.
  induction o as [|[k' v'] o IH]; simpl.
  - now rewrite str_eqb_refl.
  - destruct (array_index k') as [i'|].
    + destruct (i' <? i)%Z; simpl.
      * now rewrite IH.
      * now rewrite str_eqb_refl.
    + simpl. now rewrite str_eqb_refl.
Qed.

Lemma filter_obj_set (k : jsstring) (v : value) (o : object) :
  filter (fun kv => negb (str_eqb (fst kv) k)) (obj_set k v o) =
  filter (fun kv => negb (str_eqb (fst kv) k)) o.
Proof.
  unfold obj_set. destruct (has_key k o).
  - apply filter_replace_value.
  - destruct (array_index k) as [i|].
    + apply filter_insert_index.
    + rewrite filter_app. simpl. rewrite str_eqb_refl. simpl. apply app_nil_r.
Qed.

Lemma filter_entries_truthy (f : value -> value -> result value)
      (p : value -> bool) (l : list (value * value)) :
  (forall k x, In (k, x) l -> exists r, f x k = Ret r /\ truthy r = p x) ->
  filter_entries f l = Ret (filter p (map snd l)).
Proof.
  induction l as [|[k x] l IH]; intros H; [reflexivity|].
  cbn [filter_entries map snd filter].
  destruct (H k x (or_introl eq_refl)) as [r [Hr Ht]].
  rewrite Hr. cbn [bind]. rewrite IH.
  - cbn [bind]. now rewrite Ht.
  - intros k' x' Hin. apply H. now right.
Qed.

Lemma filter_entries_kept (f : value -> value -> result value)
      (l : list (value * value)) (kept : list value) :
  filter_entries f l = Ret kept ->
  forall x, In x kept ->
            exists k r, In (k, x) l /\ f x k = Ret r /\ truthy r = true.
Proof.
  revert kept. induction l as [|[k x] l IH]; intros kept H y Hy.
  - injection H as <-. destruct Hy.
  - cbn [filter_entries] in H.
    destruct (f x k) as [r|e] eqn:Er; [|discriminate].
    cbn [bind] in H.
    destruct (filter_entries f l) as [rest|e]; [|discriminate].
    cbn [bind] in H. injection H as <-.
    destruct (truthy r) eqn:Et.
    + destruct Hy as [<-|Hy].
      * exists k, r. split; [now left|]. split; assumption.
      * destruct (IH rest eq_refl y Hy) as [k' [r' [Hin H']]].
        exists k', r'. split; [now right | assumption].
    + destruct (IH rest eq_refl y Hy) as [k' [r' [Hin H']]].
      exists k', r'. split; [now right | assumption].
Qed.

Lemma In_collection_entries_object (o : object) (k x : value) :
  In (k, x) (collection_entries (VObj o)) ->
  (exists n, k = VNum n) \/ (exists k0, k = VStr k0 /\ In (k0, x) o).
Proof.
  cbn [collection_entries].
  assert (Hkeys : In (k, x) (map (fun kv => (VStr (fst kv), snd kv)) o) ->
                  exists k0, k = VStr k0 /\ In (k0, x) o).
  { intros H. apply in_map_iff in H. destruct H as [[k0 x0] [Heq Hin]].
    simpl in Heq. injection Heq as <- <-. eauto. }
  destruct (lookup (str "length") o) as [len|]; [|auto].
  destruct (isLength len) as [n|]; [|auto].
  intros H. apply in_map_iff in H. destruct H as [i [Heq _]].
  injection Heq as <- _. eauto.
Qed.

Lemma keys_obj_set (k k' : jsstring) (v : value) (o : object) :
  In k (keys (obj_set k' v o)) -> k = k' \/ In k (keys o).
Proof.
  unfold keys. intros H. apply in_map_iff in H. destruct H as [[k0 v0] [<- Hin]].
  apply In_obj_set in Hin. destruct Hin as [Heq|Hin].
  - injection Heq as -> _. now left.
  - right. apply in_map_iff. exists (k0, v0). auto.
Qed.

Lemma keys_fold_obj_set (key_of : jsstring * value -> jsstring)
      (l acc : object) (k : jsstring) :
  In k (keys (fold_left (fun a kv => obj_set (key_of kv) (snd kv) a) l acc)) ->
  In k (keys acc) \/ In k (map key_of l).
Proof.
  revert acc. induction l as [|kv l IH]; intros acc H; [now left|].
  simpl in H. apply IH in H. destruct H as [H|H].
  - apply keys_obj_set in H. destruct H as [->|H]; [right; now left | now left].
  - right. now right.
Qed.

Lemma keys_from_entries (l : object) (k : jsstring) :
  In k (keys (from_entries l)) -> In k (keys l).
Proof.
  unfold keys. intros H. apply in_map_iff in H. destruct H as [[k0 v0] [<- Hin]].
  apply In_from_entries in Hin. apply in_map_iff. exists (k0, v0). auto.
Qed.

(** The key that [_.omit] removes is not in its result. *)
Lemma lookup_omitted (v : value) (k : jsstring) : lookup k (omit v k) = None.
Proof.
  apply lookup_None_iff. intros H. unfold omit in H.
  apply keys_from_entries, in_map_iff in H. destruct H as [[k0 v0] [Hk Hin]].
  simpl in Hk. subst k0. apply filter_In in Hin. destruct Hin as [_ Hin].
  simpl in Hin. now rewrite str_eqb_refl in Hin.
Qed.

Lemma keys_omit (v : value) (k k' : jsstring) :
  In k' (keys (omit v k)) -> In k' (keys (own_entries v)).
Proof.
  unfold omit. intros H. apply keys_from_entries in H.
  eapply keys_filter_incl. exact H.
Qed.

(** [_.mapKeys] with an iteratee that gives each key of a well-formed
    object back returns that object. *)
Lemma mapKeys_stable (o : object) (f : value -> jsstring -> value) :
  wf_object o = true ->
  (forall k v, In (k, v) o -> to_string (f v k) = k) ->
  mapKeys (VObj o) f = o.
Proof.
  intros Hwf Hf. rewrite <- (from_entries_wf o Hwf) at 2.
  unfold mapKeys, from_entries, assign. cbn [own_entries].
  apply fold_left_ext_in. intros acc [k v] Hin. cbn [fst snd].
  now rewrite (Hf k v Hin).
Qed.

Lemma wf_mapKeys (v : value) (f : value -> jsstring -> value) :
  wf_object (mapKeys v f) = true.
Proof.
  unfold mapKeys.
  apply (wf_fold_obj_set (fun kv => to_string (f (snd kv) (fst kv)))).
  reflexivity.
Qed.

Lemma keys_mapKeys (v : value) (f : value -> jsstring -> value) (k : jsstring) :
  In k (keys (mapKeys v f)) ->
  exists k0 x, In (k0, x) (own_entries v) /\ k = to_string (f x k0).
Proof.
  unfold mapKeys. intros H.
  apply (keys_fold_obj_set (fun kv => to_string (f (snd kv) (fst kv)))) in H.
  destruct H as [[]|H]. apply in_map_iff in H. destruct H as [[k0 x] [<- Hin]].
  eauto.
Qed.

Lemma wpcom_key_idem (k : jsstring) : wpcom_key (wpcom_key k) = wpcom_key k.
Proof.
  unfold wpcom_key.
  destruct (str_eqb k (str "description_long")) eqn:E1; [reflexivity|].
  destruct (str_eqb k (str "support_documentation")) eqn:E2; [reflexivity|].
  destruct (str_eqb k (str "download_uri")) eqn:E3; [reflexivity|].
  now rewrite E1, E2, E3.
Qed.

Lemma wpcom_key_plain (k : jsstring) :
  is_deep_key k = false -> is_deep_key (wpcom_key k) = false.
Proof.
  intros H. unfold wpcom_key.
  repeat match goal with
         | |- context [if ?c then _ else _] => destruct c; [reflexivity|]
         end.
  exact H.
Qed.

Lemma wporg_key_idem (k : jsstring) : wporg_key (wporg_key k) = wporg_key k.
Proof.
  unfold wporg_key.
  destruct (str_eqb k (str "slug")) eqn:E1; [reflexivity|].
  destruct (str_eqb k (str "preview_url")) eqn:E2; [reflexivity|].
  destruct (str_eqb k (str "screenshot_url")) eqn:E3; [reflexivity|].
  destruct (str_eqb k (str "download_link")) eqn:E4; [reflexivity|].
  now rewrite E1, E2, E3, E4.
Qed.

Lemma wporg_key_plain (k : jsstring) :
  is_deep_key k = false -> is_deep_key (wporg_key k) = false.
Proof.
  intros H. unfold wporg_key.
  repeat match goal with
         | |- context [if ?c then _ else _] => destruct c; [reflexivity|]
         end.
  exact H.
Qed.

Lemma every_entries_keyed (f : value -> value -> result value)
      (p : value * value -> bool) (l : list (value * value)) :
  (forall k x, In (k, x) l -> exists r, f x k = Ret r /\ truthy r = p (k, x)) ->
  every_entries f l = Ret (forallb p l).
Proof.
  induction l as [|[k x] l IH]; intros H; [reflexivity|].
  cbn [every_entries forallb].
  destruct (H k x (or_introl eq_refl)) as [r [Hr Ht]].
  rewrite Hr. cbn [bind]. rewrite Ht.
  destruct (p (k, x)); [|reflexivity].
  apply IH. intros k' x' Hin. apply H. now right.
Qed.

(** [_.every] raises what its iteratee raises, when the elements before
    the raising one satisfy it. *)
Lemma every_entries_throw (f : value -> value -> result value) (e : error)
      (l : list (value * value)) :
  (exists k x, In (k, x) l /\ f x k = Throw e) ->
  (forall k x, In (k, x) l ->
               f x k = Throw e \/ exists r, f x k = Ret r /\ truthy r = true) ->
  every_entries f l = Throw e.
Proof.
  induction l as [|[k x] l IH]; intros [k0 [x0 [Hin Hthrow]]] Hall.
  - destruct Hin.
  - cbn [every_entries].
    destruct (Hall k x (or_introl eq_refl)) as [H|[r [Hr Ht]]].
    + now rewrite H.
    + rewrite Hr. cbn [bind]. rewrite Ht. apply IH.
      * destruct Hin as [Heq|Hin].
        -- injection Heq as <- <-. rewrite Hr in Hthrow. discriminate.
        -- eauto.
      * intros k' x' Hin'. apply Hall. now right.
Qed.

Lemma split_on_nonempty (sep : N) (s : jsstring) : split_on sep s <> [].
Proof.
  destruct s as [|c s]; simpl; [discriminate|].
  destruct (N.eqb c sep); [discriminate|].
  destruct (split_on sep s); discriminate.
Qed.

(** ** Filtering an object by its keys *)

Section FilterKeys.

Variable pk : jsstring -> bool.

Let P (kv : jsstring * value) : bool := pk (fst kv).

Lemma filter_keys_replace_out (k : jsstring) (v : value) (o : object) :
  pk k = false -> filter P (replace_value k v o) = filter P o.
Proof.
  intros Hk. induction o as [|[k' v'] o IH]; [reflexivity|].
  cbn [replace_value]. destruct (str_eqb k k') eqn:E.
  - apply str_eqb_eq in E. subst k'. cbn [filter].
    change (P (k, v)) with (pk k). change (P (k, v')) with (pk k).
    now rewrite Hk.
  - cbn [filter]. now rewrite IH.
Qed.

Lemma filter_keys_insert_out (i : Z) (k : jsstring) (v : value) (o : object) :
  pk k = false -> filter P (insert_index i k v o) = filter P o.
Proof.
  intros Hk.
  assert (Hhead : forall l, filter P ((k, v) :: l) = filter P l).
  { intros l. cbn [filter]. change (P (k, v)) with (pk k). now rewrite Hk. }
  induction o as [|[k' v'] o IH]; cbn [insert_index].
  - apply Hhead.
  - destruct (array_index k') as [i'|]; [|apply Hhead].
    destruct (i' <? i)%Z; [|apply Hhead].
    cbn [filter]. now rewrite IH.
Qed.

Lemma filter_keys_obj_set_out (k : jsstring) (v : value) (o : object) :
  pk k = false -> filter P (obj_set k v o) = filter P o.
Proof.
  intros Hk. unfold obj_set. destruct (has_key k o).
  - now apply filter_keys_replace_out.
  - destruct (array_index k) as [i|].
    + now apply filter_keys_insert_out.
    + rewrite filter_app. cbn [filter]. change (P (k, v)) with (pk k). rewrite Hk.
      apply app_nil_r.
Qed.

Lemma lookup_filter_keys (k : jsstring) (o : object) :
  pk k = true -> lookup k (filter P o) = lookup k o.
Proof.
  intros Hk. induction o as [|[k' v'] o IH]; [reflexivity|].
  cbn [filter lookup]. change (P (k', v')) with (pk k').
  destruct (str_eqb k k') eqn:E.
  - apply str_eqb_eq in E. subst k'. rewrite Hk. cbn [lookup].
    now rewrite str_eqb_refl.
  - destruct (pk k'); [|exact IH]. cbn [lookup]. now rewrite E.
Qed.

Lemma filter_keys_replace_in (k : jsstring) (v : value) (o : object) :
  pk k = true -> filter P (replace_value k v o) = replace_value k v (filter P o).
Proof.
  intros Hk. induction o as [|[k' v'] o IH]; [reflexivity|].
  cbn [replace_value]. destruct (str_eqb k k') eqn:E.
  - apply str_eqb_eq in E. subst k'. cbn [filter].
    change (P (k, v)) with (pk k). change (P (k, v')) with (pk k).
    rewrite Hk. cbn [replace_value]. now rewrite str_eqb_refl.
  - cbn [filter]. change (P (k', v')) with (pk k').
    destruct (pk k'); [|exact IH].
    cbn [replace_value]. rewrite E. now rewrite IH.
Qed.

Lemma filter_keys_obj_set_in (k : jsstring) (v : value) (o : object) :
  pk k = true -> array_index k = None ->
  filter P (obj_set k v o) = obj_set k v (filter P o).
Proof.
  intros Hk Hi. unfold obj_set, has_key.
  rewrite (lookup_filter_keys k o Hk), Hi.
  destruct (lookup k o).
  - now apply filter_keys_replace_in.
  - rewrite filter_app. cbn [filter]. change (P (k, v)) with (pk k). now rewrite Hk.
Qed.

Lemma filter_keys_assign (a b : object) :
  (forall k, pk k = true -> array_index k = None) ->
  filter P (assign a b) = assign (filter P a) (filter P b).
Proof.
  intros Hi. unfold assign. revert a.
  induction b as [|[k v] b IH]; intros a; [reflexivity|].
  cbn [fold_left fst snd filter]. rewrite IH. change (P (k, v)) with (pk k).
  destruct (pk k) eqn:Hk.
  - cbn [fold_left fst snd]. now rewrite filter_keys_obj_set_in by auto.
  - now rewrite filter_keys_obj_set_out.
Qed.

End FilterKeys.


(** [_.filter] calls its predicate on every element: it raises as soon as
    one call does. *)
Lemma filter_entries_throw (f : value -> value -> result value)
      (l : list (value * value)) :
  (exists k x e, In (k, x) l /\ f x k = Throw e) ->
  exists e, filter_entries f l = Throw e.
Proof.
  induction l as [|[k x] l IH]; intros [k0 [x0 [e [Hin Hthrow]]]].
  - destruct Hin.
  - cbn [filter_entries].
    destruct (f x k) as [b|e'] eqn:E; [|exists e'; reflexivity].
    cbn [bind].
    destruct Hin as [Heq|Hin].
    + injection Heq as <- <-. rewrite E in Hthrow. discriminate.
    + destruct IH as [e' He']; [eauto|]. rewrite He'. exists e'. reflexivity.
Qed.

(* ================================================================== *)
(** * Further properties of the module *)
(* ================================================================== *)

Section MoreProperties.

Variable D : object.
Variable toLowerCase : jsstring -> jsstring.
Variable stringToPath : jsstring -> list jsstring.

(** ** [getThemeIdFromStylesheet] *)

Lemma getThemeIdFromStylesheet_string (s : jsstring) :
  getThemeIdFromStylesheet (VStr s) =
  match split_on 47 s with
  | _ :: (_ :: _) as slug :: _ => VStr slug
  | _ => VStr s
  end.
Proof.
  unfold getThemeIdFromStylesheet, lodash_split. cbn [lodash_toString baseToString].
  destruct (split_on 47 s) as [|a [|[|c b] l]]; reflexivity.
Qed.

(** X1. For a stylesheet string made of a first segment, a slash and a
    non-empty second segment, [getThemeIdFromStylesheet] returns the second
    segment, whether or not further segments follow. *)
Theorem theme_id_is_second_segment (p slug : jsstring) :
  no_slash p = true -> no_slash slug = true -> slug <> [] ->
  getThemeIdFromStylesheet (VStr (p ++ str "/" ++ slug)) = VStr slug /\
  forall rest,
    getThemeIdFromStylesheet (VStr (p ++ str "/" ++ slug ++ str "/" ++ rest)) = VStr slug.
Proof.
  unfold no_slash. rewrite !negb_true_iff. intros Hp Hslug Hne.
  split; [|intros rest]; rewrite getThemeIdFromStylesheet_string;
    change (str "/") with [47%N]; cbn [app]; rewrite split_on_app by assumption.
  - rewrite split_on_whole by assumption.
    destruct slug; [congruence | reflexivity].
  - rewrite split_on_app by assumption.
    destruct slug; [congruence | reflexivity].
Qed.

(** X2. A stylesheet string without a slash, or whose second segment is
    empty, is returned as it is. *)
Theorem theme_id_falls_back_on_stylesheet :
  (forall s, no_slash s = true -> getThemeIdFromStylesheet (VStr s) = VStr s) /\
  (forall p, no_slash p = true ->
             getThemeIdFromStylesheet (VStr (p ++ str "/")) = VStr (p ++ str "/")) /\
  (forall p rest,
      no_slash p = true ->
      getThemeIdFromStylesheet (VStr (p ++ str "//" ++ rest)) =
      VStr (p ++ str "//" ++ rest)).
Proof.
  unfold no_slash. split; [|split].
  - intros s Hs. apply negb_true_iff in Hs.
    rewrite getThemeIdFromStylesheet_string, split_on_whole by assumption.
    reflexivity.
  - intros p Hp. apply negb_true_iff in Hp.
    rewrite getThemeIdFromStylesheet_string.
    change (str "/") with [47%N]. rewrite split_on_app by assumption.
    reflexivity.
  - intros p rest Hp. apply negb_true_iff in Hp.
    rewrite getThemeIdFromStylesheet_string.
    change (str "//" ++ rest) with (47%N :: 47%N :: rest).
    rewrite split_on_app by assumption.
    change (47%N :: rest) with ([] ++ 47%N :: rest).
    rewrite split_on_app by reflexivity.
    reflexivity.
Qed.

(** X3. [getThemeIdFromStylesheet] is idempotent on every value: a theme
    id is its own theme id. *)
Theorem getThemeIdFromStylesheet_idempotent (v : value) :
  getThemeIdFromStylesheet (getThemeIdFromStylesheet v) = getThemeIdFromStylesheet v.
Proof.
  assert (H : getThemeIdFromStylesheet v = v \/
              exists slug, no_slash slug = true /\ getThemeIdFromStylesheet v = VStr slug).
  { unfold getThemeIdFromStylesheet, lodash_split.
    pose proof (split_on_pieces 47 (lodash_toString v)) as Hpieces.
    destruct (split_on 47 (lodash_toString v)) as [|a [|[|c b] l]]; auto.
    right. exists (c :: b). split; [|reflexivity].
    unfold no_slash. rewrite Hpieces; [reflexivity|]. right. left. reflexivity. }
  destruct H as [H|[slug [Hs H]]]; rewrite H; [exact H|].
  unfold no_slash in Hs. apply negb_true_iff in Hs.
  now rewrite getThemeIdFromStylesheet_string, split_on_whole.
Qed.

(** ** [getSerializedThemesQueryWithoutPage] *)

(** X4. The page of a query does not show in its key without page:
    setting [page] to any value leaves
    [getSerializedThemesQueryWithoutPage] unchanged, for every site id. *)
Theorem page_is_left_out_of_the_pageless_key (o : object) (p s : value) :
  getSerializedThemesQueryWithoutPage D (VObj (obj_set (str "page") p o)) s =
  getSerializedThemesQueryWithoutPage D (VObj o) s.
Proof.
  unfold getSerializedThemesQueryWithoutPage, omit. cbn [own_entries].
  now rewrite filter_obj_set.
Qed.

(** X5. For a query that has no [page], or whose [page] is the default
    one, the key without page is the key itself. *)
Theorem pageless_key_of_a_default_page (o : object) (s : value) :
  wf_object o = true ->
  lookup (str "page") o = None \/
  strict_eq (prop (str "page") D) (prop (str "page") o) = true ->
  getSerializedThemesQueryWithoutPage D (VObj o) s =
  getSerializedThemesQuery D (VObj o) s.
Proof.
  intros Hwf Hpage.
  unfold getSerializedThemesQueryWithoutPage, getSerializedThemesQuery.
  assert (H : getNormalizedThemesQuery D (VObj (omit (VObj o) (str "page"))) =
              getNormalizedThemesQuery D (VObj o)).
  { unfold getNormalizedThemesQuery, omitBy, omit. cbn [own_entries].
    rewrite (from_entries_wf (filter _ o)) by now apply wf_filter.
    rewrite filter_filter_weaker; [reflexivity|].
    intros [k v] Hin Hkept. cbn [fst snd] in *.
    destruct (str_eqb k (str "page")) eqn:E; [|reflexivity].
    apply str_eqb_eq in E. subst k. exfalso.
    pose proof (lookup_In _ _ _ (wf_object_NoDup o Hwf) Hin) as Hl.
    destruct Hpage as [Hnone|Heq]; [congruence|].
    unfold prop at 2 in Heq. rewrite Hl in Heq. rewrite Heq in Hkept.
    discriminate. }
  now rewrite H.
Qed.

(** ** [filterThemesForJetpack] *)

(** X6. On an array of themes none of which makes the matching throw,
    [filterThemesForJetpack] returns the array of the themes that match
    the query, in their order. *)
Theorem filterThemesForJetpack_keeps_the_matching (l : list value) (q : value)
        (m : value -> bool) :
  (forall t, In t l -> isThemeMatchingQuery D toLowerCase q t = Ret (m t)) ->
  filterThemesForJetpack D toLowerCase (VArr l) q = Ret (VArr (filter m l)).
Proof.
  intros H. unfold filterThemesForJetpack, lodash_filter.
  rewrite (filter_entries_truthy _ m).
  - cbn [bind]. change (map snd (collection_entries (VArr l))) with (elements (VArr l)).
    now rewrite elements_array.
  - intros k x Hin. apply In_collection_elements in Hin.
    rewrite elements_array in Hin. rewrite (H x Hin). cbn [bind].
    eexists. split; reflexivity.
Qed.

(** X7. Filtering is idempotent: filtering the result of
    [filterThemesForJetpack] again by the same query gives that result. *)
Theorem filterThemesForJetpack_idempotent (themes q r : value) :
  filterThemesForJetpack D toLowerCase themes q = Ret r ->
  filterThemesForJetpack D toLowerCase r q = Ret r.
Proof.
  unfold filterThemesForJetpack, lodash_filter.
  destruct (filter_entries _ (collection_entries themes)) as [kept|e] eqn:E;
    [|discriminate].
  cbn [bind]. intros H. injection H as <-.
  rewrite (filter_entries_truthy _ (fun _ => true)).
  - cbn [bind]. change (map snd (collection_entries (VArr kept))) with (elements (VArr kept)).
    rewrite elements_array. do 2 f_equal. apply filter_all. reflexivity.
  - intros k x Hin. apply In_collection_elements in Hin.
    rewrite elements_array in Hin.
    destruct (filter_entries_kept _ _ _ E x Hin) as [k' [r' [_ [Hr Ht]]]].
    exists r'. split; assumption.
Qed.

(** ** [isThemeMatchingQuery] *)

(** X8. A query that, once the defaults are filled in, has a falsy
    [search] and a falsy [filter] matches every theme, a missing theme
    included, so that filtering by it keeps the whole list. *)
Theorem query_without_search_or_filter_matches_all (q : value) :
  wf_object D = true ->
  truthy (prop (str "search") (assign D (own_entries q))) = false ->
  truthy (prop (str "filter") (assign D (own_entries q))) = false ->
  (forall theme, isThemeMatchingQuery D toLowerCase q theme = Ret true) /\
  (forall l, filterThemesForJetpack D toLowerCase (VArr l) q = Ret (VArr l)).
Proof.
  intros Hwf Hsearch Hfilter.
  assert (Hall : forall theme, isThemeMatchingQuery D toLowerCase q theme = Ret true).
  { intros theme. unfold isThemeMatchingQuery, every.
    apply every_entries_all. intros k x Hin.
    exists (VBool true). split; [|reflexivity].
    apply In_collection_entries_object in Hin.
    destruct Hin as [[n ->]|[k0 [-> Hin]]]; [destruct n; reflexivity|].
    pose proof (wf_object_NoDup _ (wf_assign D (own_entries q) Hwf)) as Hnd.
    pose proof (lookup_In _ _ _ Hnd Hin) as Hl.
    unfold matching_clause. cbn [strict_eq].
    destruct (str_eqb k0 (str "search")) eqn:E1.
    - apply str_eqb_eq in E1. subst k0.
      unfold prop in Hsearch. rewrite Hl in Hsearch.
      unfold search_clause. now rewrite Hsearch.
    - destruct (str_eqb k0 (str "filter")) eqn:E2; [|reflexivity].
      apply str_eqb_eq in E2. subst k0.
      unfold prop in Hfilter. rewrite Hl in Hfilter.
      unfold filter_clause. now rewrite Hfilter. }
  split; [exact Hall|].
  intros l. unfold filterThemesForJetpack, lodash_filter.
  rewrite (filter_entries_truthy _ (fun _ => true)).
  - cbn [bind]. change (map snd (collection_entries (VArr l))) with (elements (VArr l)).
    rewrite elements_array. do 2 f_equal. apply filter_all. reflexivity.
  - intros k x _. rewrite Hall. cbn [bind]. eexists. split; reflexivity.
Qed.

(** ** [normalizeJetpackTheme] *)


(** X10. [normalizeJetpackTheme] is idempotent: what it returns is
    returned unchanged when normalized again. *)
Theorem normalizeJetpackTheme_idempotent (theme r : value) :
  normalizeJetpackTheme theme = Ret r -> normalizeJetpackTheme r = Ret r.
Proof.
  unfold normalizeJetpackTheme at 1.
  set (t := match theme with VUndef => VObj [] | _ => theme end).
  assert (Ht : match t with VUndef => VObj [] | _ => t end = t).
  { unfold t. destruct theme; reflexivity. }
  destruct (get_prop t (str "tags")) as [tags|e] eqn:Etags; [|discriminate].
  cbn [bind]. destruct (truthy tags) eqn:Etruthy; cbn [negb].
  - intros H. injection H as <-.
    unfold normalizeJetpackTheme. cbn [get_prop bind].
    unfold prop. rewrite lookup_obj_set.
    replace (str_eqb (str "tags") (str "taxonomies")) with false by reflexivity.
    rewrite from_entries_wf by apply wf_omit.
    rewrite lookup_omitted. reflexivity.
  - intros H. injection H as <-.
    unfold normalizeJetpackTheme. rewrite Ht, Etags. cbn [bind].
    now rewrite Etruthy.
Qed.

(** ** [normalizeWpcomTheme] *)

Lemma wpcom_rename_plain (k : jsstring) :
  is_deep_key k = false ->
  to_string
    (get stringToPath
         (VObj [(str "description_long", VStr (str "descriptionLong"));
                (str "support_documentation", VStr (str "supportDocumentation"));
                (str "download_uri", VStr (str "download"))])
         k (VStr k)) = wpcom_key k.
Proof.
  intros Hk. rewrite get_plain_key by assumption.
  unfold wpcom_key, get_prop, prop. simpl.
  repeat match goal with
         | |- context [str_eqb k ?s] => destruct (str_eqb k s); [reflexivity|]
         end.
  reflexivity.
Qed.

Lemma normalizeWpcomTheme_fold (theme : value) :
  (forall k, In k (keys (own_entries theme)) -> is_deep_key k = false) ->
  normalizeWpcomTheme stringToPath theme =
  VObj (fold_left (fun acc kv => obj_set (wpcom_key (fst kv)) (snd kv) acc)
                  (own_entries theme) []).
Proof.
  intros Hplain. unfold normalizeWpcomTheme, mapKeys. f_equal.
  apply fold_left_ext_in. intros acc [k v] Hin. cbn [fst snd].
  rewrite wpcom_rename_plain; [reflexivity|].
  apply Hplain. change k with (fst (k, v)). now apply in_map.
Qed.


(** X12. On a theme whose keys hold no dot or bracket,
    [normalizeWpcomTheme] is idempotent. *)
Theorem normalizeWpcomTheme_idempotent (theme : value) :
  (forall k, In k (keys (own_entries theme)) -> is_deep_key k = false) ->
  normalizeWpcomTheme stringToPath (normalizeWpcomTheme stringToPath theme) =
  normalizeWpcomTheme stringToPath theme.
Proof.
  intros Hplain. rewrite (normalizeWpcomTheme_fold theme Hplain).
  set (nt := fold_left (fun acc kv => obj_set (wpcom_key (fst kv)) (snd kv) acc)
                       (own_entries theme) []).
  assert (Hkeys : forall k, In k (keys nt) ->
                    exists k0, In k0 (keys (own_entries theme)) /\ k = wpcom_key k0).
  { intros k Hk. apply (keys_fold_obj_set (fun kv => wpcom_key (fst kv))) in Hk.
    destruct Hk as [[]|Hk]. apply in_map_iff in Hk. destruct Hk as [[k0 v] [<- Hin]].
    exists k0. split; [|reflexivity]. change k0 with (fst (k0, v)). now apply in_map. }
  rewrite normalizeWpcomTheme_fold.
  - cbn [own_entries]. f_equal.
    rewrite <- (from_entries_wf nt) at 2
      by (apply (wf_fold_obj_set (fun kv => wpcom_key (fst kv))); reflexivity).
    unfold from_entries, assign. apply fold_left_ext_in.
    intros acc [k v] Hin. cbn [fst snd].
    destruct (Hkeys k) as [k0 [_ ->]].
    { change k with (fst (k, v)). now apply in_map. }
    now rewrite wpcom_key_idem.
  - cbn [own_entries]. intros k Hk. destruct (Hkeys k Hk) as [k0 [Hk0 ->]].
    apply wpcom_key_plain. now apply Hplain.
Qed.

(** ** [normalizeWporgTheme] *)

(** X13. On a theme whose keys hold no dot or bracket,
    [normalizeWporgTheme] is idempotent: the renamed keys are renamed no
    further, and the [taxonomies] built from [tags] stays. *)
Theorem normalizeWporgTheme_idempotent (theme : value) :
  (forall k, In k (keys (own_entries theme)) -> is_deep_key k = false) ->
  normalizeWporgTheme stringToPath (normalizeWporgTheme stringToPath theme) =
  normalizeWporgTheme stringToPath theme.
Proof.
  intros Hplain.
  unfold normalizeWporgTheme. cbv zeta.
  set (F := fun (_ : value) (key : jsstring) =>
              get stringToPath
                (VObj [(str "slug", VStr (str "id"));
                       (str "preview_url", VStr (str "demo_uri"));
                       (str "screenshot_url", VStr (str "screenshot"));
                       (str "download_link", VStr (str "download"))])
                key (VStr key)).
  assert (HF : forall k v, is_deep_key k = false -> to_string (F v k) = wporg_key k).
  { intros k v Hk. unfold F. now apply wporg_rename_plain. }
  set (nt := mapKeys theme F).
  assert (Hnt : forall k v, In (k, v) nt -> to_string (F v k) = k).
  { intros k v Hin.
    destruct (keys_mapKeys theme F k) as [k0 [x [Hin0 ->]]].
    { change k with (fst (k, v)). now apply in_map. }
    assert (Hk0 : is_deep_key k0 = false).
    { apply Hplain. change k0 with (fst (k0, x)). now apply in_map. }
    rewrite (HF k0 x Hk0). rewrite HF by now apply wporg_key_plain.
    apply wporg_key_idem. }
  destruct (truthy (prop (str "tags") nt)) eqn:Etags; cbn [negb].
  - set (T := VObj [(str "theme_feature",
                     lodash_map (prop (str "tags") nt)
                       (fun name slug => VObj [(str "name", name); (str "slug", slug)]))]).
    set (r := obj_set (str "taxonomies") T
                (from_entries (omit (VObj nt) (str "tags")))).
    assert (Hr : mapKeys (VObj r) F = r).
    { apply mapKeys_stable.
      - unfold r. apply wf_obj_set, wf_from_entries.
      - intros k v Hin.
        assert (Hk : In k (keys r)).
        { change k with (fst (k, v)). now apply in_map. }
        unfold r in Hk. apply keys_obj_set in Hk. destruct Hk as [->|Hk].
        + rewrite HF by reflexivity. reflexivity.
        + apply keys_from_entries, keys_omit in Hk. cbn [own_entries] in Hk.
          apply in_map_iff in Hk. destruct Hk as [[k1 v1] [Hk1 Hin1]].
          simpl in Hk1. subst k1.
          rewrite <- (Hnt k v1 Hin1) at 2.
          unfold F. reflexivity. }
    rewrite Hr.
    assert (Hno : prop (str "tags") r = VUndef).
    { unfold prop, r. rewrite lookup_obj_set.
      replace (str_eqb (str "tags") (str "taxonomies")) with false by reflexivity.
      rewrite from_entries_wf by apply wf_omit.
      now rewrite lookup_omitted. }
    rewrite Hno. reflexivity.
  - rewrite (mapKeys_stable nt F (wf_mapKeys theme F) Hnt).
    fold nt. rewrite Etags. reflexivity.
Qed.

(** ** [isThemeMatchingQuery], clause by clause *)

(** The clause that [isThemeMatchingQuery] evaluates at an entry of a
    query with its defaults, for a query that is iterated by its keys. *)
Lemma matching_clause_at (q theme : value) (k : jsstring) (x : value) :
  wf_object D = true ->
  In (k, x) (assign D (own_entries q)) ->
  matching_clause toLowerCase theme x (VStr k) =
  if str_eqb k (str "search")
  then search_clause toLowerCase theme (prop (str "search") (assign D (own_entries q)))
  else if str_eqb k (str "filter")
       then filter_clause theme (prop (str "filter") (assign D (own_entries q)))
       else Ret (VBool true).
Proof.
  intros Hwf Hin.
  pose proof (wf_object_NoDup _ (wf_assign D (own_entries q) Hwf)) as Hnd.
  pose proof (lookup_In _ _ _ Hnd Hin) as Hl.
  unfold matching_clause. cbn [strict_eq].
  destruct (str_eqb k (str "search")) eqn:E1.
  - apply str_eqb_eq in E1. subst k. unfold prop. now rewrite Hl.
  - destruct (str_eqb k (str "filter")) eqn:E2; [|reflexivity].
    apply str_eqb_eq in E2. subst k. unfold prop. now rewrite Hl.
Qed.

(** The result of [isThemeMatchingQuery] from the results of its two
    clauses. *)
Lemma isThemeMatchingQuery_clauses (q theme rs rf : value) :
  wf_object D = true ->
  plain_collection (assign D (own_entries q)) ->
  search_clause toLowerCase theme
    (prop (str "search") (assign D (own_entries q))) = Ret rs ->
  filter_clause theme
    (prop (str "filter") (assign D (own_entries q))) = Ret rf ->
  isThemeMatchingQuery D toLowerCase q theme = Ret (truthy rs && truthy rf).
Proof.
  intros Hwf Hplain Hs Hf.
  set (Q := assign D (own_entries q)) in *.
  set (p := fun kx : value * value =>
              match fst kx with
              | VStr k => if str_eqb k (str "search") then truthy rs
                          else if str_eqb k (str "filter") then truthy rf
                          else true
              | _ => true
              end).
  unfold isThemeMatchingQuery, every. fold Q.
  rewrite (collection_entries_plain Q Hplain).
  rewrite (every_entries_keyed _ p).
  2:{ intros k x Hin. apply in_map_iff in Hin. destruct Hin as [[k0 x0] [Heq Hin]].
      cbn [fst snd] in Heq. injection Heq as <- <-.
      rewrite (matching_clause_at q theme k0 x0 Hwf Hin). fold Q.
      unfold p. cbn [fst].
      destruct (str_eqb k0 (str "search")); [eauto|].
      destruct (str_eqb k0 (str "filter")); [eauto|].
      eexists. split; reflexivity. }
  f_equal. apply Bool.eq_iff_eq_true.
  rewrite forallb_forall, andb_true_iff. split.
  - intros Hall. split.
    + destruct (lookup (str "search") Q) as [v|] eqn:E.
      * apply lookup_Some_In in E.
        apply (Hall (VStr (str "search"), v)).
        apply in_map_iff. exists (str "search", v). auto.
      * unfold prop in Hs. rewrite E in Hs. injection Hs as <-. reflexivity.
    + destruct (lookup (str "filter") Q) as [v|] eqn:E.
      * apply lookup_Some_In in E.
        apply (Hall (VStr (str "filter"), v)).
        apply in_map_iff. exists (str "filter", v). auto.
      * unfold prop in Hf. rewrite E in Hf. injection Hf as <-. reflexivity.
  - intros [H1 H2] [k x] Hin.
    apply in_map_iff in Hin. destruct Hin as [[k0 x0] [Heq _]].
    cbn [fst snd] in Heq. injection Heq as <- <-.
    unfold p. cbn [fst].
    destruct (str_eqb k0 (str "search")); [assumption|].
    destruct (str_eqb k0 (str "filter")); [assumption | reflexivity].
Qed.

(** X14. Matching is the conjunction of its two clauses: when the search
    clause and the filter clause of the query with its defaults both
    return on a theme, the theme matches exactly when both results are
    truthy; no other key of the query takes part. *)
Theorem matching_is_search_and_filter (q theme rs rf : value) :
  wf_object D = true ->
  plain_collection (assign D (own_entries q)) ->
  search_clause toLowerCase theme
    (prop (str "search") (assign D (own_entries q))) = Ret rs ->
  filter_clause theme
    (prop (str "filter") (assign D (own_entries q))) = Ret rf ->
  isThemeMatchingQuery D toLowerCase q theme = Ret (truthy rs && truthy rf).
Proof.
  exact (isThemeMatchingQuery_clauses q theme rs rf).
Qed.

(** Entries of a query with its defaults other than a raising [search] or
    [filter] entry. *)
Lemma matching_raises (q theme : value) (key other : jsstring) (v : value) :
  wf_object D = true ->
  plain_collection (assign D (own_entries q)) ->
  (key = str "search" /\ other = str "filter" \/
   key = str "filter" /\ other = str "search") ->
  lookup key (assign D (own_entries q)) = Some v ->
  matching_clause toLowerCase theme v (VStr key) = Throw TypeError ->
  (matching_clause toLowerCase theme
     (prop other (assign D (own_entries q))) (VStr other) = Throw TypeError \/
   exists r, matching_clause toLowerCase theme
               (prop other (assign D (own_entries q))) (VStr other) = Ret r /\
             truthy r = true) ->
  isThemeMatchingQuery D toLowerCase q theme = Throw TypeError.
Proof.
  intros Hwf Hplain Hkeys Hl Hthrow Hother.
  set (Q := assign D (own_entries q)) in *.
  pose proof (wf_object_NoDup _ (wf_assign D (own_entries q) Hwf)) as Hnd.
  fold Q in Hnd.
  unfold isThemeMatchingQuery, every. fold Q.
  rewrite (collection_entries_plain Q Hplain).
  apply every_entries_throw.
  - exists (VStr key), v. split; [|exact Hthrow].
    apply in_map_iff. exists (key, v). split; [reflexivity|].
    now apply lookup_Some_In.
  - intros k x Hin. apply in_map_iff in Hin. destruct Hin as [[k0 x0] [Heq Hin]].
    cbn [fst snd] in Heq. injection Heq as <- <-.
    pose proof (lookup_In _ _ _ Hnd Hin) as Hl0.
    destruct (str_eqb k0 key) eqn:E1.
    { apply str_eqb_eq in E1. subst k0. rewrite Hl in Hl0. injection Hl0 as <-.
      now left. }
    destruct (str_eqb k0 other) eqn:E2.
    { apply str_eqb_eq in E2. subst k0.
      unfold prop in Hother. rewrite Hl0 in Hother. exact Hother. }
    right. exists (VBool true). split; [|reflexivity].
    unfold matching_clause. cbn [strict_eq].
    destruct Hkeys as [[-> ->]|[-> ->]]; now rewrite ?E1, ?E2.
Qed.

(** X15. A [search] or [filter] that is truthy without being a string
    makes [isThemeMatchingQuery] raise a [TypeError] on every theme, when
    the other of the two is falsy: the clause calls a string method on
    it. *)
Theorem matching_raises_on_non_string (q theme : value) (key other : jsstring)
        (v : value) :
  wf_object D = true ->
  plain_collection (assign D (own_entries q)) ->
  (key = str "search" /\ other = str "filter" \/
   key = str "filter" /\ other = str "search") ->
  lookup key (assign D (own_entries q)) = Some v ->
  truthy v = true -> (forall s, v <> VStr s) ->
  truthy (prop other (assign D (own_entries q))) = false ->
  isThemeMatchingQuery D toLowerCase q theme = Throw TypeError.
Proof.
  intros Hwf Hplain Hkeys Hl Hv Hns Hother.
  apply (matching_raises q theme key other v Hwf Hplain Hkeys Hl).
  - unfold matching_clause, search_clause, filter_clause. cbn [strict_eq].
    destruct Hkeys as [[-> _]|[-> _]].
    + replace (str_eqb (str "search") (str "search")) with true by reflexivity.
      rewrite Hv. cbn [negb].
      destruct v; try reflexivity. exfalso. now apply (Hns s).
    + replace (str_eqb (str "filter") (str "search")) with false by reflexivity.
      replace (str_eqb (str "filter") (str "filter")) with true by reflexivity.
      rewrite Hv. cbn [negb].
      destruct v; try reflexivity. exfalso. now apply (Hns s).
  - right. exists (VBool true). split; [|reflexivity].
    unfold matching_clause, search_clause, filter_clause. cbn [strict_eq].
    destruct Hkeys as [[_ ->]|[_ ->]]; rewrite Hother; reflexivity.
Qed.

Lemma search_clause_missing_theme (theme : value) (s : jsstring) :
  theme = VNull \/ theme = VUndef -> s <> [] ->
  search_clause toLowerCase theme (VStr s) = Throw TypeError.
Proof.
  intros Ht Hs. destruct s as [|c s]; [congruence|].
  destruct Ht as [->| ->]; reflexivity.
Qed.

Lemma filter_clause_missing_theme (theme : value) (s : jsstring) :
  theme = VNull \/ theme = VUndef -> s <> [] ->
  filter_clause theme (VStr s) = Throw TypeError.
Proof.
  intros Ht Hs. unfold filter_clause.
  replace (truthy (VStr s)) with true by (destruct s; [congruence | reflexivity]).
  cbn [negb call_split_comma bind]. unfold every.
  pose proof (split_on_nonempty 44 s) as Hne.
  destruct (split_on 44 s) as [|f fs]; [congruence|].
  destruct Ht as [->| ->]; reflexivity.
Qed.

(** X16. A missing theme ([null] or [undefined]) makes
    [isThemeMatchingQuery] raise a [TypeError] as soon as the query has a
    non-empty [search] or [filter] string, the other being falsy or a
    string as well. *)
Theorem matching_raises_on_missing_theme (q theme : value) (key other : jsstring)
        (s : jsstring) :
  wf_object D = true ->
  plain_collection (assign D (own_entries q)) ->
  (key = str "search" /\ other = str "filter" \/
   key = str "filter" /\ other = str "search") ->
  theme = VNull \/ theme = VUndef ->
  lookup key (assign D (own_entries q)) = Some (VStr s) -> s <> [] ->
  (truthy (prop other (assign D (own_entries q))) = false \/
   exists s', prop other (assign D (own_entries q)) = VStr s') ->
  isThemeMatchingQuery D toLowerCase q theme = Throw TypeError.
Proof.
  intros Hwf Hplain Hkeys Htheme Hl Hs Hother.
  assert (Hclause : forall k s0,
             k = str "search" \/ k = str "filter" -> s0 <> [] ->
             matching_clause toLowerCase theme (VStr s0) (VStr k) = Throw TypeError).
  { intros k s0 [-> | ->] Hs0; unfold matching_clause; cbn [strict_eq].
    - replace (str_eqb (str "search") (str "search")) with true by reflexivity.
      now apply search_clause_missing_theme.
    - replace (str_eqb (str "filter") (str "search")) with false by reflexivity.
      replace (str_eqb (str "filter") (str "filter")) with true by reflexivity.
      now apply filter_clause_missing_theme. }
  assert (Hk : key = str "search" \/ key = str "filter")
    by (destruct Hkeys as [[-> _]|[-> _]]; auto).
  assert (Ho : other = str "search" \/ other = str "filter")
    by (destruct Hkeys as [[_ ->]|[_ ->]]; auto).
  apply (matching_raises q theme key other (VStr s) Hwf Hplain Hkeys Hl).
  - now apply Hclause.
  - assert (Hfalsy : forall x, truthy x = false ->
               matching_clause toLowerCase theme x (VStr other) = Ret (VBool true)).
    { intros x Hx. unfold matching_clause, search_clause, filter_clause.
      cbn [strict_eq]. rewrite Hx.
      destruct Ho as [-> | ->]; reflexivity. }
    destruct Hother as [Hf|[s' Hs']].
    + right. exists (VBool true). split; [now apply Hfalsy | reflexivity].
    + rewrite Hs'. destruct s' as [|c s'].
      * right. exists (VBool true). split; [now apply Hfalsy | reflexivity].
      * left. apply Hclause; [assumption | discriminate].
Qed.

(** The keys that [isThemeMatchingQuery] looks at. *)
Lemma matching_skips_other_keys (theme : value) (o : object) :
  every_entries (matching_clause toLowerCase theme)
    (map (fun kv => (VStr (fst kv), snd kv)) o) =
  every_entries (matching_clause toLowerCase theme)
    (map (fun kv => (VStr (fst kv), snd kv))
         (filter (fun kv => str_eqb (fst kv) (str "search") ||
                            str_eqb (fst kv) (str "filter")) o)).
Proof.
  induction o as [|[k v] o IH]; [reflexivity|].
  cbn [map filter fst snd].
  destruct (str_eqb k (str "search") || str_eqb k (str "filter")) eqn:E.
  - cbn [map every_entries fst snd]. now rewrite IH.
  - cbn [every_entries]. apply orb_false_iff in E. destruct E as [E1 E2].
    unfold matching_clause at 1. cbn [strict_eq]. rewrite E1, E2.
    cbn [bind truthy]. exact IH.
Qed.

(** X17. A key of the query other than [search] and [filter] has no
    effect on matching: setting it to any value changes neither the
    result nor the error of [isThemeMatchingQuery], as long as the query
    with its defaults is iterated by its keys. *)
Theorem matching_ignores_other_keys (o : object) (k : jsstring) (v theme : value) :
  k <> str "search" -> k <> str "filter" ->
  plain_collection (assign D o) ->
  plain_collection (assign D (obj_set k v o)) ->
  isThemeMatchingQuery D toLowerCase (VObj (obj_set k v o)) theme =
  isThemeMatchingQuery D toLowerCase (VObj o) theme.
Proof.
  intros Hk1 Hk2 Hplain Hplain'.
  unfold isThemeMatchingQuery, every. cbn [own_entries].
  rewrite (collection_entries_plain _ Hplain), (collection_entries_plain _ Hplain').
  rewrite (matching_skips_other_keys theme (assign D (obj_set k v o))).
  rewrite (matching_skips_other_keys theme (assign D o)).
  pose (pk := fun key => str_eqb key (str "search") || str_eqb key (str "filter")).
  change (fun kv : jsstring * value =>
            str_eqb (fst kv) (str "search") || str_eqb (fst kv) (str "filter"))
    with (fun kv : jsstring * value => pk (fst kv)).
  assert (Hi : forall key, pk key = true -> array_index key = None).
  { intros key H. unfold pk in H. apply orb_true_iff in H.
    destruct H as [H|H]; apply str_eqb_eq in H; subst key; reflexivity. }
  rewrite (filter_keys_assign pk D (obj_set k v o) Hi).
  rewrite (filter_keys_assign pk D o Hi).
  rewrite (filter_keys_obj_set_out pk k v o); [reflexivity|].
  unfold pk. apply str_eqb_neq in Hk1, Hk2. now rewrite Hk1, Hk2.
Qed.

(** ** The serialized key *)

(** What [getDeserializedThemesQueryDetails] reads in a key that
    [getSerializedThemesQuery] wrote. *)
Lemma details_of_serialized_key (q s : value) (r : object) :
  getNormalizedThemesQuery D q = VObj r ->
  json_safe (VObj r) = true ->
  (truthy s = false \/ exists z, (0 < z < 2 ^ 53)%Z /\ s = VNum (Int z)) ->
  exists k,
    getSerializedThemesQuery D q s = VStr k /\
    getDeserializedThemesQueryDetails k =
      {| siteId := if truthy s then s else VUndef; query := VObj r |}.
Proof.
  intros Hnorm Hsafe Hsite.
  set (text := element_text (VObj r)).
  assert (Hhead : exists t, text = 123%N :: t).
  { unfold text, element_text. rewrite stringify_object. eexists. reflexivity. }
  destruct Hhead as [t Hhead].
  pose proof (text_no_line_terminator (VObj r) Hsafe) as HLT. fold text in HLT.
  pose proof (JSON_parse_text (VObj r) Hsafe) as Hparse. fold text in Hparse.
  assert (Hser : JSON_stringify
                   (getNormalizedThemesQuery D
                      (match q with VUndef => VObj [] | _ => q end)) = VStr text).
  { rewrite getNormalizedThemesQuery_default, Hnorm.
    unfold JSON_stringify. now rewrite (stringify_safe (VObj r) Hsafe). }
  destruct Hsite as [Hfalsy|[z [Hz ->]]].
  - exists text. unfold getSerializedThemesQuery. rewrite Hfalsy, Hser.
    split; [reflexivity|].
    rewrite getDeserializedThemesQueryDetails_unfold.
    rewrite (split_serialized_bare text t Hhead HLT), Hparse. reflexivity.
  - exists (decimal z ++ str ":" ++ text).
    rewrite truthy_Int by lia.
    split.
    { unfold getSerializedThemesQuery. rewrite truthy_Int by lia. rewrite Hser.
      unfold array_join. cbn [map to_string join].
      now rewrite number_to_string_Int by assumption. }
    rewrite getDeserializedThemesQueryDetails_unfold.
    rewrite split_serialized_site by (lia || assumption).
    rewrite Hparse.
    pose proof (decimal_digits z ltac:(lia)) as Hdig.
    destruct (Number_of_digits (decimal z) Hdig (decimal_nonempty z)) as [HN HT].
    rewrite HT, HN, decimal_value by lia.
    replace (z =? 0)%Z with false by (symmetry; apply Z.eqb_neq; lia).
    cbn [negb]. now rewrite round_to_double_safe by lia.
Qed.

(** X18. Keys do not collide: when two queries, each with a site id that
    is falsy or a positive integer below 2^53, normalize to objects that
    JSON represents and serialize to the same key, their normalized forms
    are the same object, property order included, and their site ids are
    the same (a falsy one counting as none). *)
Theorem serialized_keys_do_not_collide (q1 q2 s1 s2 : value) (r1 r2 : object) :
  getNormalizedThemesQuery D q1 = VObj r1 -> json_safe (VObj r1) = true ->
  getNormalizedThemesQuery D q2 = VObj r2 -> json_safe (VObj r2) = true ->
  (truthy s1 = false \/ exists z, (0 < z < 2 ^ 53)%Z /\ s1 = VNum (Int z)) ->
  (truthy s2 = false \/ exists z, (0 < z < 2 ^ 53)%Z /\ s2 = VNum (Int z)) ->
  getSerializedThemesQuery D q1 s1 = getSerializedThemesQuery D q2 s2 ->
  r1 = r2 /\
  (if truthy s1 then s1 else VUndef) = (if truthy s2 then s2 else VUndef).
Proof.
  intros Hn1 Hsafe1 Hn2 Hsafe2 Hs1 Hs2 Heq.
  destruct (details_of_serialized_key q1 s1 r1 Hn1 Hsafe1 Hs1) as [k1 [Hk1 Hd1]].
  destruct (details_of_serialized_key q2 s2 r2 Hn2 Hsafe2 Hs2) as [k2 [Hk2 Hd2]].
  rewrite Hk1, Hk2 in Heq. injection Heq as <-.
  rewrite Hd1 in Hd2. injection Hd2 as Hsite Hquery.
  split; [exact Hquery | exact Hsite].
Qed.

(** X19. [getNormalizedThemesQuery] is idempotent on every value. *)
Theorem getNormalizedThemesQuery_idempotent (q : value) :
  getNormalizedThemesQuery D (getNormalizedThemesQuery D q) =
  getNormalizedThemesQuery D q.
Proof.
  unfold getNormalizedThemesQuery. f_equal. apply omitBy_idem.
Qed.


(** ** [isPremium] *)


(** ** Fields that end up under one name in [normalizeWpcomTheme] *)


(** ** Array-like queries *)

(** X23. A query that, with its defaults, has a [length] that is a
    non-negative integer below 2^53 is iterated by lodash as an
    array-like value, by index: its [search] and [filter] are not looked
    at, and every theme matches. *)
Theorem array_like_query_matches_all (q theme : value) (n : Z) :
  (0 <= n < 2 ^ 53)%Z ->
  lookup (str "length") (assign D (own_entries q)) = Some (VNum (Int n)) ->
  isThemeMatchingQuery D toLowerCase q theme = Ret true.
Proof.
  intros Hn Hlen. unfold isThemeMatchingQuery, every.
  apply every_entries_all. intros k x Hin.
  cbn [collection_entries] in Hin. rewrite Hlen in Hin.
  unfold isLength, Int in Hin. rewrite safe_integer_of in Hin by lia.
  replace (0 <=? n)%Z with true in Hin by (symmetry; apply Z.leb_le; lia).
  apply in_map_iff in Hin. destruct Hin as [i [Heq _]].
  injection Heq as <- _.
  exists (VBool true). split; reflexivity.
Qed.

(** ** Fields that end up under one name in [normalizeWporgTheme] *)


(** ** Filtering normalized themes *)

(** X25. One theme that makes the matching raise makes
    [filterThemesForJetpack] raise, wherever it stands in the array:
    every theme is tested. *)
Theorem filterThemesForJetpack_raises (l : list value) (q t : value) (e : error) :
  In t l -> isThemeMatchingQuery D toLowerCase q t = Throw e ->
  exists e', filterThemesForJetpack D toLowerCase (VArr l) q = Throw e'.
Proof.
  intros Hin Hthrow. unfold filterThemesForJetpack, lodash_filter.
  destruct (filter_entries_throw
              (fun theme _ => b <- isThemeMatchingQuery D toLowerCase q theme ;;
                              Ret (VBool b))
              (collection_entries (VArr l))) as [e' He'].
  - assert (Hex : exists k, In (k, t) (collection_entries (VArr l))).
    { pose proof (elements_array l) as Hel. unfold elements in Hel.
      rewrite <- Hel in Hin. apply in_map_iff in Hin.
      destruct Hin as [[k x] [Hx Hin]]. simpl in Hx. subst x. eauto. }
    destruct Hex as [k Hk]. exists k, t, e. split; [exact Hk|].
    now rewrite Hthrow.
  - exists e'. now rewrite He'.
Qed.

(** X26. Normalizing a Jetpack theme makes its tags filterable: for a
    theme object whose [tags] is an array, and a query whose search is
    falsy and whose filter is a non-empty string, the normalized theme
    matches exactly when every comma-separated slug of the filter is one
    of the tags. *)
Theorem jetpack_tags_are_filterable (o : object) (tags : list value) (q : value)
        (s : jsstring) :
  wf_object D = true ->
  plain_collection (assign D (own_entries q)) ->
  truthy (prop (str "search") (assign D (own_entries q))) = false ->
  prop (str "filter") (assign D (own_entries q)) = VStr s -> s <> [] ->
  lookup (str "tags") o = Some (VArr tags) ->
  exists nt b,
    normalizeJetpackTheme (VObj o) = Ret nt /\
    isThemeMatchingQuery D toLowerCase q nt = Ret b /\
    (b = true <-> forall f, In f (split_on 44 s) -> In (VStr f) tags).
Proof.
  intros Hwf Hplain Hsearch Hfilter Hs Htags.
  set (r := obj_set (str "taxonomies")
              (VObj [(str "theme_feature",
                      VArr (map (fun slug => VObj [(str "slug", slug)]) tags))])
              (from_entries (omit (VObj o) (str "tags")))).
  exists (VObj r). eexists. split.
  { unfold normalizeJetpackTheme.
    change (get_prop (VObj o) (str "tags")) with (Ret (prop (str "tags") o)).
    unfold prop at 1. rewrite Htags. cbn [bind truthy negb].
    rewrite (lodash_map_array (fun slug => VObj [(str "slug", slug)])).
    reflexivity. }
  assert (Htaxo : prop (str "taxonomies") r =
                  VObj [(str "theme_feature",
                         VArr (map (fun slug => VObj [(str "slug", slug)]) tags))]).
  { unfold prop, r. rewrite lookup_obj_set. now rewrite str_eqb_refl. }
  split.
  { pose proof (filter_clause_eval r s Hs) as Hclause. rewrite <- Hfilter in Hclause.
    rewrite (isThemeMatchingQuery_clauses q (VObj r) (VBool true) _ Hwf Hplain
               ltac:(unfold search_clause; now rewrite Hsearch) Hclause).
    reflexivity. }
  cbn [truthy andb]. rewrite Htaxo.
  change (elements (VObj [(str "theme_feature",
                           VArr (map (fun slug => VObj [(str "slug", slug)]) tags))]))
    with [VArr (map (fun slug => VObj [(str "slug", slug)]) tags)].
  rewrite forallb_forall. split.
  - intros H f Hf. specialize (H (VStr f) (in_map VStr _ _ Hf)).
    cbn [existsb] in H. rewrite orb_false_r, elements_array in H.
    apply existsb_exists in H. destruct H as [term [Hterm H]].
    apply in_map_iff in Hterm. destruct Hterm as [tag [<- Htag]].
    apply matches_property_str in H. cbn in H. injection H as ->. exact Htag.
  - intros H x Hx. apply in_map_iff in Hx. destruct Hx as [f [<- Hf]].
    cbn [existsb]. rewrite orb_false_r, elements_array.
    apply existsb_exists. exists (VObj [(str "slug", VStr f)]).
    split; [apply in_map_iff; exists (VStr f); split; [reflexivity | now apply H]|].
    apply matches_property_str. reflexivity.
Qed.

(** ** Site ids given as strings *)

(** X27. The key does not tell a site id given as a number from the same
    site id given as its decimal string: both serialize to the same key,
    so that the string comes back from
    [getDeserializedThemesQueryDetails] as the number. *)
Theorem string_site_id_has_the_key_of_the_number (q : value) (z : Z) :
  (0 < z < 2 ^ 53)%Z ->
  getSerializedThemesQuery D q (VStr (decimal z)) =
  getSerializedThemesQuery D q (VNum (Int z)).
Proof.
  intros Hz. unfold getSerializedThemesQuery.
  rewrite truthy_Int by lia.
  replace (truthy (VStr (decimal z))) with true.
  - unfold array_join. cbn [map to_string join].
    now rewrite number_to_string_Int by assumption.
  - pose proof (decimal_nonempty z) as Hne. cbn [truthy].
    destruct (decimal z); [congruence | reflexivity].
Qed.

(** ** Normalized themes and matching *)

(** X28. Normalizing a WordPress.org theme makes the slugs of its tags
    filterable: for a theme object whose keys hold no dot or bracket, no
    two of whose fields end up under one name, and whose [tags] maps
    slugs to names, and for a query whose search is falsy and whose
    filter is a non-empty string, the normalized theme matches exactly
    when every comma-separated slug of the filter is a key of [tags]. *)
Theorem wporg_tags_are_filterable (o tags : object) (q : value) (s : jsstring) :
  wf_object D = true ->
  plain_collection (assign D (own_entries q)) ->
  truthy (prop (str "search") (assign D (own_entries q))) = false ->
  prop (str "filter") (assign D (own_entries q)) = VStr s -> s <> [] ->
  NoDup (map wporg_key (keys o)) ->
  (forall k, In k (keys o) -> is_deep_key k = false) ->
  lookup (str "tags") o = Some (VObj tags) -> plain_collection tags ->
  exists b,
    isThemeMatchingQuery D toLowerCase q
      (normalizeWporgTheme stringToPath (VObj o)) = Ret b /\
    (b = true <-> forall f, In f (split_on 44 s) -> In f (keys tags)).
Proof.
  intros Hwf Hplain Hsearch Hfilter Hs Hnd Hkeys Htags Hplaintags.
  set (nt := fold_left (fun acc kv => obj_set (wporg_key (fst kv)) (snd kv) acc) o []).
  assert (Hmk : mapKeys (VObj o)
                  (fun _ key =>
                     get stringToPath
                       (VObj [(str "slug", VStr (str "id"));
                              (str "preview_url", VStr (str "demo_uri"));
                              (str "screenshot_url", VStr (str "screenshot"));
                              (str "download_link", VStr (str "download"))])
                       key (VStr key)) = nt).
  { unfold mapKeys, nt. cbn [own_entries]. apply fold_left_ext_in.
    intros acc [k' v'] Hin. cbn [fst snd].
    rewrite wporg_rename_plain; [reflexivity|].
    apply Hkeys. change k' with (fst (k', v')). now apply in_map. }
  assert (Hnt : prop (str "tags") nt = VObj tags).
  { unfold prop.
    change (str "tags") with (wporg_key (fst (str "tags", VObj tags))).
    unfold nt.
    rewrite (lookup_fold_entry (fun kv => wporg_key (fst kv)) (str "tags", VObj tags) o []).
    - reflexivity.
    - unfold keys in Hnd. now rewrite map_map in Hnd.
    - now apply lookup_Some_In. }
  set (terms := map (fun kv : jsstring * value =>
                       VObj [(str "name", snd kv); (str "slug", VStr (fst kv))]) tags).
  set (r := obj_set (str "taxonomies") (VObj [(str "theme_feature", VArr terms)])
              (from_entries (omit (VObj nt) (str "tags")))).
  assert (Hnorm : normalizeWporgTheme stringToPath (VObj o) = VObj r).
  { unfold normalizeWporgTheme. cbv zeta. rewrite Hmk, Hnt. cbn [truthy negb].
    unfold lodash_map. rewrite (collection_entries_plain tags Hplaintags).
    rewrite map_map. reflexivity. }
  assert (Htaxo : prop (str "taxonomies") r = VObj [(str "theme_feature", VArr terms)]).
  { unfold prop, r. rewrite lookup_obj_set. now rewrite str_eqb_refl. }
  rewrite Hnorm. eexists. split.
  { pose proof (filter_clause_eval r s Hs) as Hclause. rewrite <- Hfilter in Hclause.
    rewrite (isThemeMatchingQuery_clauses q (VObj r) (VBool true) _ Hwf Hplain
               ltac:(unfold search_clause; now rewrite Hsearch) Hclause).
    reflexivity. }
  cbn [truthy andb]. fold r. rewrite Htaxo.
  change (elements (VObj [(str "theme_feature", VArr terms)])) with [VArr terms].
  rewrite forallb_forall. split.
  - intros H f Hf. specialize (H (VStr f) (in_map VStr _ _ Hf)).
    cbn [existsb] in H. rewrite orb_false_r, elements_array in H.
    apply existsb_exists in H. destruct H as [term [Hterm H]].
    apply in_map_iff in Hterm. destruct Hterm as [[slug name] [<- Hin]].
    apply matches_property_str in H. cbn in H. injection H as <-.
    change slug with (fst (slug, name)). now apply in_map.
  - intros H x Hx. apply in_map_iff in Hx. destruct Hx as [f [<- Hf]].
    cbn [existsb]. rewrite orb_false_r, elements_array.
    apply existsb_exists.
    specialize (H f Hf). apply in_map_iff in H. destruct H as [[slug name] [Hslug Hin]].
    cbn [fst] in Hslug. subst slug.
    exists (VObj [(str "name", name); (str "slug", VStr f)]).
    split.
    + apply in_map_iff. exists (f, name). split; [reflexivity | exact Hin].
    + apply matches_property_str. reflexivity.
Qed.

(** X29. The tags of a Jetpack theme are not searched: the terms that
    [normalizeJetpackTheme] builds have a slug and no name, so that, for a
    theme object with an array of tags and a query whose search is a
    non-empty string and whose filter is falsy, the normalized theme
    matches exactly when the lower-cased search term is part of the
    lower-cased [name], [author] or [descriptionLong] of the theme. *)
Theorem jetpack_tags_are_not_searched (o : object) (tags : list value) (q : value)
        (s : jsstring) :
  wf_object D = true ->
  plain_collection (assign D (own_entries q)) ->
  prop (str "search") (assign D (own_entries q)) = VStr s -> s <> [] ->
  truthy (prop (str "filter") (assign D (own_entries q))) = false ->
  NoDup (keys o) ->
  lookup (str "tags") o = Some (VArr tags) ->
  optional_string (prop (str "name") o) ->
  optional_string (prop (str "author") o) ->
  optional_string (prop (str "descriptionLong") o) ->
  exists nt b,
    normalizeJetpackTheme (VObj o) = Ret nt /\
    isThemeMatchingQuery D toLowerCase q nt = Ret b /\
    (b = true <->
     exists n,
       (prop (str "name") o = VStr n \/ prop (str "author") o = VStr n \/
        prop (str "descriptionLong") o = VStr n) /\
       n <> [] /\ is_substring (toLowerCase s) (toLowerCase n) = true).
Proof.
  intros Hwf Hplain Hsearch Hs Hfilter Hnd Htags Hname Hauthor Hdesc.
  set (terms := map (fun slug => VObj [(str "slug", slug)]) tags).
  set (r := obj_set (str "taxonomies") (VObj [(str "theme_feature", VArr terms)])
              (from_entries (omit (VObj o) (str "tags")))).
  assert (Hkept : forall k, k <> str "tags" -> k <> str "taxonomies" ->
                            prop k r = prop k o).
  { intros k Hk1 Hk2. unfold prop, r. rewrite lookup_obj_set.
    apply str_eqb_neq in Hk1, Hk2. rewrite Hk2.
    rewrite from_entries_wf by apply wf_omit.
    rewrite lookup_omit by assumption. now rewrite Hk1. }
  assert (Hn : prop (str "name") r = prop (str "name") o)
    by (apply Hkept; discriminate).
  assert (Ha : prop (str "author") r = prop (str "author") o)
    by (apply Hkept; discriminate).
  assert (Hd : prop (str "descriptionLong") r = prop (str "descriptionLong") o)
    by (apply Hkept; discriminate).
  assert (Hshape : searchable_theme r terms).
  { unfold searchable_theme. rewrite Hn, Ha, Hd.
    split; [assumption|]. split; [assumption|]. split; [assumption|]. split.
    - right. exists [(str "theme_feature", VArr terms)]. split; [|right; reflexivity].
      unfold prop, r. rewrite lookup_obj_set. now rewrite str_eqb_refl.
    - intros term Hin. apply in_map_iff in Hin. destruct Hin as [slug [<- _]].
      exists VUndef. split; [reflexivity | left; reflexivity]. }
  destruct (search_clause_eval toLowerCase r terms s Hshape Hs) as [rs [Hrs Htruthy]].
  assert (Hterms : existsb (term_matches toLowerCase (toLowerCase s)) terms = false).
  { assert (Hall : forall l,
               existsb (term_matches toLowerCase (toLowerCase s))
                       (map (fun slug => VObj [(str "slug", slug)]) l) = false).
    { intros l. induction l as [|x l IH]; [reflexivity|].
      cbn [map existsb]. now rewrite IH. }
    apply Hall. }
  exists (VObj r). exists (truthy rs && truthy (VBool true)). split.
  { unfold normalizeJetpackTheme.
    change (get_prop (VObj o) (str "tags")) with (Ret (prop (str "tags") o)).
    unfold prop at 1. rewrite Htags. cbn [bind truthy negb].
    rewrite (lodash_map_array (fun slug => VObj [(str "slug", slug)])).
    reflexivity. }
  split.
  { apply (isThemeMatchingQuery_clauses q (VObj r) rs (VBool true) Hwf Hplain).
    - now rewrite Hsearch.
    - unfold filter_clause. now rewrite Hfilter. }
  cbn [truthy]. rewrite andb_true_r, Htruthy, Hterms, Hn, Ha, Hd.
  cbn [orb]. rewrite !orb_true_iff, !field_matches_iff.
  split.
  - intros [[[n [H1 H2]]|[n [H1 H2]]]|[n [H1 H2]]]; exists n; auto.
  - intros [n [[H|[H|H]] H2]]; [left; left | left; right | right]; exists n; auto.
Qed.

(** ** The key without page, read back *)

(** X30. The key without page reads back without page: when what is left
    of a query after its [page] is removed normalizes to an object that
    JSON represents, and the site id is falsy or a positive integer below
    2^53, [getDeserializedThemesQueryDetails] reads in the key that
    [getSerializedThemesQueryWithoutPage] wrote that normalized object,
    which has no [page], and the site id. *)
Theorem pageless_key_reads_back_without_page (q s : value) (r : object) :
  getNormalizedThemesQuery D (VObj (omit q (str "page"))) = VObj r ->
  json_safe (VObj r) = true ->
  (truthy s = false \/ exists z, (0 < z < 2 ^ 53)%Z /\ s = VNum (Int z)) ->
  exists k,
    getSerializedThemesQueryWithoutPage D q s = VStr k /\
    getDeserializedThemesQueryDetails k =
      {| siteId := if truthy s then s else VUndef; query := VObj r |} /\
    lookup (str "page") r = None.
Proof.
  intros Hnorm Hsafe Hsite.
  destruct (details_of_serialized_key (VObj (omit q (str "page"))) s r
              Hnorm Hsafe Hsite) as [k [Hk Hd]].
  exists k. split; [exact Hk|]. split; [exact Hd|].
  apply lookup_None_iff. intros Hin.
  unfold getNormalizedThemesQuery, omitBy in Hnorm. injection Hnorm as <-.
  apply keys_from_entries in Hin. cbn [own_entries] in Hin.
  apply keys_filter_incl in Hin. apply lookup_None_iff in Hin; [exact Hin|].
  apply lookup_omitted.
Qed.

End MoreProperties.

(* ================================================================== *)
(** * The primitives on known values *)
(* ================================================================== *)

Example round_to_double_ties_to_even :
  round_to_double 9007199254740993 1 = Int 9007199254740992 /\
  round_to_double 9007199254740995 1 = Int 9007199254740996.
Proof. split; vm_compute; reflexivity. Qed.

Example property_order :
  keys (from_entries [(str "b", VNull); (str "10", VNull); (str "a", VNull);
                      (str "2", VNull); (str "b", VBool true)]) =
  [str "2"; str "10"; str "b"; str "a"].
Proof. reflexivity. Qed.

Example JSON_parse_nested :
  JSON_parse (str "{ [1, -2.5e1, null] }") = None /\
  JSON_parse (str " [1, -2.5e1, null, [true, {}]] ") =
    Some (VArr [VNum (Int 1); VNum (Int (-25)); VNull; VArr [VBool true; VObj []]]) /\
  JSON_parse (str "01") = None /\
  JSON_parse (str "[1,]") = None.
Proof. repeat split; vm_compute; reflexivity. Qed.

Example serialized_key :
  getSerializedThemesQuery example_defaults
    (VObj [(str "search", VStr (str "a")); (str "filter", VStr []);
           (str "page", VNum (Int 2))])
    (VNum (Int 2916284)) =
  VStr (str "2916284:{" ++ [34%N] ++ str "search" ++ [34%N] ++ str ":" ++
        [34%N] ++ str "a" ++ [34%N] ++ str "," ++
        [34%N] ++ str "page" ++ [34%N] ++ str ":2}").
Proof. vm_compute. reflexivity. Qed.

Example deserialized_key_with_line_terminator :
  getDeserializedThemesQueryDetails (str "12:{" ++ [10%N] ++ str "}") =
  {| siteId := VUndef; query := VUndef |}.
Proof. reflexivity. Qed.

(* ================================================================== *)
(** * Concrete instances *)
(* ================================================================== *)





(** C7, counterexample. A theme with [tags] and with a [taxonomies] of its
    own does not keep that field: it is replaced by the one built from the
    tags. *)
Lemma jetpack_taxonomies_replaced :
  ~ (forall (o : object) (tags : list value) (k : jsstring),
        NoDup (keys o) -> lookup (str "tags") o = Some (VArr tags) ->
        k <> str "tags" ->
        exists r, normalizeJetpackTheme (VObj o) = Ret (VObj r) /\
                  lookup k r = lookup k o).
Proof.
  intros H.
  destruct (H [(str "tags", VArr [VStr (str "a")]);
               (str "taxonomies",
                VObj [(str "theme_color",
                       VArr [VObj [(str "slug", VStr (str "blue"))]])])]
              [VStr (str "a")] (str "taxonomies")) as [r [Hr Hl]].
  - repeat constructor; simpl; intuition discriminate.
  - reflexivity.
  - discriminate.
  - vm_compute in Hr. injection Hr as <-. discriminate.
Qed.

Lemma normalizeJetpackTheme_spec_witness :
  let o := [(str "id", VStr (str "twentysixteen"));
            (str "tags", VArr [VStr (str "a"); VStr (str "b")])] in
  NoDup (keys o) /\
  exists r,
    normalizeJetpackTheme (VObj o) = Ret (VObj r) /\
    lookup (str "tags") r = None /\
    lookup (str "id") r = Some (VStr (str "twentysixteen")).
Proof.
  intros o.
  assert (Hnd : NoDup (keys o)).
  { repeat constructor; simpl; intuition discriminate. }
  split; [exact Hnd|].
  destruct (normalizeJetpackTheme_spec o Hnd) as [_ [_ [H _]]].
  destruct (H [VStr (str "a"); VStr (str "b")] eq_refl)
    as [r [Hr [Htags [_ Hother]]]].
  exists r. split; [exact Hr|]. split; [exact Htags|].
  rewrite Hother; [reflexivity | discriminate | discriminate].
Defined.






(** C4, counterexample. A key whose site id is 1 followed by 309 zeros
    deserializes to the site id [Infinity], which is neither [undefined]
    nor a positive integer. *)
Lemma site_id_overflows_to_infinity :
  ~ (forall s : jsstring,
        siteId (getDeserializedThemesQueryDetails s) = VUndef \/
        exists z, (0 < z)%Z /\
                  siteId (getDeserializedThemesQueryDetails s) = VNum (Int z)).
Proof.
  intros H.
  assert (E : siteId (getDeserializedThemesQueryDetails
                        (str "1" ++ repeat 48%N 309 ++ str ":{}")) =
              VNum (Inf false)) by (vm_compute; reflexivity).
  destruct (H (str "1" ++ repeat 48%N 309 ++ str ":{}")) as [H1|[z [_ H2]]].
  - assert (H3 : VNum (Inf false) = VUndef) by exact (eq_trans (eq_sym E) H1).
    discriminate H3.
  - assert (H3 : VNum (Inf false) = VNum (Int z)) by exact (eq_trans (eq_sym E) H2).
    unfold Int in H3. discriminate H3.
Qed.

Lemma deserialization_never_fails_witness :
  split_serialized (str "12:{") = Some (Some (str "12"), str "{") /\
  JSON_parse (str "{") = None /\
  query (getDeserializedThemesQueryDetails (str "12:{")) = VUndef /\
  siteId (getDeserializedThemesQueryDetails (str "12:{")) = VNum (Int 12).
Proof.
  destruct (deserialization_never_fails (str "12:{")) as [_ [_ H]].
  assert (Hsplit : split_serialized (str "12:{") = Some (Some (str "12"), str "{"))
    by reflexivity.
  assert (Hparse : JSON_parse (str "{") = None) by reflexivity.
  destruct (H (Some (str "12")) (str "{") Hsplit) as [_ [Hq [_ Hs]]].
  split; [exact Hsplit|]. split; [exact Hparse|].
  split; [exact (Hq Hparse)|].
  rewrite (Hs (str "12") eq_refl). vm_compute. reflexivity.
Defined.



(* ================================================================== *)
(** * Concrete instances of the further properties *)
(* ================================================================== *)

Lemma theme_id_is_second_segment_witness :
  getThemeIdFromStylesheet (VStr (str "pub" ++ str "/" ++ str "twentysixteen")) =
    VStr (str "twentysixteen") /\
  forall rest,
    getThemeIdFromStylesheet
      (VStr (str "pub" ++ str "/" ++ str "twentysixteen" ++ str "/" ++ rest)) =
    VStr (str "twentysixteen").
Proof.
  apply (theme_id_is_second_segment (str "pub") (str "twentysixteen"));
    [reflexivity | reflexivity | discriminate].
Defined.

Lemma theme_id_falls_back_on_stylesheet_witness :
  getThemeIdFromStylesheet (VStr (str "twentysixteen")) = VStr (str "twentysixteen") /\
  getThemeIdFromStylesheet (VStr (str "pub" ++ str "/")) = VStr (str "pub" ++ str "/") /\
  getThemeIdFromStylesheet (VStr (str "pub" ++ str "//" ++ str "x")) =
    VStr (str "pub" ++ str "//" ++ str "x").
Proof.
  destruct theme_id_falls_back_on_stylesheet as [H1 [H2 H3]].
  split; [apply H1; reflexivity|].
  split; [apply H2; reflexivity | apply H3; reflexivity].
Defined.

Lemma pageless_key_of_a_default_page_witness :
  let defaults := [(str "search", VStr []); (str "page", VNum (Int 1))] in
  let o := [(str "search", VStr (str "blue")); (str "page", VNum (Int 1))] in
  wf_object o = true /\
  getSerializedThemesQueryWithoutPage defaults (VObj o) (VNum (Int 7)) =
  getSerializedThemesQuery defaults (VObj o) (VNum (Int 7)).
Proof.
  intros defaults o. split; [reflexivity|].
  apply (pageless_key_of_a_default_page defaults o (VNum (Int 7)));
    [reflexivity | right; vm_compute; reflexivity].
Defined.

Lemma filterThemesForJetpack_keeps_the_matching_witness :
  filterThemesForJetpack example_defaults basic_latin_toLowerCase
    (VArr [VObj []; blue_theme]) (VObj [(str "filter", VStr (str "blue"))]) =
  Ret (VArr [blue_theme]).
Proof.
  apply (filterThemesForJetpack_keeps_the_matching
           example_defaults basic_latin_toLowerCase
           [VObj []; blue_theme] (VObj [(str "filter", VStr (str "blue"))])
           (fun t => match t with VObj [] => false | _ => true end)).
  intros t [<-|[<-|[]]]; vm_compute; reflexivity.
Defined.

Lemma filterThemesForJetpack_idempotent_witness :
  filterThemesForJetpack example_defaults basic_latin_toLowerCase
    (VArr [blue_theme]) (VObj [(str "filter", VStr (str "blue"))]) =
  Ret (VArr [blue_theme]).
Proof.
  apply (filterThemesForJetpack_idempotent
           example_defaults basic_latin_toLowerCase
           (VArr [VObj []; blue_theme]) (VObj [(str "filter", VStr (str "blue"))])
           (VArr [blue_theme])).
  vm_compute. reflexivity.
Defined.

Lemma query_without_search_or_filter_matches_all_witness :
  let q := VObj [(str "page", VNum (Int 2))] in
  isThemeMatchingQuery example_defaults basic_latin_toLowerCase q VNull = Ret true /\
  filterThemesForJetpack example_defaults basic_latin_toLowerCase
    (VArr [VNull; blue_theme]) q = Ret (VArr [VNull; blue_theme]).
Proof.
  intros q.
  destruct (query_without_search_or_filter_matches_all
              example_defaults basic_latin_toLowerCase q) as [H1 H2];
    [reflexivity | reflexivity | reflexivity |].
  split; [apply H1 | apply H2].
Defined.

Lemma normalizeJetpackTheme_idempotent_witness :
  let r := VObj [(str "id", VStr (str "twentysixteen"));
                 (str "taxonomies",
                  VObj [(str "theme_feature",
                         VArr [VObj [(str "slug", VStr (str "blue"))]])])] in
  normalizeJetpackTheme r = Ret r.
Proof.
  intros r.
  apply (normalizeJetpackTheme_idempotent
           (VObj [(str "id", VStr (str "twentysixteen"));
                  (str "tags", VArr [VStr (str "blue")])])).
  reflexivity.
Defined.


Lemma normalizeWpcomTheme_idempotent_witness :
  let theme := VObj [(str "id", VStr (str "twentysixteen"));
                     (str "description_long", VStr (str "A theme."))] in
  normalizeWpcomTheme whole_key_path (normalizeWpcomTheme whole_key_path theme) =
  normalizeWpcomTheme whole_key_path theme.
Proof.
  intros theme. apply (normalizeWpcomTheme_idempotent whole_key_path theme).
  intros k [<-|[<-|[]]]; reflexivity.
Defined.

Lemma normalizeWporgTheme_idempotent_witness :
  let theme := VObj [(str "slug", VStr (str "twentysixteen"));
                     (str "tags", VObj [(str "blue", VStr (str "Blue"))])] in
  normalizeWporgTheme whole_key_path (normalizeWporgTheme whole_key_path theme) =
  normalizeWporgTheme whole_key_path theme.
Proof.
  intros theme. apply (normalizeWporgTheme_idempotent whole_key_path theme).
  intros k [<-|[<-|[]]]; reflexivity.
Defined.

Lemma matching_is_search_and_filter_witness :
  isThemeMatchingQuery example_defaults basic_latin_toLowerCase
    (VObj [(str "search", VStr (str "blue")); (str "filter", VStr (str "red"))])
    blue_theme = Ret false.
Proof.
  apply (matching_is_search_and_filter example_defaults basic_latin_toLowerCase
           (VObj [(str "search", VStr (str "blue")); (str "filter", VStr (str "red"))])
           blue_theme (VBool true) (VBool false)).
  - reflexivity.
  - intros len H. discriminate H.
  - vm_compute. reflexivity.
  - vm_compute. reflexivity.
Defined.

Lemma matching_raises_on_non_string_witness :
  isThemeMatchingQuery example_defaults basic_latin_toLowerCase
    (VObj [(str "search", VNum (Int 5))]) blue_theme = Throw TypeError.
Proof.
  apply (matching_raises_on_non_string example_defaults basic_latin_toLowerCase
           (VObj [(str "search", VNum (Int 5))]) blue_theme
           (str "search") (str "filter") (VNum (Int 5))).
  - reflexivity.
  - intros len H. discriminate H.
  - left. split; reflexivity.
  - reflexivity.
  - vm_compute. reflexivity.
  - intros s H. discriminate H.
  - reflexivity.
Defined.

Lemma matching_raises_on_missing_theme_witness :
  isThemeMatchingQuery example_defaults basic_latin_toLowerCase
    (VObj [(str "filter", VStr (str "blue"))]) VNull = Throw TypeError.
Proof.
  apply (matching_raises_on_missing_theme example_defaults basic_latin_toLowerCase
           (VObj [(str "filter", VStr (str "blue"))]) VNull
           (str "filter") (str "search") (str "blue")).
  - reflexivity.
  - intros len H. discriminate H.
  - right. split; reflexivity.
  - left. reflexivity.
  - reflexivity.
  - discriminate.
  - left. reflexivity.
Defined.

Lemma matching_ignores_other_keys_witness :
  isThemeMatchingQuery example_defaults basic_latin_toLowerCase
    (VObj (obj_set (str "page") (VNum (Int 2))
                   [(str "search", VStr (str "blue"))])) blue_theme =
  isThemeMatchingQuery example_defaults basic_latin_toLowerCase
    (VObj [(str "search", VStr (str "blue"))]) blue_theme.
Proof.
  apply (matching_ignores_other_keys example_defaults basic_latin_toLowerCase
           [(str "search", VStr (str "blue"))] (str "page") (VNum (Int 2)) blue_theme).
  - discriminate.
  - discriminate.
  - intros len H. discriminate H.
  - intros len H. discriminate H.
Defined.

Lemma serialized_keys_do_not_collide_witness :
  let q1 := VObj [(str "search", VStr (str "a")); (str "filter", VStr [])] in
  let q2 := VObj [(str "search", VStr (str "a"))] in
  getSerializedThemesQuery example_defaults q1 (VNum (Int 0)) =
    getSerializedThemesQuery example_defaults q2 VUndef /\
  getNormalizedThemesQuery example_defaults q1 =
    getNormalizedThemesQuery example_defaults q2.
Proof.
  intros q1 q2.
  assert (Hkey : getSerializedThemesQuery example_defaults q1 (VNum (Int 0)) =
                 getSerializedThemesQuery example_defaults q2 VUndef)
    by (vm_compute; reflexivity).
  split; [exact Hkey|].
  destruct (serialized_keys_do_not_collide example_defaults q1 q2
              (VNum (Int 0)) VUndef
              [(str "search", VStr (str "a"))] [(str "search", VStr (str "a"))])
    as [Hr _].
  - reflexivity.
  - vm_compute. reflexivity.
  - reflexivity.
  - vm_compute. reflexivity.
  - left. reflexivity.
  - left. reflexivity.
  - exact Hkey.
  - exact (f_equal VObj Hr).
Defined.




Lemma array_like_query_matches_all_witness :
  isThemeMatchingQuery example_defaults basic_latin_toLowerCase
    (VObj [(str "search", VStr (str "zebra")); (str "length", VNum (Int 0))])
    blue_theme = Ret true.
Proof.
  apply (array_like_query_matches_all example_defaults basic_latin_toLowerCase
           (VObj [(str "search", VStr (str "zebra")); (str "length", VNum (Int 0))])
           blue_theme 0).
  - lia.
  - reflexivity.
Defined.


Lemma filterThemesForJetpack_raises_witness :
  exists e,
    filterThemesForJetpack example_defaults basic_latin_toLowerCase
      (VArr [blue_theme; VNull]) (VObj [(str "filter", VStr (str "blue"))]) =
    Throw e.
Proof.
  apply (filterThemesForJetpack_raises example_defaults basic_latin_toLowerCase
           [blue_theme; VNull] (VObj [(str "filter", VStr (str "blue"))])
           VNull TypeError).
  - right. left. reflexivity.
  - vm_compute. reflexivity.
Defined.

Lemma jetpack_tags_are_filterable_witness :
  let o := [(str "id", VStr (str "twentysixteen"));
            (str "tags", VArr [VStr (str "blue"); VStr (str "red")])] in
  let q := VObj [(str "filter", VStr (str "blue,red"))] in
  exists nt b,
    normalizeJetpackTheme (VObj o) = Ret nt /\
    isThemeMatchingQuery example_defaults basic_latin_toLowerCase q nt = Ret b /\
    (b = true <->
     forall f, In f (split_on 44 (str "blue,red")) ->
               In (VStr f) [VStr (str "blue"); VStr (str "red")]).
Proof.
  intros o q.
  apply (jetpack_tags_are_filterable example_defaults basic_latin_toLowerCase
           o [VStr (str "blue"); VStr (str "red")] q (str "blue,red")).
  - reflexivity.
  - intros len H. discriminate H.
  - reflexivity.
  - reflexivity.
  - discriminate.
  - reflexivity.
Defined.

Lemma string_site_id_has_the_key_of_the_number_witness :
  getSerializedThemesQuery example_defaults (VObj []) (VStr (decimal 7)) =
  getSerializedThemesQuery example_defaults (VObj []) (VNum (Int 7)).
Proof.
  apply (string_site_id_has_the_key_of_the_number example_defaults (VObj []) 7).
  lia.
Defined.

Lemma wporg_tags_are_filterable_witness :
  let tags := [(str "blue", VStr (str "Blue")); (str "red", VStr (str "Red"))] in
  let o := [(str "slug", VStr (str "twentysixteen")); (str "tags", VObj tags)] in
  exists b,
    isThemeMatchingQuery example_defaults basic_latin_toLowerCase
      (VObj [(str "filter", VStr (str "blue"))])
      (normalizeWporgTheme whole_key_path (VObj o)) = Ret b /\
    (b = true <-> forall f, In f (split_on 44 (str "blue")) -> In f (keys tags)).
Proof.
  intros tags o.
  apply (wporg_tags_are_filterable example_defaults basic_latin_toLowerCase
           whole_key_path o tags (VObj [(str "filter", VStr (str "blue"))])
           (str "blue")).
  - reflexivity.
  - intros len H. discriminate H.
  - reflexivity.
  - reflexivity.
  - discriminate.
  - repeat constructor; simpl; intuition discriminate.
  - intros k [<-|[<-|[]]]; reflexivity.
  - reflexivity.
  - intros len H. discriminate H.
Defined.

Lemma jetpack_tags_are_not_searched_witness :
  let o := [(str "name", VStr (str "Twenty Sixteen"));
            (str "tags", VArr [VStr (str "blue")])] in
  let q := VObj [(str "search", VStr (str "blue"))] in
  exists nt b,
    normalizeJetpackTheme (VObj o) = Ret nt /\
    isThemeMatchingQuery example_defaults basic_latin_toLowerCase q nt = Ret b /\
    (b = true <->
     exists n,
       (prop (str "name") o = VStr n \/ prop (str "author") o = VStr n \/
        prop (str "descriptionLong") o = VStr n) /\
       n <> [] /\
       is_substring (basic_latin_toLowerCase (str "blue"))
                    (basic_latin_toLowerCase n) = true).
Proof.
  intros o q.
  apply (jetpack_tags_are_not_searched example_defaults basic_latin_toLowerCase
           o [VStr (str "blue")] q (str "blue")).
  - reflexivity.
  - intros len H. discriminate H.
  - reflexivity.
  - discriminate.
  - reflexivity.
  - repeat constructor; simpl; intuition discriminate.
  - reflexivity.
  - right. eexists. reflexivity.
  - left. reflexivity.
  - left. reflexivity.
Defined.

Lemma pageless_key_reads_back_without_page_witness :
  let q := VObj [(str "search", VStr (str "a")); (str "page", VNum (Int 2))] in
  exists k,
    getSerializedThemesQueryWithoutPage example_defaults q VUndef = VStr k /\
    getDeserializedThemesQueryDetails k =
      {| siteId := VUndef; query := VObj [(str "search", VStr (str "a"))] |} /\
    lookup (str "page") [(str "search", VStr (str "a"))] = None.
Proof.
  intros q.
  apply (pageless_key_reads_back_without_page example_defaults q VUndef
           [(str "search", VStr (str "a"))]).
  - reflexivity.
  - vm_compute. reflexivity.
  - left. reflexivity.
Defined.
